(** * Reload Pro: user interface core ([ui.c], [config.h])

    A shallow embedding of the rotary-encoder decoder, the number
    formatter, the screen handlers and the UI trampoline of the
    constant-current load firmware, with the properties of its
    specification stated over it.

    Conventions.
    - C [int] values are integers of [Z]; [/] and [%] are C's truncating
      [Z.quot] and [Z.rem].  Signed overflow is undefined in C and is not
      given a meaning here; [int8] stores are written with their wrap.
    - A division whose divisor can be zero returns [option].
    - The display driver is a write-only collaborator: [Display_*] calls
      change nothing a handler reads back and are left out of the handlers
      of [UI], except [Display_SetContrast] which is logged.  [draw_menu]
      and [draw_status] are modelled in [Drawing]; [Redraw] is the CC-load
      screen with the [draw_status] it makes on every pass, and the UI task
      over it.
    - Handlers run against a [world] and a trace of [tick]s, one per call
      of [next_event]. *)

From Stdlib Require Import ZArith List String Ascii Bool Lia.
Import ListNotations.
Local Open Scope Z_scope.

(** ** UI events *)

(** Modelled from the spec: [tasks.h] is not part of the sources; the event
    kinds are those of the specification's data model (NONE, BUTTON_PRESS,
    UP_DOWN, ADC_READING, OVERTEMP) under the names [ui.c] uses. *)
Inductive ui_event_type : Type :=
| UI_EVENT_NONE
| UI_EVENT_BUTTONPRESS
| UI_EVENT_UPDOWN
| UI_EVENT_ADC_READING
| UI_EVENT_OVERTEMP.

Definition ui_event_type_eqb (a b : ui_event_type) : bool :=
  match a, b with
  | UI_EVENT_NONE, UI_EVENT_NONE
  | UI_EVENT_BUTTONPRESS, UI_EVENT_BUTTONPRESS
  | UI_EVENT_UPDOWN, UI_EVENT_UPDOWN
  | UI_EVENT_ADC_READING, UI_EVENT_ADC_READING
  | UI_EVENT_OVERTEMP, UI_EVENT_OVERTEMP => true
  | _, _ => false
  end.

(** The three fields [ui.c] reads and writes: [type], [when], [int_arg]. *)
Record ui_event : Type := mk_event {
  type : ui_event_type;
  when : Z;
  int_arg : Z
}.

(** [event.type != UI_EVENT_BUTTONPRESS || event.int_arg != 1], negated:
    the condition under which the button-wait loops stop. *)
Definition is_button1 (e : ui_event) : bool :=
  ui_event_type_eqb (type e) UI_EVENT_BUTTONPRESS && (int_arg e =? 1).

(** ** Quadrature decoder *)

Module Quadrature.

(** [const int8 quadrature_states[] = {0x1, 0x3, 0x0, 0x2};] *)
Definition quadrature_states : list Z := [1; 3; 0; 2].

(** Indexing the table; [None] outside its four entries. *)
Definition table_at (i : Z) : option Z :=
  if i <? 0 then None else nth_error quadrature_states (Z.to_nat i).

(** A store into an [int8] variable. *)
Definition to_int8 (z : Z) : Z := (z + 128) mod 256 - 128.

(** The two function-static variables of the ISR. *)
Record isr_state : Type := mk_isr {
  last_levels : Z;
  count : Z
}.

(** [static int8 last_levels = 3; static int8 count = 0;] *)
Definition isr_init : isr_state := {| last_levels := 3; count := 0 |}.

(** The first half of the ISR: compare the new levels with the table and
    move [count] by one edge. *)
Definition edge (levels : Z) (s : isr_state) : option isr_state :=
  match table_at (last_levels s) with
  | None => None
  | Some fwd =>
      if fwd =? levels then
        Some {| last_levels := to_int8 levels; count := to_int8 (count s + 1) |}
      else
        match table_at levels with
        | None => None
        | Some back =>
            if back =? last_levels s then
              Some {| last_levels := to_int8 levels;
                      count := to_int8 (count s - 1) |}
            else Some s
        end
  end.

(** The second half: once [abs(count) >= 4] send one UP_DOWN event and keep
    the remainder.  The result lists the events handed to
    [xQueueSendToBackFromISR]. *)
Definition flush (now : Z) (s : isr_state) : isr_state * list ui_event :=
  if 4 <=? Z.abs (count s) then
    ({| last_levels := last_levels s; count := to_int8 (Z.rem (count s) 4) |},
     [ {| type := UI_EVENT_UPDOWN; when := now;
          int_arg := Z.quot (count s) 4 |} ])
  else (s, []).

(** [CY_ISR(quadrature_event_isr)]: [levels] is [Quadrature_Read()], [now]
    is [xTaskGetTickCountFromISR()]. *)
Definition quadrature_event_isr (levels now : Z) (s : isr_state)
  : option (isr_state * list ui_event) :=
  match edge levels s with
  | None => None
  | Some s1 => Some (flush now s1)
  end.

(** A train of interrupts: each element is a pair of the levels read and
    the tick count at that interrupt.  The events sent are collected in
    order. *)
Fixpoint isr_run (edges : list (Z * Z)) (s : isr_state)
  : option (isr_state * list ui_event) :=
  match edges with
  | [] => Some (s, [])
  | (levels, now) :: rest =>
      match quadrature_event_isr levels now s with
      | None => None
      | Some (s1, sent) =>
          match isr_run rest s1 with
          | None => None
          | Some (s2, sent') => Some (s2, sent ++ sent')
          end
      end
  end.

(** Between interrupts the accumulator is short of a detent and the last
    levels are a two-bit code. *)
Definition isr_inv (s : isr_state) : Prop :=
  0 <= last_levels s <= 3 /\ -4 < count s < 4.

End Quadrature.

(** ** Number formatter *)

Module Formatter.

Definition digit (d : Z) : ascii := ascii_of_N (48 + Z.to_N d).

(** Decimal digits of a non-negative number, most significant first. *)
Fixpoint digits_from (fuel : nat) (n : Z) (acc : string) : string :=
  match fuel with
  | O => acc
  | S f =>
      let acc' := String (digit (n mod 10)) acc in
      if n <? 10 then acc' else digits_from f (n / 10) acc'
  end.

Definition decimal (n : Z) : string :=
  digits_from (S (Z.to_nat (Z.log2 n))) n EmptyString.

Fixpoint pad_left (c : ascii) (k : nat) (s : string) : string :=
  match k with
  | O => s
  | S k' => String c (pad_left c k' s)
  end.

(** [printf]'s [%wd] ([zero = false]) and [%0wd] ([zero = true]) for a
    non-negative argument; a negative one gets its sign in front. *)
Definition sprintf_d (zero : bool) (width : nat) (n : Z) : string :=
  let body := if n <? 0 then String "-"%char (decimal (- n)) else decimal n in
  pad_left (if zero then "0"%char else " "%char)
           (width - String.length body) body.

(** A [char] array read as a C string: it ends at the first NUL. *)
Fixpoint c_string (cs : list ascii) : string :=
  match cs with
  | [] => EmptyString
  | c :: rest =>
      if Ascii.eqb c zero then EmptyString else String c (c_string rest)
  end.

Definition strcat (out : string) (src : list ascii) : string :=
  (out ++ c_string src)%string.

(** [while(num >= 1000000) { num /= 1000; magnitude++; }] *)
Fixpoint scale (fuel : nat) (num magnitude : Z) : Z * Z :=
  match fuel with
  | O => (num, magnitude)
  | S f =>
      if 1000000 <=? num then scale f (Z.quot num 1000) (magnitude + 1)
      else (num, magnitude)
  end.

(** [static void format_number(int num, const char suffix, char *out)];
    the result is the content of [out]. *)
Definition format_number (num : Z) (suffix : ascii) : string :=
  let num := if num <? 0 then 0 else num in
  let '(num, magnitude) := scale (Z.to_nat (Z.log2 num)) num 1 in
  let whole := Z.quot num 1000 in
  let remainder := Z.rem num 1000 in
  let out :=
    if whole <? 10 then
      (sprintf_d false 1 whole ++ "."
         ++ sprintf_d true 2 (Z.quot remainder 10))%string
    else if whole <? 100 then
      (sprintf_d true 2 whole ++ "."
         ++ sprintf_d false 1 (Z.quot remainder 100))%string
    else
      sprintf_d true 3 whole in
  if magnitude =? 1 then strcat out ["m"%char; suffix; zero]
  else strcat out [suffix; " "%char; zero].

(** What the loop leaves in [num], and [whole] as computed from it. *)
Definition scaled (num : Z) : Z :=
  let num := if num <? 0 then 0 else num in
  fst (scale (Z.to_nat (Z.log2 num)) num 1).

Definition whole_part (num : Z) : Z := Z.quot (scaled num) 1000.

End Formatter.

(** ** [config.h]: constants, live state, persisted settings *)

Definition CURRENT_LOWRANGE_STEP : Z := 5000.
Definition CURRENT_FULLRANGE_STEP : Z := 20000.
Definition CURRENT_LOWRANGE_MAX : Z := 250000.
Definition CURRENT_FULLRANGE_MAX : Z := 6000000.
Definition DEFAULT_OPAMP_OFFSET_TRIM : Z := 0x24.

(** Modelled from the spec: [FreeRTOSConfig.h] is not part of the sources;
    the specification gives [tick_rate/10] as 100 ms, a 1 kHz tick. *)
Definition configTICK_RATE_HZ : Z := 1000.

Inductive adc_channel : Type :=
| ADC_CHAN_CURRENT_SENSE
| ADC_CHAN_VOLTAGE_SENSE
| ADC_CHAN_OPAMP_OUT
| ADC_CHAN_FET_IN
| ADC_CHAN_TEMP
| ADC_CHAN_CURRENT_SET.

Record state_t : Type := mk_state {
  current_setpoint : Z;
  current_range : Z
}.

Record settings_t : Type := mk_settings {
  dac_low_gain : Z;
  dac_high_gain : Z;
  dac_low_offset : Z;
  dac_high_offset : Z;
  opamp_offset_trim : Z;
  adc_current_offset : Z;
  adc_current_gain : Z;
  adc_voltage_offset : Z;
  adc_voltage_gain : Z;
  backlight_brightness : Z;
  lcd_contrast : Z
}.

Definition set_opamp_offset_trim (v : Z) (s : settings_t) : settings_t :=
  mk_settings (dac_low_gain s) (dac_high_gain s) (dac_low_offset s)
    (dac_high_offset s) v (adc_current_offset s) (adc_current_gain s)
    (adc_voltage_offset s) (adc_voltage_gain s) (backlight_brightness s)
    (lcd_contrast s).

Definition set_adc_current_offset (v : Z) (s : settings_t) : settings_t :=
  mk_settings (dac_low_gain s) (dac_high_gain s) (dac_low_offset s)
    (dac_high_offset s) (opamp_offset_trim s) v (adc_current_gain s)
    (adc_voltage_offset s) (adc_voltage_gain s) (backlight_brightness s)
    (lcd_contrast s).

Definition set_adc_voltage_offset (v : Z) (s : settings_t) : settings_t :=
  mk_settings (dac_low_gain s) (dac_high_gain s) (dac_low_offset s)
    (dac_high_offset s) (opamp_offset_trim s) (adc_current_offset s)
    (adc_current_gain s) v (adc_voltage_gain s) (backlight_brightness s)
    (lcd_contrast s).

Definition set_adc_voltage_gain (v : Z) (s : settings_t) : settings_t :=
  mk_settings (dac_low_gain s) (dac_high_gain s) (dac_low_offset s)
    (dac_high_offset s) (opamp_offset_trim s) (adc_current_offset s)
    (adc_current_gain s) (adc_voltage_offset s) v (backlight_brightness s)
    (lcd_contrast s).

Definition set_lcd_contrast (v : Z) (s : settings_t) : settings_t :=
  mk_settings (dac_low_gain s) (dac_high_gain s) (dac_low_offset s)
    (dac_high_offset s) (opamp_offset_trim s) (adc_current_offset s)
    (adc_current_gain s) (adc_voltage_offset s) (adc_voltage_gain s)
    (backlight_brightness s) v.

(** [readout_function], kept as the integers the menus carry in their
    [arg] pointers. *)
Definition READOUT_NONE : Z := 0.
Definition READOUT_CURRENT_SETPOINT : Z := 1.
Definition READOUT_CURRENT_USAGE : Z := 2.
Definition READOUT_VOLTAGE : Z := 3.
Definition READOUT_POWER : Z := 4.
Definition READOUT_RESISTANCE : Z := 5.

Inductive output_mode : Type :=
| OUTPUT_MODE_OFF
| OUTPUT_MODE_ON
| OUTPUT_MODE_FEEDBACK.

Definition output_mode_eqb (a b : output_mode) : bool :=
  match a, b with
  | OUTPUT_MODE_OFF, OUTPUT_MODE_OFF
  | OUTPUT_MODE_ON, OUTPUT_MODE_ON
  | OUTPUT_MODE_FEEDBACK, OUTPUT_MODE_FEEDBACK => true
  | _, _ => false
  end.

(** ** The world a handler runs in *)

(** Calls on the collaborators, in the order they are made. *)
Inductive effect : Type :=
| E_set_current (setpoint : Z)
| E_set_output_mode (m : output_mode)
| E_EEPROM_Write_settings (image : settings_t)
| E_EEPROM_Write_contrast (contrast : Z)
| E_EEPROM_Write_readout (slot : Z) (kind : Z)
| E_opamp_trim (i : Z)
| E_Display_SetContrast (contrast : Z).

Record world : Type := mk_world {
  state : state_t;                  (* [state_t state] *)
  mode : output_mode;               (* behind get/set_output_mode *)
  settings : settings_t;            (* [*settings], the persisted record *)
  cc_readouts : list Z;             (* [display_settings.cc.readouts] *)
  last_tick : Z;                    (* static of [next_event] *)
  raw_voltage : Z;                  (* what [get_raw_voltage()] returns *)
  raw_current_usage : Z;            (* what [get_raw_current_usage()] returns *)
  adc : Z -> adc_channel -> Z;      (* ADC results under opamp trim [i] *)
  effects : list effect
}.

Definition with_state (s : state_t) (w : world) : world :=
  mk_world s (mode w) (settings w) (cc_readouts w) (last_tick w)
    (raw_voltage w) (raw_current_usage w) (adc w) (effects w).

Definition with_mode (m : output_mode) (w : world) : world :=
  mk_world (state w) m (settings w) (cc_readouts w) (last_tick w)
    (raw_voltage w) (raw_current_usage w) (adc w) (effects w).

Definition with_settings (s : settings_t) (w : world) : world :=
  mk_world (state w) (mode w) s (cc_readouts w) (last_tick w)
    (raw_voltage w) (raw_current_usage w) (adc w) (effects w).

Definition with_cc_readouts (r : list Z) (w : world) : world :=
  mk_world (state w) (mode w) (settings w) r (last_tick w)
    (raw_voltage w) (raw_current_usage w) (adc w) (effects w).

Definition with_last_tick (t : Z) (w : world) : world :=
  mk_world (state w) (mode w) (settings w) (cc_readouts w) t
    (raw_voltage w) (raw_current_usage w) (adc w) (effects w).

Definition with_sensors (v i : Z) (w : world) : world :=
  mk_world (state w) (mode w) (settings w) (cc_readouts w) (last_tick w)
    v i (adc w) (effects w).

Definition log (e : effect) (w : world) : world :=
  mk_world (state w) (mode w) (settings w) (cc_readouts w) (last_tick w)
    (raw_voltage w) (raw_current_usage w) (adc w) (effects w ++ [e]).

(** *** Control facade *)

(** Modelled from the spec: [set_current] is declared in [config.h] and
    defined outside the sources.  The specification: clamp to
    [[0, CURRENT_FULLRANGE_MAX]]; select range 0 if the setpoint is at most
    [CURRENT_LOWRANGE_MAX], else range 1. *)
Definition set_current (setpoint : Z) (w : world) : world :=
  let clamped :=
    if setpoint <? 0 then 0
    else if CURRENT_FULLRANGE_MAX <? setpoint then CURRENT_FULLRANGE_MAX
    else setpoint in
  let range := if clamped <=? CURRENT_LOWRANGE_MAX then 0 else 1 in
  with_state {| current_setpoint := clamped; current_range := range |}
    (log (E_set_current setpoint) w).

(** Modelled from the spec: [get_output_mode] and [set_output_mode] are
    declared in [config.h] and defined outside the sources; they read and
    write the output mode. *)
Definition get_output_mode (w : world) : output_mode := mode w.

Definition set_output_mode (m : output_mode) (w : world) : world :=
  with_mode m (log (E_set_output_mode m) w).

Definition get_raw_voltage (w : world) : Z := raw_voltage w.
Definition get_raw_current_usage (w : world) : Z := raw_current_usage w.

(** [EEPROM_Write] of the whole settings record, of its [lcd_contrast]
    field, and of one readout slot of the CC display configuration. *)
Definition EEPROM_Write_settings (image : settings_t) (w : world) : world :=
  with_settings image (log (E_EEPROM_Write_settings image) w).

Definition EEPROM_Write_contrast (contrast : Z) (w : world) : world :=
  with_settings (set_lcd_contrast contrast (settings w))
    (log (E_EEPROM_Write_contrast contrast) w).

Fixpoint list_set (l : list Z) (i : nat) (v : Z) : option (list Z) :=
  match l, i with
  | [], _ => None
  | _ :: t, O => Some (v :: t)
  | h :: t, S i' =>
      match list_set t i' v with
      | None => None
      | Some t' => Some (h :: t')
      end
  end.

Definition EEPROM_Write_readout (slot kind : Z) (w : world) : option world :=
  if slot <? 0 then None
  else
    match list_set (cc_readouts w) (Z.to_nat slot) kind with
    | None => None
    | Some r => Some (with_cc_readouts r (log (E_EEPROM_Write_readout slot kind) w))
    end.

(** [adjust_current_setpoint] *)
Definition adjust_current_setpoint (delta : Z) (w : world) : world :=
  if current_range (state w) =? 0 then
    set_current (current_setpoint (state w) + delta * CURRENT_LOWRANGE_STEP) w
  else
    set_current (current_setpoint (state w) + delta * CURRENT_FULLRANGE_STEP) w.

(** *** Event delivery *)

(** One call of [next_event] as the environment answers it: the tick count
    read, what [xQueueReceive] yields if it is called ([None] for a
    timeout), and what changed outside the UI task while it waited: the
    sensor readings and, possibly, the output mode. *)
Record tick : Type := mk_tick {
  now : Z;
  rx : option ui_event;
  sensed_voltage : Z;
  sensed_current : Z;
  mode_write : option output_mode
}.

Definition environment (t : tick) (w : world) : world :=
  let w := with_sensors (sensed_voltage t) (sensed_current t) w in
  match mode_write t with
  | Some m => with_mode m w
  | None => w
  end.

(** [next_event]: a synthesized ADC_READING leaves [int_arg] as it was. *)
Definition next_event (t : tick) (event : ui_event) (w : world)
  : ui_event * world :=
  let w := environment t w in
  let tick_due := last_tick w + configTICK_RATE_HZ / 10 <? now t in
  match (if tick_due then None else rx t) with
  | None =>
      ({| type := UI_EVENT_ADC_READING; when := now t;
          int_arg := int_arg event |},
       with_last_tick (now t) w)
  | Some received => (received, w)
  end.

(** *** Outcomes and loops *)

(** A handler on a finite trace returns ([Ret], with the unread ticks), is
    still blocked in [next_event] when the trace ends ([Starved], with the
    world at that point), or has left defined C behaviour ([Undefined]). *)
Inductive result (A : Type) : Type :=
| Ret (a : A) (w : world) (rest : list tick)
| Starved (w : world)
| Undefined.
Arguments Ret {A} a w rest.
Arguments Starved {A} w.
Arguments Undefined {A}.

Definition bind {A B : Type} (r : result A)
  (k : A -> world -> list tick -> result B) : result B :=
  match r with
  | Ret a w rest => k a w rest
  | Starved w => Starved w
  | Undefined => Undefined
  end.

(** One pass through a loop body that starts with [next_event]. *)
Inductive step_out (L A : Type) : Type :=
| Continue (l : L) (w : world)
| Break (a : A) (w : world)
| Crash.
Arguments Continue {L A} l w.
Arguments Break {L A} a w.
Arguments Crash {L A}.

Section Loop.
Context {L A : Type}.
Variable body : tick -> L -> world -> step_out L A.

Fixpoint run_loop (l : L) (w : world) (ticks : list tick) : result A :=
  match ticks with
  | [] => Starved w
  | t :: rest =>
      match body t l w with
      | Continue l' w' => run_loop l' w' rest
      | Break a w' => Ret a w' rest
      | Crash => Undefined
      end
  end.

(** The loop variables and world after the whole of [ticks] went through
    the body without leaving the loop. *)
Fixpoint loop_after (l : L) (w : world) (ticks : list tick)
  : option (L * world) :=
  match ticks with
  | [] => Some (l, w)
  | t :: rest =>
      match body t l w with
      | Continue l' w' => loop_after l' w' rest
      | _ => None
      end
  end.
End Loop.

(** ** Readouts *)

Module Readouts.

Import Formatter.

(** An [int] division: undefined for a zero divisor. *)
Definition c_div (a b : Z) : option Z :=
  if b =? 0 then None else Some (Z.quot a b).

Section Glyphs.
(** [Display_font.h] is not part of the sources: the ohm glyph's string
    and the macro that takes its character are parameters. *)
Variable FONT_GLYPH_OHM : string.
Variable GLYPH_CHAR : string -> ascii.

(** [print_resistance]; [current] is [get_current_usage()], [voltage] is
    [get_voltage()].  [None]: the division was by zero. *)
Definition print_resistance (current voltage : Z) : option string :=
  if 0 <? current then
    match c_div (voltage * 10) (Z.quot current 100000) with
    | None => None
    | Some milliohms =>
        Some (format_number milliohms (GLYPH_CHAR FONT_GLYPH_OHM))
    end
  else Some ("----" ++ FONT_GLYPH_OHM)%string.
End Glyphs.

(** [print_power] *)
Definition print_power (current voltage : Z) : string :=
  format_number (Z.quot current 1000 * Z.quot voltage 1000) "W"%char.

End Readouts.

(** ** State descriptors and menus *)

(** The six handlers a descriptor can point to, and the splash screen. *)
Inductive handler : Type :=
| cc_load_fn
| menu_fn
| calibrate_fn
| display_config_fn
| set_contrast_fn
| overtemp_fn
| splashscreen_fn.

Definition handler_eqb (a b : handler) : bool :=
  match a, b with
  | cc_load_fn, cc_load_fn
  | menu_fn, menu_fn
  | calibrate_fn, calibrate_fn
  | display_config_fn, display_config_fn
  | set_contrast_fn, set_contrast_fn
  | overtemp_fn, overtemp_fn
  | splashscreen_fn, splashscreen_fn => true
  | _, _ => false
  end.

(** What a [const void *arg] holds in this program: a small integer cast
    to a pointer ([NULL] is the integer 0), or the address of one of the
    constant objects. *)
Inductive pointer : Type :=
| P_int (z : Z)
| P_main_menu
| P_choose_readout_menu
| P_set_readout_menu
| P_display_settings_cc.

Definition NULL : pointer := P_int 0.

Definition int_of_pointer (p : pointer) : option Z :=
  match p with
  | P_int z => Some z
  | _ => None
  end.

(** [state_func]; [func = None] is the null function pointer. *)
Record state_func : Type := mk_state_func {
  func : option handler;
  arg : pointer;
  is_main_state : Z
}.

Definition STATE_MAIN : state_func := mk_state_func None NULL 0.
Definition STATE_CC_LOAD : state_func := mk_state_func (Some cc_load_fn) NULL 1.
Definition STATE_CALIBRATE : state_func :=
  mk_state_func (Some calibrate_fn) NULL 0.
Definition STATE_CONFIGURE_CC_DISPLAY : state_func :=
  mk_state_func (Some display_config_fn) P_display_settings_cc 0.
Definition STATE_SET_CONTRAST : state_func :=
  mk_state_func (Some set_contrast_fn) NULL 0.
Definition STATE_OVERTEMP : state_func := mk_state_func (Some overtemp_fn) NULL 0.
Definition STATE_SPLASHSCREEN : state_func :=
  mk_state_func (Some splashscreen_fn) NULL 0.
Definition STATE_MAIN_MENU : state_func :=
  mk_state_func (Some menu_fn) P_main_menu 0.

(** [menuitem] and [menudata]; a [None] caption is the null caption that
    ends [items]. *)
Record menuitem : Type := mk_item {
  caption : option string;
  new_state : state_func
}.

Record menudata : Type := mk_menu {
  title : option string;
  items : list menuitem
}.

Definition end_of_items : menuitem := mk_item None (mk_state_func None NULL 0).

Definition set_readout_menu : menudata :=
  mk_menu (Some "Choose value"%string)
    [ mk_item (Some "Set Current"%string)
        (mk_state_func None (P_int READOUT_CURRENT_SETPOINT) 0);
      mk_item (Some "Act. Current"%string)
        (mk_state_func None (P_int READOUT_CURRENT_USAGE) 0);
      mk_item (Some "Voltage"%string)
        (mk_state_func None (P_int READOUT_VOLTAGE) 0);
      mk_item (Some "Power"%string)
        (mk_state_func None (P_int READOUT_POWER) 0);
      mk_item (Some "Resistance"%string)
        (mk_state_func None (P_int READOUT_RESISTANCE) 0);
      mk_item (Some "None"%string)
        (mk_state_func None (P_int READOUT_NONE) 0);
      end_of_items ].

Definition choose_readout_menu : menudata :=
  mk_menu (Some "Readouts"%string)
    [ mk_item (Some "Main display"%string) (mk_state_func None (P_int 0) 0);
      mk_item (Some "Left display"%string) (mk_state_func None (P_int 1) 0);
      mk_item (Some "Right display"%string) (mk_state_func None (P_int 2) 0);
      end_of_items ].

Definition main_menu : menudata :=
  mk_menu None
    [ mk_item (Some "C/C Load"%string) STATE_CC_LOAD;
      mk_item (Some "Readouts"%string) STATE_CONFIGURE_CC_DISPLAY;
      mk_item (Some "Contrast"%string) STATE_SET_CONTRAST;
      mk_item (Some "Calibrate"%string) STATE_CALIBRATE;
      end_of_items ].

Definition menu_of_pointer (p : pointer) : option menudata :=
  match p with
  | P_main_menu => Some main_menu
  | P_choose_readout_menu => Some choose_readout_menu
  | P_set_readout_menu => Some set_readout_menu
  | _ => None
  end.

(** ** Screens *)

Module UI.

(** A local [ui_event event;] whose [type] is set to NONE.  The other
    fields are indeterminate in C; no handler reads them before
    [next_event] has stored an event. *)
Definition fresh_event : ui_event :=
  {| type := UI_EVENT_NONE; when := 0; int_arg := 0 |}.

(** *** [menu] *)

Definition item_at (m : menudata) (i : Z) : option menuitem :=
  if i <? 0 then None else nth_error (items m) (Z.to_nat i).

(** [for(int i = 0; i < event.int_arg; i++)] with its [break]; [k] passes
    remain.  [None]: the item read lies outside [items]. *)
Fixpoint move_down (m : menudata) (k : nat) (selected : Z) : option Z :=
  match k with
  | O => Some selected
  | S k' =>
      match item_at m (selected + 1) with
      | None => None
      | Some next =>
          match caption next with
          | None => Some selected
          | Some _ => move_down m k' (selected + 1)
          end
      end
  end.

(** The UP_DOWN case of the switch. *)
Definition menu_updown (m : menudata) (delta selected : Z) : option Z :=
  if delta <? 0 then
    if 0 <=? selected + delta then Some (selected + delta) else Some 0
  else move_down m (Z.to_nat delta) selected.

(** One pass of the [while] loop: [next_event], the switch, then the loop
    condition; when the loop ends the selected item's state is returned. *)
Definition menu_body (m : menudata) (t : tick) (l : Z * ui_event) (w : world)
  : step_out (Z * ui_event) state_func :=
  let '(selected, event) := l in
  let '(event, w) := next_event t event w in
  match type event with
  | UI_EVENT_OVERTEMP => Break STATE_OVERTEMP w
  | ty =>
      let moved :=
        match ty with
        | UI_EVENT_UPDOWN => menu_updown m (int_arg event) selected
        | _ => Some selected
        end in
      match moved with
      | None => Crash
      | Some selected =>
          if is_button1 event then
            match item_at m selected with
            | None => Crash
            | Some it => Break (new_state it) w
            end
          else Continue (selected, event) w
      end
  end.

Definition menu (m : menudata) (w : world) (ticks : list tick)
  : result state_func :=
  run_loop (menu_body m) (0, fresh_event) w ticks.

(** *** [display_config] *)

Definition is_overtemp (s : state_func) : bool :=
  match func s with
  | Some h => handler_eqb h overtemp_fn
  | None => false
  end.

Definition display_config (config : pointer) (w : world) (ticks : list tick)
  : result state_func :=
  bind (menu choose_readout_menu w ticks) (fun display w ticks =>
  if is_overtemp display then Ret display w ticks
  else
    bind (menu set_readout_menu w ticks) (fun readout w ticks =>
    if is_overtemp readout then Ret readout w ticks
    else
      match config, int_of_pointer (arg readout), int_of_pointer (arg display)
      with
      | P_display_settings_cc, Some kind, Some slot =>
          match EEPROM_Write_readout slot kind w with
          | Some w' => Ret STATE_MAIN w' ticks
          | None => Undefined
          end
      | _, _, _ => Undefined
      end)).

(** *** [set_contrast] *)

Definition set_contrast_body (t : tick) (l : Z * ui_event) (w : world)
  : step_out (Z * ui_event) state_func :=
  let '(contrast, event) := l in
  let '(event, w) := next_event t event w in
  match type event with
  | UI_EVENT_UPDOWN =>
      let contrast := contrast + int_arg event in
      let contrast :=
        if 0x3F <? contrast then 0x3F
        else if contrast <? 0 then 0 else contrast in
      Continue (contrast, event) (log (E_Display_SetContrast contrast) w)
  | UI_EVENT_BUTTONPRESS =>
      if int_arg event =? 1 then
        Break STATE_MAIN (EEPROM_Write_contrast contrast w)
      else Continue (contrast, event) w
  | UI_EVENT_OVERTEMP => Break STATE_OVERTEMP w
  | _ => Continue (contrast, event) w
  end.

Definition set_contrast (w : world) (ticks : list tick) : result state_func :=
  run_loop set_contrast_body (lcd_contrast (settings w), fresh_event) w ticks.

(** *** [overtemp] *)

(** One pass of the loop: [next_event], the output-mode test, then the loop
    condition; when the loop ends on the button, the two calls after it. *)
Definition overtemp_body (t : tick) (event : ui_event) (w : world)
  : step_out ui_event state_func :=
  let '(event, w) := next_event t event w in
  if output_mode_eqb (get_output_mode w) OUTPUT_MODE_FEEDBACK then
    Break STATE_MAIN w
  else if is_button1 event then
    Break STATE_MAIN (set_output_mode OUTPUT_MODE_FEEDBACK (set_current 0 w))
  else Continue event w.

Definition overtemp (w : world) (ticks : list tick) : result state_func :=
  run_loop overtemp_body fresh_event w ticks.

(** *** [splashscreen] *)

(** [vTaskDelay] then the CC-load descriptor; no event is read. *)
Definition splashscreen (w : world) (ticks : list tick) : result state_func :=
  Ret STATE_CC_LOAD w ticks.

(** *** [cc_load] *)

(** The BUTTONPRESS case has no [break] after its [if]: with an identifier
    other than 1 control runs on into the UPDOWN case. *)
Definition cc_load_body (t : tick) (event : ui_event) (w : world)
  : step_out ui_event state_func :=
  let '(event, w) := next_event t event w in
  match type event with
  | UI_EVENT_BUTTONPRESS =>
      if int_arg event =? 1 then Break STATE_MAIN_MENU w
      else Continue event (adjust_current_setpoint (int_arg event) w)
  | UI_EVENT_UPDOWN =>
      Continue event (adjust_current_setpoint (int_arg event) w)
  | UI_EVENT_OVERTEMP => Break STATE_OVERTEMP w
  | _ => Continue event w
  end.

Definition cc_load (w : world) (ticks : list tick) : result state_func :=
  run_loop cc_load_body fresh_event w ticks.

(** *** The calibration wizard *)

(** Step 1, [calibrate_offsets]: wait for the button, then take the two
    offsets. *)
Definition calibrate_offsets_body (t : tick) (event : ui_event) (w : world)
  : step_out ui_event unit :=
  let '(event, w) := next_event t event w in
  if is_button1 event then Break tt w else Continue event w.

Definition calibrate_offsets (new_settings : settings_t) (w : world)
  (ticks : list tick) : result settings_t :=
  bind (run_loop calibrate_offsets_body fresh_event w ticks) (fun _ w ticks =>
  let new_settings :=
    set_adc_voltage_offset (get_raw_voltage w) new_settings in
  let new_settings :=
    set_adc_current_offset (get_raw_current_usage w) new_settings in
  Ret new_settings w ticks).

(** Step 2, [calibrate_voltage]: each UP_DOWN scales the gain; the button
    ends the step. *)
Definition calibrate_voltage_body (t : tick) (l : settings_t * ui_event)
  (w : world) : step_out (settings_t * ui_event) settings_t :=
  let '(new_settings, event) := l in
  let '(event, w) := next_event t event w in
  let new_settings :=
    match type event with
    | UI_EVENT_UPDOWN =>
        set_adc_voltage_gain
          (adc_voltage_gain new_settings
           + Z.quot (adc_voltage_gain new_settings * int_arg event) 500)
          new_settings
    | _ => new_settings
    end in
  if is_button1 event then Break new_settings w
  else Continue (new_settings, event) w.

Definition calibrate_voltage (new_settings : settings_t) (w : world)
  (ticks : list tick) : result settings_t :=
  run_loop calibrate_voltage_body (new_settings, fresh_event) w ticks.

(** Step 3, [calibrate_opamp_dac_offsets]: the residual read with trim
    setting [i] programmed. *)
Definition residual (w : world) (i : Z) : Z :=
  adc w i ADC_CHAN_CURRENT_SENSE - adc w i ADC_CHAN_CURRENT_SET.

(** [for(int i = 0; i < 32; i++)] from [i] on, [k] settings left. *)
Fixpoint trim_sweep (k : nat) (i : Z) (new_settings : settings_t) (w : world)
  : settings_t * world :=
  match k with
  | O => (new_settings, w)
  | S k' =>
      let w := log (E_opamp_trim i) w in
      if residual w i <=? 0 then (set_opamp_offset_trim (i - 1) new_settings, w)
      else trim_sweep k' (i + 1) new_settings w
  end.

Definition calibrate_opamp_dac_offsets (new_settings : settings_t) (w : world)
  : settings_t * world :=
  let w := set_current 100000 w in
  let '(new_settings, w) := trim_sweep 32 0 new_settings w in
  (new_settings, set_current 0 w).

(** Step 4, [calibrate_current]: only draws. *)
Definition calibrate_current (new_settings : settings_t) (w : world)
  : settings_t * world := (new_settings, w).

Definition calibrate (w : world) (ticks : list tick) : result state_func :=
  let w := set_current 0 w in
  let new_settings := settings w in
  bind (calibrate_offsets new_settings w ticks) (fun new_settings w ticks =>
  bind (calibrate_voltage new_settings w ticks) (fun new_settings w ticks =>
  let '(new_settings, w) := calibrate_opamp_dac_offsets new_settings w in
  let '(new_settings, w) := calibrate_current new_settings w in
  Ret (mk_state_func None NULL 0) (EEPROM_Write_settings new_settings w) ticks)).

(** *** The trampoline, [vTaskUI] *)

(** [state.func(state.arg)] *)
Definition call (s : state_func) (w : world) (ticks : list tick)
  : result state_func :=
  match func s with
  | None => Undefined
  | Some cc_load_fn => cc_load w ticks
  | Some menu_fn =>
      match menu_of_pointer (arg s) with
      | Some m => menu m w ticks
      | None => Undefined
      end
  | Some calibrate_fn => calibrate w ticks
  | Some display_config_fn => display_config (arg s) w ticks
  | Some set_contrast_fn => set_contrast w ticks
  | Some overtemp_fn => overtemp w ticks
  | Some splashscreen_fn => splashscreen w ticks
  end.

(** The body of the [while(1)] after the handler returned [new_state]:
    the new [state] and [main_state]. *)
Definition adopt (main_state new_state : state_func)
  : state_func * state_func :=
  let state :=
    match func new_state with
    | None => main_state
    | Some _ => new_state
    end in
  let main_state := if is_main_state state =? 0 then main_state else state in
  (state, main_state).

(** Where the task is when the trace or the iteration budget ends. *)
Inductive ui_outcome : Type :=
| Blocked (state main_state : state_func) (w : world)
| About_to_run (state main_state : state_func) (w : world) (ticks : list tick)
| Faulted.

Fixpoint vTaskUI_loop (iterations : nat) (state main_state : state_func)
  (w : world) (ticks : list tick) : ui_outcome :=
  match iterations with
  | O => About_to_run state main_state w ticks
  | S n =>
      match call state w ticks with
      | Ret new_state w' rest =>
          let '(state', main_state') := adopt main_state new_state in
          vTaskUI_loop n state' main_state' w' rest
      | Starved w' => Blocked state main_state w'
      | Undefined => Faulted
      end
  end.

(** [USE_SPLASHSCREEN] is defined unless [DEBUG] is. *)
Definition vTaskUI (debug : bool) (iterations : nat) (w : world)
  (ticks : list tick) : ui_outcome :=
  vTaskUI_loop iterations
    (if debug then STATE_CC_LOAD else STATE_SPLASHSCREEN) STATE_CC_LOAD
    w ticks.

(** *** Vocabulary of the properties *)

(** On tick [t], in world [w], [next_event] hands [e] to the screen: the
    queue yields it and the periodic tick is not yet due. *)
Definition delivers (w : world) (t : tick) (e : ui_event) : Prop :=
  rx t = Some e /\ now t <= last_tick w + configTICK_RATE_HZ / 10.

(** The same tick with another answer from the queue. *)
Definition with_rx (e : ui_event) (t : tick) : tick :=
  {| now := now t; rx := Some e; sensed_voltage := sensed_voltage t;
     sensed_current := sensed_current t; mode_write := mode_write t |}.

(** The same event as an UP_DOWN. *)
Definition as_updown (e : ui_event) : ui_event :=
  {| type := UI_EVENT_UPDOWN; when := when e; int_arg := int_arg e |}.

(** The step of one detent in the current range. *)
Definition range_step (w : world) : Z :=
  if current_range (state w) =? 0 then CURRENT_LOWRANGE_STEP
  else CURRENT_FULLRANGE_STEP.

(** The two calls [overtemp] makes after its loop. *)
Definition acknowledged (w : world) : world :=
  set_output_mode OUTPUT_MODE_FEEDBACK (set_current 0 w).

(** The calls that write the persisted store. *)
Definition persisted_write (e : effect) : bool :=
  match e with
  | E_EEPROM_Write_settings _
  | E_EEPROM_Write_contrast _
  | E_EEPROM_Write_readout _ _ => true
  | _ => false
  end.

Definition persisted_writes (log : list effect) : list effect :=
  filter persisted_write log.

(** Since world [w0] the persisted records were not written: they are as
    in [w0] and the calls made since include no write to the store. *)
Definition untouched (w0 w : world) : Prop :=
  settings w = settings w0 /\ cc_readouts w = cc_readouts w0
  /\ exists calls,
       effects w = effects w0 ++ calls /\ persisted_writes calls = [].

(** [i] is the first trim setting of the sweep whose residual is not
    positive. *)
Definition first_nonpositive (w : world) (i : Z) : Prop :=
  0 <= i < 32 /\ residual w i <= 0
  /\ forall j, 0 <= j < i -> 0 < residual w j.

(** [m] has [n >= 1] captioned items followed by the null caption. *)
Definition menu_ok (m : menudata) (n : Z) : Prop :=
  1 <= n
  /\ (forall i, 0 <= i < n ->
        exists it c, item_at m i = Some it /\ caption it = Some c)
  /\ (exists it, item_at m n = Some it /\ caption it = None).

End UI.

(** ** Sample worlds and traces *)

Module Samples.

Definition factory_settings : settings_t :=
  {| dac_low_gain := 186; dac_high_gain := 21157;
     dac_low_offset := 0; dac_high_offset := 0;
     opamp_offset_trim := DEFAULT_OPAMP_OFFSET_TRIM;
     adc_current_offset := -35; adc_current_gain := 599;
     adc_voltage_offset := 0; adc_voltage_gain := 2008;
     backlight_brightness := 63; lcd_contrast := 40 |}.

(** A bench where the residual falls by 100 counts per trim setting and
    crosses zero at setting [cross]. *)
Definition bench_adc (cross : Z) (i : Z) (ch : adc_channel) : Z :=
  match ch with
  | ADC_CHAN_CURRENT_SENSE => 100 * (cross - i)
  | _ => 0
  end.

Definition bench (cross : Z) : world :=
  {| state := {| current_setpoint := 0; current_range := 0 |};
     mode := OUTPUT_MODE_ON;
     settings := factory_settings;
     cc_readouts := [READOUT_CURRENT_SETPOINT; READOUT_CURRENT_USAGE;
                     READOUT_VOLTAGE];
     last_tick := 0;
     raw_voltage := 0;
     raw_current_usage := 0;
     adc := bench_adc cross;
     effects := [] |}.

(** A tick at time [at_] on which the queue yields [e], the sensors read 7
    and -3 counts and nobody touches the output mode. *)
Definition deliver (at_ : Z) (e : ui_event) : tick :=
  {| now := at_; rx := Some e; sensed_voltage := 7; sensed_current := -3;
     mode_write := None |}.

Definition button (at_ id : Z) : tick :=
  deliver at_ {| type := UI_EVENT_BUTTONPRESS; when := at_; int_arg := id |}.

Definition updown (at_ delta : Z) : tick :=
  deliver at_ {| type := UI_EVENT_UPDOWN; when := at_; int_arg := delta |}.

Definition overtemp_event (at_ : Z) : tick :=
  deliver at_ {| type := UI_EVENT_OVERTEMP; when := at_; int_arg := 0 |}.

(** A tick on which the queue times out. *)
Definition idle (at_ : Z) : tick :=
  {| now := at_; rx := None; sensed_voltage := 7; sensed_current := -3;
     mode_write := None |}.

(** A tick on which the queue times out and the output mode is set from
    outside the UI task. *)
Definition recovery (at_ : Z) (m : output_mode) : tick :=
  {| now := at_; rx := None; sensed_voltage := 7; sensed_current := -3;
     mode_write := Some m |}.

End Samples.

(** ** Button debounce *)

Module Button.

Section Ticks.
(** [portTickType] is unsigned; its width is fixed in [FreeRTOSConfig.h],
    which is not part of the sources: the modulus of the tick counter is a
    parameter. *)
Variable tick_modulus : Z.

(** [now - event.when] on [portTickType]. *)
Definition tick_sub (a b : Z) : Z := (a - b) mod tick_modulus.

(** [CY_ISR(button_press_isr)] on its function-static [event]; [read] is
    [QuadButton_Read()], [now] is [xTaskGetTickCountFromISR()].  The result
    is the static afterwards and the events handed to
    [xQueueSendToBackFromISR]. *)
Definition button_press_isr (read now : Z) (event : ui_event)
  : ui_event * list ui_event :=
  let event :=
    {| type := type event; when := when event; int_arg := read |} in
  if configTICK_RATE_HZ / 10 <? tick_sub now (when event) then
    let event :=
      {| type := type event; when := now; int_arg := int_arg event |} in
    (event, [event])
  else (event, []).

(** A train of button interrupts, each a pair of the pin value read and the
    tick count. *)
Fixpoint button_run (edges : list (Z * Z)) (event : ui_event)
  : ui_event * list ui_event :=
  match edges with
  | [] => (event, [])
  | (read, now) :: rest =>
      let '(event, sent) := button_press_isr read now event in
      let '(event, sent') := button_run rest event in
      (event, sent ++ sent')
  end.
End Ticks.

(** [static ui_event event = {.type = UI_EVENT_BUTTONPRESS, .when = 0};] *)
Definition isr_event_init : ui_event :=
  {| type := UI_EVENT_BUTTONPRESS; when := 0; int_arg := 0 |}.

End Button.

(** ** Vocabulary of the further properties *)

Module Facts.

(** The detents carried by a list of events. *)
Definition detents (sent : list ui_event) : Z :=
  fold_right (fun e acc => int_arg e + acc) 0 sent.

(** An event the decoder can send: one detent up or down. *)
Definition one_detent (e : ui_event) : Prop :=
  type e = UI_EVENT_UPDOWN /\ (int_arg e = 1 \/ int_arg e = -1).

(** The fields of the settings record no step of the wizard assigns. *)
Definition same_uncalibrated (a b : settings_t) : Prop :=
  dac_low_gain a = dac_low_gain b
  /\ dac_high_gain a = dac_high_gain b
  /\ dac_low_offset a = dac_low_offset b
  /\ dac_high_offset a = dac_high_offset b
  /\ adc_current_gain a = adc_current_gain b
  /\ backlight_brightness a = backlight_brightness b
  /\ lcd_contrast a = lcd_contrast b.

(** The descriptors the program text contains. *)
Definition known_state (s : state_func) : Prop :=
  In s [STATE_CC_LOAD; STATE_MAIN_MENU; STATE_OVERTEMP;
        STATE_CONFIGURE_CC_DISPLAY; STATE_SET_CONTRAST; STATE_CALIBRATE;
        STATE_SPLASHSCREEN].

(** The calls [E_opamp_trim 0 .. E_opamp_trim (k - 1)]. *)
Definition trims (k : nat) : list effect :=
  map (fun i => E_opamp_trim (Z.of_nat i)) (seq 0 k).

(** Nothing but the sensors, the output mode and the tick mark differs
    between two worlds, and no call was made. *)
Definition only_waited (w0 w : world) : Prop :=
  state w = state w0 /\ settings w = settings w0
  /\ cc_readouts w = cc_readouts w0 /\ effects w = effects w0.

(** Since [w0] only [set_current] was called. *)
Definition only_set_current (w0 w : world) : Prop :=
  settings w = settings w0 /\ cc_readouts w = cc_readouts w0
  /\ exists calls,
       effects w = effects w0 ++ calls
       /\ Forall (fun e => exists z, e = E_set_current z) calls.

End Facts.

(** ** Vocabulary of the screen properties *)

Module ScreenFacts.

(** Calls that show a contrast between 0 and 63. *)
Definition shows_contrast (e : effect) : Prop :=
  exists z, e = E_Display_SetContrast z /\ 0 <= z <= 63.

(** [c] is the contrast on the display after [calls], [init] being the one
    stored when the editor opened. *)
Definition contrast_shown (init c : Z) (calls : list effect) : Prop :=
  (calls = [] /\ c = init)
  \/ (exists before, calls = before ++ [E_Display_SetContrast c]).

(** [r] is the descriptor of one of the captioned items of [m]. *)
Definition picks (m : menudata) (n : Z) (r : state_func) : Prop :=
  exists i it c,
    0 <= i <= n - 1 /\ UI.item_at m i = Some it /\ caption it = Some c
    /\ r = new_state it.

End ScreenFacts.

(** ** Drawing: [draw_menu] and [draw_status] *)

Module Drawing.

Import Formatter.

(** The calls on the display driver, with the arguments as computed. *)
Inductive display_call : Type :=
| Display_Clear (r0 c0 r1 c1 fill : Z)
| Display_DrawText (row col : Z) (text : string) (inverted : Z)
| Display_DrawBigNumbers (row col : Z) (text : string).

Definition strlen (s : string) : Z := Z.of_nat (String.length s).

(** [size_t] arithmetic on this 32-bit target, and a store into a
    [uint8]. *)
Definition to_size_t (z : Z) : Z := z mod 2 ^ 32.
Definition to_uint8 (z : Z) : Z := z mod 256.

(** A C truth value. *)
Definition c_bool (b : bool) : Z := if b then 1 else 0.

(** [strchr(buf, '.') == NULL], negated. *)
Fixpoint has_dot (s : string) : bool :=
  match s with
  | EmptyString => false
  | String c rest => Ascii.eqb c "."%char || has_dot rest
  end.

(** A string written into [char buf[8]]: seven characters and the NUL fit,
    more is a write past the buffer. *)
Definition into_buf (s : string) : option string :=
  if (String.length s <=? 7)%nat then Some s else None.

(** The print functions a readout can point to. *)
Inductive printer : Type :=
| print_nothing_fn
| print_setpoint_fn
| print_current_usage_fn
| print_voltage_fn
| print_power_fn
| print_resistance_fn.

Definition printer_eqb (a b : printer) : bool :=
  match a, b with
  | print_nothing_fn, print_nothing_fn
  | print_setpoint_fn, print_setpoint_fn
  | print_current_usage_fn, print_current_usage_fn
  | print_voltage_fn, print_voltage_fn
  | print_power_fn, print_power_fn
  | print_resistance_fn, print_resistance_fn => true
  | _, _ => false
  end.

(** [readout_function_impl]; [func = None] is the null function pointer. *)
Record readout_function_impl : Type := mk_impl {
  func : option printer;
  label : string
}.

(** [const readout_function_impl readout_functions[]] *)
Definition readout_functions : list readout_function_impl :=
  [ mk_impl None "";
    mk_impl (Some print_setpoint_fn) "SET";
    mk_impl (Some print_current_usage_fn) "ACT";
    mk_impl (Some print_voltage_fn) "";
    mk_impl (Some print_power_fn) "";
    mk_impl (Some print_resistance_fn) "" ].

Definition readout_at (kind : Z) : option readout_function_impl :=
  if kind <? 0 then None else nth_error readout_functions (Z.to_nat kind).

(** What the control facade returns while one status is drawn.  The
    getters are declared in [config.h] and defined outside the sources. *)
Record readings : Type := mk_readings {
  get_current_setpoint : Z;
  get_current_usage : Z;
  get_voltage : Z
}.

Section Glyphs.
(** [Display_font.h] is not part of the sources: the glyph strings and the
    macro taking a glyph's character are parameters. *)
Variable FONT_GLYPH_OHM : string.
Variable GLYPH_CHAR : string -> ascii.
Variable FONT_GLYPH_UARR : string.
Variable FONT_GLYPH_DARR : string.

(** Calling a print function on [buf]: the content of [buf] afterwards,
    [None] when the call is not defined. *)
Definition print (p : printer) (r : readings) : option string :=
  match p with
  | print_nothing_fn => Some "      "%string
  | print_setpoint_fn =>
      Some (format_number (get_current_setpoint r) "A"%char)
  | print_current_usage_fn =>
      Some (format_number (get_current_usage r) "A"%char)
  | print_voltage_fn => Some (format_number (get_voltage r) "V"%char)
  | print_power_fn =>
      Some (Readouts.print_power (get_current_usage r) (get_voltage r))
  | print_resistance_fn =>
      Readouts.print_resistance FONT_GLYPH_OHM GLYPH_CHAR
        (get_current_usage r) (get_voltage r)
  end.

(** [readout->func(buf)] through the table entry: a null [func] cannot be
    called. *)
Definition call_readout (readout : readout_function_impl) (r : readings)
  : option string :=
  match func readout with
  | None => None
  | Some p =>
      match print p r with
      | None => None
      | Some text => into_buf text
      end
  end.

(** One of the two smaller displays of [draw_status], [i] being 0 or 1. *)
Definition draw_small (config : list Z) (r : readings) (i : nat)
  : option display_call :=
  match nth_error config (S i) with
  | None => None
  | Some kind =>
      match readout_at kind with
      | None => None
      | Some readout =>
          match call_readout readout r with
          | None => None
          | Some buf =>
              match (if strlen buf =? 5 then into_buf (buf ++ " ")
                     else Some buf) with
              | None => None
              | Some buf =>
                  Some (Display_DrawText 6 (88 * Z.of_nat i) buf 0)
              end
          end
      end
  end.

(** [draw_status]; [config] is [config->readouts].  The result lists the
    display calls made; [None] when the function leaves defined
    behaviour. *)
Definition draw_status (config : list Z) (r : readings)
  : option (list display_call) :=
  match nth_error config 0 with
  | None => None
  | Some kind =>
      match readout_at kind with
      | None => None
      | Some readout =>
          let main :=
            match func readout with
            | Some print_nothing_fn =>
                Some [Display_Clear 0 0 6 120 0; Display_Clear 4 120 6 160 0]
            | _ =>
                match call_readout readout r with
                | None => None
                | Some buf =>
                    match into_buf (buf ++ " ") with
                    | None => None
                    | Some buf =>
                        Some (Display_DrawBigNumbers 0 0 buf
                              :: if has_dot buf then []
                                 else [Display_Clear 0 108 4 120 0])
                    end
                end
            end in
          let labelsize := to_uint8 (strlen (label readout) * 12) in
          let type_label :=
            Display_DrawText 0 (160 - labelsize) (label readout) 1
            :: if labelsize <? 36
               then [Display_Clear 0 124 2 (160 - labelsize) 0]
               else [] in
          match main, draw_small config r 0, draw_small config r 1 with
          | Some main, Some small0, Some small1 =>
              Some (main ++ type_label ++ [small0; small1])
          | _, _, _ => None
          end
      end
  end.

(** The [for] loop of [draw_menu]: [k] rows remain, [i] is the row,
    [current] the index of the item pointed to.  The calls made and the
    final [current]; [None] when an item outside [items] is read. *)
Fixpoint draw_rows (m : menudata) (start_row selected : Z) (k : nat)
  (i current : Z) : option (list display_call * Z) :=
  match k with
  | O => Some ([], current)
  | S k' =>
      match UI.item_at m current with
      | None => None
      | Some it =>
          match caption it with
          | Some text =>
              match draw_rows m start_row selected k' (i + 1) (current + 1)
              with
              | None => None
              | Some (calls, final) =>
                  Some (Display_DrawText ((i + start_row) * 2) 0 text
                          (c_bool (i =? selected))
                        :: Display_Clear ((i + start_row) * 2)
                             (strlen text * 12) ((i + start_row + 1) * 2) 142
                             (c_bool (i =? selected) * 255)
                        :: calls, final)
              end
          | None =>
              match draw_rows m start_row selected k' (i + 1) current with
              | None => None
              | Some (calls, final) =>
                  Some (Display_Clear ((i + start_row) * 2) 0
                          ((i + start_row + 1) * 2) 160 0
                        :: calls, final)
              end
          end
      end
  end.

(** [draw_menu] *)
Definition draw_menu (m : menudata) (selected : Z)
  : option (list display_call) :=
  let '(banner, start_row, height) :=
    match title m with
    | Some text =>
        let padding :=
          Quadrature.to_int8 (to_size_t (160 - strlen text * 12) / 2) in
        ([Display_Clear 0 0 2 padding 255;
          Display_DrawText 0 padding text 1;
          Display_Clear 0 (160 - padding) 2 160 255], 1, 3)
    | None => ([], 0, 4)
    end in
  let up :=
    Display_DrawText (start_row * 2) 148
      (if 0 <? Z.quot selected height then FONT_GLYPH_UARR else " "%string)
      0 in
  let current := selected - Z.rem selected height in
  let selected := Z.rem selected height in
  match draw_rows m start_row selected (Z.to_nat height) 0 current with
  | None => None
  | Some (rows, final) =>
      match UI.item_at m final with
      | None => None
      | Some it =>
          let down :=
            match caption it with
            | Some _ => Display_DrawText 6 148 FONT_GLYPH_DARR 0
            | None => Display_DrawText 6 148 " "%string 0
            end in
          Some (banner ++ [up] ++ rows ++ [down])
      end
  end.
End Glyphs.

(** The row numbers [i, i+1, ..] of [k] rows. *)
Fixpoint rows_from (i : Z) (k : nat) : list Z :=
  match k with
  | O => []
  | S k' => i :: rows_from (i + 1) k'
  end.

(** Row [i] of a page that starts at item [base], as [draw_menu] draws it
    for a menu whose captioned items are [0 .. n-1]: the item's caption,
    inverted on the selected row, or a blank row past the last item. *)
Definition row_calls (m : menudata) (n start_row selected base : Z) (i : Z)
  : list display_call :=
  if base + i <? n then
    match UI.item_at m (base + i) with
    | Some it =>
        match caption it with
        | Some text =>
            [Display_DrawText ((i + start_row) * 2) 0 text
               (c_bool (i =? selected));
             Display_Clear ((i + start_row) * 2) (strlen text * 12)
               ((i + start_row + 1) * 2) 142 (c_bool (i =? selected) * 255)]
        | None => []
        end
    | None => []
    end
  else
    [Display_Clear ((i + start_row) * 2) 0 ((i + start_row + 1) * 2) 160 0].

End Drawing.

(** ** The home rule, in the specification's words *)

Module Home.

(** The descriptors the handlers returned in the first [iterations] passes
    of the loop of [vTaskUI], in order; the list is shorter when a handler
    does not return. *)
Fixpoint vTaskUI_returns (iterations : nat) (state main_state : state_func)
  (w : world) (ticks : list tick) : list state_func :=
  match iterations with
  | O => []
  | S n =>
      match UI.call state w ticks with
      | Ret new_state w' rest =>
          let '(state', main_state') := UI.adopt main_state new_state in
          new_state :: vTaskUI_returns n state' main_state' w' rest
      | _ => []
      end
  end.

(** The world and the unread ticks the last of those passes left. *)
Fixpoint vTaskUI_left (iterations : nat) (state main_state : state_func)
  (w : world) (ticks : list tick) : world * list tick :=
  match iterations with
  | O => (w, ticks)
  | S n =>
      match UI.call state w ticks with
      | Ret new_state w' rest =>
          let '(state', main_state') := UI.adopt main_state new_state in
          vTaskUI_left n state' main_state' w' rest
      | _ => (w, ticks)
      end
  end.

(** A returned descriptor that is recorded as main state: not the
    sentinel, and with [is_main_state] set. *)
Definition records_main (r : state_func) : bool :=
  match func r with
  | None => false
  | Some _ => negb (is_main_state r =? 0)
  end.

(** The most recently recorded main state after [returns]: the last
    returned descriptor that was recorded, the initial one if there is
    none. *)
Definition recorded_main (main_state : state_func)
  (returns : list state_func) : state_func :=
  last (filter records_main returns) main_state.

(** The descriptor the next pass runs after [returns]: the recorded main
    state if the last return was the sentinel, else the last return. *)
Definition runs_next (state main_state : state_func)
  (returns : list state_func) : state_func :=
  match returns with
  | [] => state
  | _ :: _ =>
      match func (last returns state) with
      | None => recorded_main main_state returns
      | Some _ => last returns state
      end
  end.

End Home.

(** ** The knob, in closed form *)

Module Knob.

(** The deltas a list of ticks brings: the [int_arg] of what the queue
    yields on each. *)
Definition knob_deltas (ticks : list tick) : list Z :=
  map (fun t => match rx t with
                | Some e => int_arg e
                | None => 0
                end) ticks.

(** The world after the environment moved through [ticks] while the task
    only waited. *)
Definition waited (w : world) (ticks : list tick) : world :=
  fold_left (fun w t => environment t w) ticks w.

(** A contrast brought into [[0, 63]]. *)
Definition clamp_contrast (c : Z) : Z := Z.max 0 (Z.min 63 c).

(** The contrast of the editor after the knob moved by [deltas]. *)
Definition contrast_after (init : Z) (deltas : list Z) : Z :=
  fold_left (fun c d => clamp_contrast (c + d)) deltas init.

(** The contrasts sent to the display meanwhile, one per delta. *)
Fixpoint contrasts_shown (init : Z) (deltas : list Z) : list Z :=
  match deltas with
  | [] => []
  | d :: rest =>
      clamp_contrast (init + d)
      :: contrasts_shown (clamp_contrast (init + d)) rest
  end.

(** The voltage gain after the knob moved by [deltas]: each delta adds
    [gain * delta / 500], truncated toward zero. *)
Definition scaled_gain (gain : Z) (deltas : list Z) : Z :=
  fold_left (fun g d => g + Z.quot (g * d) 500) deltas gain.

(** The readout kind carried by item [j] of the readout menu. *)
Definition kind_of_item (j : Z) : option Z :=
  match UI.item_at set_readout_menu j with
  | Some it =>
      match caption it with
      | Some _ => int_of_pointer (arg (new_state it))
      | None => None
      end
  | None => None
  end.

End Knob.

(** ** [next_event] on the wrapping tick counter *)

Module Wrapping.

Section Ticks.
(** The modulus of [portTickType], as in [Button].  The sum and the
    difference below wrap at it when the tick type is as wide as [int],
    which is the case where the counter has 32 bits. *)
Variable tick_modulus : Z.

(** [last_tick + configTICK_RATE_HZ / 10] on [portTickType]. *)
Definition tick_add (a b : Z) : Z := (a + b) mod tick_modulus.

(** [now - last_tick] on [portTickType]. *)
Definition elapsed (now last_tick : Z) : Z :=
  Button.tick_sub tick_modulus now last_tick.

(** The block time handed to [xQueueReceive]:
    [configTICK_RATE_HZ / 10 - (now - last_tick)] on [portTickType]. *)
Definition block_time (now last_tick : Z) : Z :=
  Button.tick_sub tick_modulus (configTICK_RATE_HZ / 10)
    (elapsed now last_tick).

(** [next_event] with the comparison made on [portTickType]. *)
Definition next_event (t : tick) (event : ui_event) (w : world)
  : ui_event * world :=
  let w := environment t w in
  let tick_due :=
    tick_add (last_tick w) (configTICK_RATE_HZ / 10) <? now t in
  match (if tick_due then None else rx t) with
  | None =>
      ({| type := UI_EVENT_ADC_READING; when := now t;
          int_arg := int_arg event |},
       with_last_tick (now t) w)
  | Some received => (received, w)
  end.
End Ticks.

End Wrapping.

(** ** The CC-load screen with its redraw *)

Module Redraw.

Section Facade.
(** The getters of the control facade are declared in [config.h] and
    defined outside the sources: what they return when the status is drawn
    is a parameter, a function of the world at that point.  So are the
    glyphs of [Display_font.h]. *)
Variable getters : world -> Drawing.readings.
Variable FONT_GLYPH_OHM : string.
Variable GLYPH_CHAR : string -> ascii.

(** [draw_status(&display_settings.cc)] at the end of a pass: the loop goes
    on if the call is defined. *)
Definition redraw (event : ui_event) (w : world)
  : step_out ui_event state_func :=
  match Drawing.draw_status FONT_GLYPH_OHM GLYPH_CHAR (cc_readouts w)
          (getters w) with
  | Some _ => Continue event w
  | None => Crash
  end.

(** One pass of the [while(1)] of [cc_load]: [next_event], the [switch],
    then [draw_status] on the passes that do not return. *)
Definition cc_load_body (t : tick) (event : ui_event) (w : world)
  : step_out ui_event state_func :=
  let '(event, w) := next_event t event w in
  match type event with
  | UI_EVENT_BUTTONPRESS =>
      if int_arg event =? 1 then Break STATE_MAIN_MENU w
      else redraw event (adjust_current_setpoint (int_arg event) w)
  | UI_EVENT_UPDOWN =>
      redraw event (adjust_current_setpoint (int_arg event) w)
  | UI_EVENT_OVERTEMP => Break STATE_OVERTEMP w
  | _ => redraw event w
  end.

Definition cc_load (w : world) (ticks : list tick) : result state_func :=
  run_loop cc_load_body UI.fresh_event w ticks.

(** [state.func(state.arg)], the CC-load screen being the one above. *)
Definition call (s : state_func) (w : world) (ticks : list tick)
  : result state_func :=
  match func s with
  | Some cc_load_fn => cc_load w ticks
  | _ => UI.call s w ticks
  end.

Fixpoint vTaskUI_loop (iterations : nat) (state main_state : state_func)
  (w : world) (ticks : list tick) : UI.ui_outcome :=
  match iterations with
  | O => UI.About_to_run state main_state w ticks
  | S n =>
      match call state w ticks with
      | Ret new_state w' rest =>
          let '(state', main_state') := UI.adopt main_state new_state in
          vTaskUI_loop n state' main_state' w' rest
      | Starved w' => UI.Blocked state main_state w'
      | Undefined => UI.Faulted
      end
  end.

Definition vTaskUI (debug : bool) (iterations : nat) (w : world)
  (ticks : list tick) : UI.ui_outcome :=
  vTaskUI_loop iterations
    (if debug then STATE_CC_LOAD else STATE_SPLASHSCREEN) STATE_CC_LOAD
    w ticks.
End Facade.


(** A display configuration of three readouts, one of them of kind
    [kind]. *)
Definition has_kind (kind : Z) (config : list Z) : Prop :=
  exists a b c, config = [a; b; c] /\ (a = kind \/ b = kind \/ c = kind).

(** Modelled from the spec: the getters are declared in [config.h] and
    defined outside the sources.  The specification: the setpoint is the
    one of the live state; current and voltage are the raw readings less
    their offsets, times their gains. *)
Definition spec_getters (w : world) : Drawing.readings :=
  {| Drawing.get_current_setpoint := current_setpoint (state w);
     Drawing.get_current_usage :=
       (raw_current_usage w - adc_current_offset (settings w))
       * adc_current_gain (settings w);
     Drawing.get_voltage :=
       (raw_voltage w - adc_voltage_offset (settings w))
       * adc_voltage_gain (settings w) |}.

End Redraw.

(** * Properties *)

(** ** Quadrature decoder *)

Section QuadratureFacts.
Import Quadrature.

Lemma isr_init_inv : isr_inv isr_init.
Proof. unfold isr_inv; simpl; lia. Qed.

Lemma to_int8_small (z : Z) : -128 <= z < 128 -> to_int8 z = z.
Proof.
  intros Hz. unfold to_int8.
  rewrite Z.mod_small by lia. lia.
Qed.

Lemma edge_count (levels : Z) (s s1 : isr_state) :
  isr_inv s -> 0 <= levels <= 3 -> edge levels s = Some s1 ->
  0 <= last_levels s1 <= 3 /\ -5 < count s1 < 5.
Proof.
  intros [Hl Hc] Hlv.
  assert (Hcases : levels = 0 \/ levels = 1 \/ levels = 2 \/ levels = 3) by lia.
  assert (Hlast : last_levels s = 0 \/ last_levels s = 1
                  \/ last_levels s = 2 \/ last_levels s = 3) by lia.
  destruct s as [l c]; simpl in *.
  unfold edge; simpl.
  destruct Hlast as [-> | [-> | [-> | ->]]];
    destruct Hcases as [-> | [-> | [-> | ->]]]; simpl;
    intros E; inversion E; subst; clear E; simpl;
    rewrite ?to_int8_small by lia; lia.
Qed.

Lemma flush_inv (now_ : Z) (s : isr_state) :
  0 <= last_levels s <= 3 -> -5 < count s < 5 -> isr_inv (fst (flush now_ s)).
Proof.
  intros Hl Hc. unfold flush, isr_inv.
  destruct (4 <=? Z.abs (count s)) eqn:E; simpl.
  - apply Z.leb_le in E.
    assert (Hc4 : count s = 4 \/ count s = -4) by lia.
    destruct Hc4 as [-> | ->]; simpl; unfold to_int8; simpl; lia.
  - apply Z.leb_gt in E. lia.
Qed.

(** Every interrupt on a two-bit reading is defined and restores the
    invariant. *)
Lemma isr_preserves_inv (levels now_ : Z) (s : isr_state) :
  isr_inv s -> 0 <= levels <= 3 ->
  exists s' sent,
    quadrature_event_isr levels now_ s = Some (s', sent) /\ isr_inv s'.
Proof.
  intros Hs Hlv. unfold quadrature_event_isr.
  destruct (edge levels s) as [s1|] eqn:E.
  - destruct (edge_count _ _ _ Hs Hlv E) as [H1 H2].
    exists (fst (flush now_ s1)), (snd (flush now_ s1)).
    split; [now destruct (flush now_ s1) | now apply flush_inv].
  - exfalso. destruct Hs as [Hl Hc].
    assert (Hcases : levels = 0 \/ levels = 1 \/ levels = 2 \/ levels = 3) by lia.
    assert (Hlast : last_levels s = 0 \/ last_levels s = 1
                    \/ last_levels s = 2 \/ last_levels s = 3) by lia.
    unfold edge in E.
    destruct Hlast as [R | [R | [R | R]]]; rewrite R in E;
      destruct Hcases as [-> | [-> | [-> | ->]]]; simpl in E; discriminate.
Qed.
End QuadratureFacts.

(** C4, as stated, fails.  From [last_levels = 1] with [count = -1] (the
    state the decoder is in after its first interrupt reads 1) the forward
    cycle 1, 3, 2, 0, 1 sends no event at all; the same holds when the five
    readings 1, 3, 2, 0, 1 are fed to the decoder in its initial state. *)
Lemma forward_cycle_without_event :
  Quadrature.quadrature_event_isr 1 10 Quadrature.isr_init
    = Some (Quadrature.mk_isr 1 (-1), [])
  /\ Quadrature.isr_run [(3, 11); (2, 12); (0, 13); (1, 14)]
       (Quadrature.mk_isr 1 (-1))
     = Some (Quadrature.mk_isr 1 3, [])
  /\ Quadrature.isr_run [(1, 10); (3, 11); (2, 12); (0, 13); (1, 14)]
       Quadrature.isr_init
     = Some (Quadrature.mk_isr 1 3, [])
  /\ ~ (exists (s : Quadrature.isr_state) (e : ui_event),
         Quadrature.isr_run [(3, 11); (2, 12); (0, 13); (1, 14)]
           (Quadrature.mk_isr 1 (-1)) = Some (s, [e])).
Proof.
  repeat split; try reflexivity.
  intros (s & e & H). vm_compute in H. discriminate.
Qed.

(** C4, amended.  With [last_levels = 1] and an accumulator [0 <= count < 4],
    the four edges of the forward cycle 1 -> 3 -> 2 -> 0 -> 1 send exactly
    one UP_DOWN event, with [int_arg = 1], and leave the accumulator at its
    starting value.  For one interrupt in general: an event is sent only if
    the updated accumulator [c] has [|c| >= 4]; it is then the single event
    UP_DOWN with [int_arg = c / 4], and [c % 4] is kept. *)
Theorem forward_cycle_one_detent :
  (forall c t1 t2 t3 t4,
      0 <= c < 4 ->
      exists t,
        Quadrature.isr_run [(3, t1); (2, t2); (0, t3); (1, t4)]
          (Quadrature.mk_isr 1 c)
        = Some (Quadrature.mk_isr 1 c,
                [ {| type := UI_EVENT_UPDOWN; when := t; int_arg := 1 |} ]))
  /\ (forall levels t s s' sent,
         Quadrature.quadrature_event_isr levels t s = Some (s', sent) ->
         exists s1,
           Quadrature.edge levels s = Some s1
           /\ (Z.abs (Quadrature.count s1) < 4 -> sent = [] /\ s' = s1)
           /\ (4 <= Z.abs (Quadrature.count s1) ->
               sent = [ {| type := UI_EVENT_UPDOWN; when := t;
                           int_arg := Z.quot (Quadrature.count s1) 4 |} ]
               /\ Quadrature.count s'
                  = Quadrature.to_int8 (Z.rem (Quadrature.count s1) 4)
               /\ Quadrature.last_levels s' = Quadrature.last_levels s1)).
Proof.
  split.
  - intros c t1 t2 t3 t4 Hc.
    assert (Hcases : c = 0 \/ c = 1 \/ c = 2 \/ c = 3) by lia.
    destruct Hcases as [-> | [-> | [-> | ->]]].
    + exists t4. reflexivity.
    + exists t3. reflexivity.
    + exists t2. reflexivity.
    + exists t1. reflexivity.
  - intros levels t s s' sent H.
    unfold Quadrature.quadrature_event_isr in H.
    destruct (Quadrature.edge levels s) as [s1|]; [|discriminate].
    exists s1. split; [reflexivity|].
    unfold Quadrature.flush in H.
    destruct (4 <=? Z.abs (Quadrature.count s1)) eqn:E;
      inversion H; subst; clear H.
    + apply Z.leb_le in E. split; [lia|]. intros _. simpl. auto.
    + apply Z.leb_gt in E. split; [auto | lia].
Qed.

Lemma forward_cycle_one_detent_witness :
  exists t,
    Quadrature.isr_run [(3, 11); (2, 12); (0, 13); (1, 14)]
      (Quadrature.mk_isr 1 2)
    = Some (Quadrature.mk_isr 1 2,
            [ {| type := UI_EVENT_UPDOWN; when := t; int_arg := 1 |} ]).
Proof.
  apply (proj1 forward_cycle_one_detent 2 11 12 13 14). lia.
Defined.

(** ** Formatter *)

Section FormatterFacts.
Import Formatter.

Lemma length_append_string (a b : string) :
  String.length (a ++ b) = (String.length a + String.length b)%nat.
Proof. induction a as [|c a IH]; simpl; [reflexivity | now rewrite IH]. Qed.

(** A boolean property checked on [0 .. N-1] holds below [N]. *)
Lemma checked_below (P : Z -> bool) (N : nat) :
  forallb (fun k => P (Z.of_nat k)) (seq 0 N) = true ->
  forall n, 0 <= n < Z.of_nat N -> P n = true.
Proof.
  intros Hall n Hn.
  rewrite forallb_forall in Hall.
  rewrite <- (Z2Nat.id n) by lia.
  apply Hall, in_seq. lia.
Qed.

Lemma sprintf_d_widths (n : Z) :
  0 <= n < 1000 ->
  String.length (sprintf_d false 1 n)
    = (if n <? 10 then 1%nat else if n <? 100 then 2%nat else 3%nat)
  /\ String.length (sprintf_d true 2 n) = (if n <? 100 then 2%nat else 3%nat)
  /\ String.length (sprintf_d true 3 n) = 3%nat.
Proof.
  intros Hn.
  pose (P := fun n =>
    Nat.eqb (String.length (sprintf_d false 1 n))
            (if n <? 10 then 1%nat else if n <? 100 then 2%nat else 3%nat)
    && Nat.eqb (String.length (sprintf_d true 2 n))
               (if n <? 100 then 2%nat else 3%nat)
    && Nat.eqb (String.length (sprintf_d true 3 n)) 3).
  assert (HP : P n = true).
  { apply (checked_below P 1000); [vm_compute; reflexivity | exact Hn]. }
  unfold P in HP.
  apply andb_prop in HP. destruct HP as [HP H3].
  apply andb_prop in HP. destruct HP as [H1 H2].
  apply Nat.eqb_eq in H1, H2, H3. auto.
Qed.

Lemma log2_quot_1000 (num : Z) :
  1000000 <= num -> Z.log2 (Z.quot num 1000) < Z.log2 num.
Proof.
  intros H.
  rewrite Z.quot_div_nonneg by lia.
  assert (Hle : num / 1000 <= Z.shiftr num 1).
  { rewrite Z.shiftr_div_pow2 by lia. change (2 ^ 1) with 2.
    apply Z.div_le_lower_bound; [lia|].
    pose proof (Z.mul_div_le num 2 ltac:(lia)).
    pose proof (Z.mul_div_le num 1000 ltac:(lia)).
    pose proof (Z.mod_pos_bound num 2 ltac:(lia)).
    pose proof (Z.div_mod num 2 ltac:(lia)).
    pose proof (Z.div_mod num 1000 ltac:(lia)).
    pose proof (Z.mod_pos_bound num 1000 ltac:(lia)).
    lia. }
  apply Z.log2_le_mono in Hle.
  rewrite Z.log2_shiftr in Hle by lia.
  pose proof (Z.log2_le_mono 1000000 num H) as Hbig.
  change (Z.log2 1000000) with 19 in Hbig.
  lia.
Qed.

(** The loop runs to its exit: with the fuel [format_number] gives it,
    the value left is non-negative and below one million. *)
Lemma scale_exits (fuel : nat) (num magnitude : Z) :
  0 <= num -> Z.log2 num <= Z.of_nat fuel ->
  0 <= fst (scale fuel num magnitude) < 1000000.
Proof.
  revert num magnitude.
  induction fuel as [|fuel IH]; intros num magnitude Hnum Hlog; simpl.
  - assert (Hz : Z.log2 num = 0) by (pose proof (Z.log2_nonneg num); lia).
    apply Z.log2_null in Hz. lia.
  - destruct (1000000 <=? num) eqn:E.
    + apply Z.leb_le in E.
      apply IH.
      * apply Z.quot_pos; lia.
      * pose proof (log2_quot_1000 num E). lia.
    + apply Z.leb_gt in E. simpl. lia.
Qed.

Lemma scaled_range (num : Z) : 0 <= scaled num < 1000000.
Proof.
  unfold scaled.
  destruct (num <? 0) eqn:E.
  - simpl. lia.
  - apply Z.ltb_ge in E.
    apply scale_exits; [lia|].
    rewrite Z2Nat.id by apply Z.log2_nonneg. lia.
Qed.

Lemma whole_part_range (num : Z) : 0 <= whole_part num < 1000.
Proof.
  unfold whole_part. pose proof (scaled_range num) as H.
  rewrite Z.quot_div_nonneg by lia.
  split; [apply Z.div_pos; lia | apply Z.div_lt_upper_bound; lia].
Qed.

Lemma c_string_suffix (a b : ascii) :
  a <> zero -> b <> zero ->
  String.length (c_string [a; b; zero]) = 2%nat.
Proof.
  intros Ha Hb. simpl.
  destruct (Ascii.eqb a zero) eqn:Ea; [apply Ascii.eqb_eq in Ea; contradiction|].
  destruct (Ascii.eqb b zero) eqn:Eb; [apply Ascii.eqb_eq in Eb; contradiction|].
  reflexivity.
Qed.
End FormatterFacts.

(** C2, as stated, fails: 100 000 micro-units is rendered as the five
    characters of "100mA". *)
Lemma format_number_five_characters :
  Formatter.format_number 100000 "A"%char = "100mA"%string
  /\ String.length (Formatter.format_number 100000 "A"%char) <> 6%nat.
Proof. split; [reflexivity | vm_compute; discriminate]. Qed.

(** C2, amended.  For every non-negative [v] and every suffix character
    other than NUL, [format_number v s] has exactly 6 characters when the
    whole part left by the scaling loop is below 100 (layouts [d.dd] and
    [dd.d]) and exactly 5 characters when it is 100 to 999 (layout [ddd],
    to which no space is added); the whole part is always below 1000. *)
Theorem format_number_length (v : Z) (s : ascii) :
  0 <= v -> s <> zero ->
  0 <= Formatter.whole_part v < 1000
  /\ String.length (Formatter.format_number v s)
     = (if Formatter.whole_part v <? 100 then 6%nat else 5%nat).
Proof.
  intros Hv Hs.
  pose proof (whole_part_range v) as Hw.
  split; [exact Hw|].
  pose proof (scaled_range v) as Hsc.
  unfold Formatter.whole_part, Formatter.scaled in *.
  unfold Formatter.format_number.
  set (n0 := if v <? 0 then 0 else v) in *.
  destruct (Formatter.scale (Z.to_nat (Z.log2 n0)) n0 1) as [num magnitude].
  simpl fst in *.
  set (whole := Z.quot num 1000) in *.
  assert (Hrem : 0 <= Z.rem num 1000 < 1000).
  { rewrite Z.rem_mod_nonneg by lia. apply Z.mod_pos_bound. lia. }
  assert (Hr10 : 0 <= Z.quot (Z.rem num 1000) 10 < 100).
  { rewrite Z.quot_div_nonneg by lia.
    split; [apply Z.div_pos; lia | apply Z.div_lt_upper_bound; lia]. }
  assert (Hr100 : 0 <= Z.quot (Z.rem num 1000) 100 < 10).
  { rewrite Z.quot_div_nonneg by lia.
    split; [apply Z.div_pos; lia | apply Z.div_lt_upper_bound; lia]. }
  assert (Hm : forall out, String.length
            (if magnitude =? 1 then Formatter.strcat out ["m"%char; s; zero]
             else Formatter.strcat out [s; " "%char; zero])
          = (String.length out + 2)%nat).
  { intros out. unfold Formatter.strcat.
    destruct (magnitude =? 1); rewrite length_append_string, c_string_suffix;
      auto; discriminate. }
  rewrite Hm.
  destruct (sprintf_d_widths whole Hw) as (W1 & W2 & W3).
  destruct (sprintf_d_widths (Z.quot (Z.rem num 1000) 10) ltac:(lia))
    as (_ & R2 & _).
  destruct (sprintf_d_widths (Z.quot (Z.rem num 1000) 100) ltac:(lia))
    as (R1 & _ & _).
  clearbody whole.
  destruct (whole <? 10) eqn:E10; destruct (whole <? 100) eqn:E100;
    try apply Z.ltb_lt in E10; try apply Z.ltb_ge in E10;
    try apply Z.ltb_lt in E100; try apply Z.ltb_ge in E100; try lia.
  - rewrite !length_append_string, W1, R2.
    assert (Hq : (Z.quot (Z.rem num 1000) 10 <? 100) = true)
      by (apply Z.ltb_lt; lia).
    rewrite Hq. reflexivity.
  - rewrite !length_append_string, W2, R1.
    assert (Hq : (Z.quot (Z.rem num 1000) 100 <? 10) = true)
      by (apply Z.ltb_lt; lia).
    rewrite Hq. reflexivity.
Qed.

Lemma format_number_length_witness :
  0 <= Formatter.whole_part 2147483647 < 1000
  /\ String.length (Formatter.format_number 2147483647 "V"%char)
     = (if Formatter.whole_part 2147483647 <? 100 then 6%nat else 5%nat).
Proof.
  apply (format_number_length 2147483647 "V"%char); [lia | discriminate].
Defined.

(** ** Resistance readout *)

(** C5: the guard [current > 0] does not keep the divisor
    [current / 100000] away from zero.  For every current usage from 1 to
    99 999 micro-amps the readout takes the dividing branch and divides by
    zero; from 100 000 on it is the formatted quotient, and at or below
    zero it is the dashes followed by the ohm glyph. *)
Theorem print_resistance_divides_by_zero
  (ohm : string) (glyph_char : string -> ascii) (current voltage : Z) :
  (0 < current < 100000 ->
   Z.quot current 100000 = 0
   /\ Readouts.print_resistance ohm glyph_char current voltage = None)
  /\ (100000 <= current ->
      Readouts.print_resistance ohm glyph_char current voltage
      = Some (Formatter.format_number
                (Z.quot (voltage * 10) (Z.quot current 100000))
                (glyph_char ohm)))
  /\ (current <= 0 ->
      Readouts.print_resistance ohm glyph_char current voltage
      = Some ("----" ++ ohm)%string).
Proof.
  unfold Readouts.print_resistance, Readouts.c_div.
  repeat split.
  - apply Z.quot_small. lia.
  - destruct H as [H0 H1].
    destruct (0 <? current) eqn:E; [|apply Z.ltb_ge in E; lia].
    rewrite Z.quot_small by lia. reflexivity.
  - intros H.
    destruct (0 <? current) eqn:E; [|apply Z.ltb_ge in E; lia].
    assert (Hq : 1 <= Z.quot current 100000).
    { rewrite Z.quot_div_nonneg by lia.
      apply Z.div_le_lower_bound; lia. }
    destruct (Z.quot current 100000 =? 0) eqn:E0;
      [apply Z.eqb_eq in E0; lia | reflexivity].
  - intros H.
    destruct (0 <? current) eqn:E; [apply Z.ltb_lt in E; lia | reflexivity].
Qed.

Lemma print_resistance_divides_by_zero_witness :
  Z.quot 50000 100000 = 0
  /\ Readouts.print_resistance "O" (fun _ => "O"%char) 50000 5000000 = None.
Proof.
  apply (proj1 (print_resistance_divides_by_zero
                  "O" (fun _ => "O"%char) 50000 5000000)).
  lia.
Defined.

(** ** Event delivery and loops *)

Section LoopFacts.
Import UI.

(** The environment does not touch the tick mark. *)
Lemma environment_last_tick (t : tick) (w : world) :
  last_tick (environment t w) = last_tick w.
Proof. unfold environment. destruct (mode_write t); reflexivity. Qed.

Lemma next_event_delivers (w : world) (t : tick) (e ev : ui_event) :
  delivers w t e -> next_event t ev w = (e, environment t w).
Proof.
  intros [Hrx Hnow]. unfold next_event.
  assert (Hlast : last_tick (environment t w) = last_tick w).
  { unfold environment. destruct (mode_write t); reflexivity. }
  rewrite Hlast.
  destruct (last_tick w + configTICK_RATE_HZ / 10 <? now t) eqn:E.
  - apply Z.ltb_lt in E. lia.
  - rewrite Hrx. reflexivity.
Qed.

(** [next_event] leaves the live state, the persisted records and the
    call log alone. *)
Lemma next_event_frame (t : tick) (ev : ui_event) (w : world) :
  let w' := snd (next_event t ev w) in
  state w' = state w /\ settings w' = settings w
  /\ cc_readouts w' = cc_readouts w /\ effects w' = effects w
  /\ adc w' = adc w.
Proof.
  unfold next_event, environment.
  destruct (last_tick _ + _ <? now t); destruct (mode_write t);
    try destruct (rx t); simpl; auto.
Qed.

Context {L A : Type}.
Variable body : tick -> L -> world -> step_out L A.

(** A loop returns exactly when, after some ticks that keep it going,
    one tick breaks out of it. *)
Lemma run_loop_ret (ticks : list tick) (l : L) (w : world)
  (a : A) (w' : world) (rest : list tick) :
  run_loop body l w ticks = Ret a w' rest <->
  exists pre t l0 w0,
    ticks = pre ++ t :: rest
    /\ loop_after body l w pre = Some (l0, w0)
    /\ body t l0 w0 = Break a w'.
Proof.
  revert l w. induction ticks as [|t0 ticks IH]; intros l w; simpl.
  - split; [discriminate|].
    intros (pre & t & l0 & w0 & H & _). destruct pre; discriminate.
  - split.
    + destruct (body t0 l w) as [l1 w1 | a1 w1 |] eqn:E.
      * intros H. apply IH in H.
        destruct H as (pre & t & l0 & w0 & -> & Hafter & Hbreak).
        exists (t0 :: pre), t, l0, w0. simpl. rewrite E. auto.
      * intros H. inversion H; subst; clear H.
        exists [], t0, l, w. simpl. auto.
      * discriminate.
    + intros (pre & t & l0 & w0 & Heq & Hafter & Hbreak).
      destruct pre as [|p pre]; simpl in *.
      * inversion Heq; subst; clear Heq.
        inversion Hafter; subst; clear Hafter.
        rewrite Hbreak. reflexivity.
      * inversion Heq; subst; clear Heq.
        destruct (body p l w) as [l1 w1 | |]; try discriminate.
        apply IH. exists pre, t, l0, w0. auto.
Qed.

(** A loop that is still running after [pre] continues from there. *)
Lemma run_loop_app (pre ticks : list tick) (l l0 : L) (w w0 : world) :
  loop_after body l w pre = Some (l0, w0) ->
  run_loop body l w (pre ++ ticks) = run_loop body l0 w0 ticks.
Proof.
  revert l w. induction pre as [|p pre IH]; intros l w; simpl.
  - intros H. inversion H. reflexivity.
  - destruct (body p l w); try discriminate. apply IH.
Qed.

(** A property of the world kept by every pass is kept by the loop,
    whether it returns or is still waiting. *)
Lemma run_loop_keeps (P : world -> Prop) :
  (forall t l w, P w ->
     match body t l w with
     | Continue _ w' | Break _ w' => P w'
     | Crash => True
     end) ->
  forall ticks l w, P w ->
    match run_loop body l w ticks with
    | Ret _ w' _ | Starved w' => P w'
    | Undefined => True
    end.
Proof.
  intros Hbody ticks. induction ticks as [|t ticks IH]; intros l w Hw; simpl.
  - exact Hw.
  - specialize (Hbody t l w Hw).
    destruct (body t l w); [apply IH; exact Hbody | exact Hbody | exact I].
Qed.

Lemma loop_after_keeps (P : world -> Prop) :
  (forall t l w, P w ->
     match body t l w with
     | Continue _ w' | Break _ w' => P w'
     | Crash => True
     end) ->
  forall ticks l w l0 w0,
    P w -> loop_after body l w ticks = Some (l0, w0) -> P w0.
Proof.
  intros Hbody ticks. induction ticks as [|t ticks IH]; intros l w l0 w0 Hw; simpl.
  - intros H. inversion H; subst. exact Hw.
  - specialize (Hbody t l w Hw).
    destruct (body t l w); try discriminate. eauto.
Qed.

Lemma run_loop_defined :
  (forall t l w, body t l w <> Crash) ->
  forall ticks l w, run_loop body l w ticks <> Undefined.
Proof.
  intros Hbody ticks. induction ticks as [|t ticks IH]; intros l w; simpl.
  - discriminate.
  - specialize (Hbody t l w).
    destruct (body t l w); [apply IH | discriminate | congruence].
Qed.
End LoopFacts.

(** ** The trampoline *)

Section HomeFacts.
Import UI Home.

Lemma last_cons_cons (A : Type) (a b : A) (l : list A) (d : A) :
  last (a :: b :: l) d = last (b :: l) d.
Proof. reflexivity. Qed.

Lemma last_of_nonempty (A : Type) (l : list A) (d d' : A) :
  l <> [] -> last l d = last l d'.
Proof.
  induction l as [|a l IH]; intros Hne; [congruence|].
  destruct l as [|b l]; [reflexivity|].
  rewrite !last_cons_cons. apply IH. discriminate.
Qed.

Lemma last_cons_default (A : Type) (a : A) (l : list A) (d : A) :
  last (a :: l) d = last l a.
Proof.
  destruct l as [|b l]; [reflexivity|].
  rewrite last_cons_cons. apply last_of_nonempty. discriminate.
Qed.

(** What the loop records is the spec's recorded main state. *)
Lemma adopt_records (main_state r : state_func) :
  snd (adopt main_state r) = if records_main r then r else main_state.
Proof.
  unfold adopt, records_main.
  destruct (func r); simpl.
  - destruct (is_main_state r =? 0); reflexivity.
  - destruct (is_main_state main_state =? 0); reflexivity.
Qed.

Lemma adopt_runs (main_state r : state_func) :
  fst (adopt main_state r)
  = match func r with None => main_state | Some _ => r end.
Proof. unfold adopt. destruct (func r); reflexivity. Qed.

Lemma recorded_main_cons (main_state r : state_func)
  (returns : list state_func) :
  recorded_main main_state (r :: returns)
  = recorded_main (snd (adopt main_state r)) returns.
Proof.
  unfold recorded_main. rewrite adopt_records. cbn [filter].
  destruct (records_main r); [apply last_cons_default | reflexivity].
Qed.

Lemma runs_next_cons (state main_state r : state_func)
  (returns : list state_func) :
  runs_next state main_state (r :: returns)
  = runs_next (fst (adopt main_state r)) (snd (adopt main_state r)) returns.
Proof.
  destruct returns as [|r2 returns].
  - unfold runs_next. rewrite adopt_runs.
    change (last [r] state) with r.
    destruct (func r) eqn:E; [reflexivity|].
    unfold recorded_main, records_main. cbn [filter]. rewrite E. reflexivity.
  - unfold runs_next.
    rewrite <- recorded_main_cons.
    rewrite (last_cons_default _ r (r2 :: returns) state).
    rewrite (last_of_nonempty _ (r2 :: returns) r
               (fst (adopt main_state r))) by discriminate.
    reflexivity.
Qed.

(** The loop, run for as many passes as handlers returned, is about to run
    what the home rule says. *)
Lemma loop_follows_home_rule (n : nat) (state main_state : state_func)
  (w : world) (ticks : list tick) :
  List.length (vTaskUI_returns n state main_state w ticks) = n ->
  vTaskUI_loop n state main_state w ticks
  = About_to_run
      (runs_next state main_state
         (vTaskUI_returns n state main_state w ticks))
      (recorded_main main_state
         (vTaskUI_returns n state main_state w ticks))
      (fst (vTaskUI_left n state main_state w ticks))
      (snd (vTaskUI_left n state main_state w ticks)).
Proof.
  revert state main_state w ticks.
  induction n as [|n IH]; intros state main_state w ticks Hlen.
  - reflexivity.
  - cbn [vTaskUI_returns vTaskUI_loop vTaskUI_left] in *.
    destruct (call state w ticks) as [r w1 rest1 | |];
      [| discriminate | discriminate].
    destruct (adopt main_state r) as [state' main_state'] eqn:Ead.
    cbn [List.length] in Hlen. injection Hlen as Hlen.
    rewrite runs_next_cons, recorded_main_cons, Ead. cbn [fst snd].
    apply IH. exact Hlen.
Qed.

(** When a handler did not return, the loop is not about to run
    anything. *)
Lemma loop_stops_with_handler (n : nat) (state main_state : state_func)
  (w : world) (ticks : list tick) :
  List.length (vTaskUI_returns n state main_state w ticks) <> n ->
  forall s m w' rest,
    vTaskUI_loop n state main_state w ticks <> About_to_run s m w' rest.
Proof.
  revert state main_state w ticks.
  induction n as [|n IH]; intros state main_state w ticks Hlen s m w' rest.
  - cbn in Hlen. congruence.
  - cbn [vTaskUI_returns vTaskUI_loop] in *.
    destruct (call state w ticks) as [r w1 rest1 | |];
      [| discriminate | discriminate].
    destruct (adopt main_state r) as [state' main_state'].
    apply IH. cbn [List.length] in Hlen. congruence.
Qed.

End HomeFacts.

(** C7: in the loop of [vTaskUI], when the handler of [state] returns a
    descriptor with a null [func], the next iteration runs [main_state]
    (which stays recorded); when it returns one with a non-null [func] and
    [is_main_state] set, the next iteration runs that descriptor and it is
    the recorded main state from then on; a non-null descriptor without the
    flag is run and leaves the recorded main state as it was.  Over any
    number of passes in which the handlers returned, the loop is about to
    run the spec's next state: the most recently recorded main state when
    the last return was the sentinel, the last return otherwise; the
    recorded main state is the last returned descriptor with a non-null
    [func] and the flag set, or the initial [main_state] when there is
    none.  When some handler did not return, the loop is not about to run
    anything. *)
Theorem trampoline_home (n : nat) (state main_state : state_func)
  (w : world) (ticks : list tick) :
  (forall new_state w' rest,
     UI.call state w ticks = Ret new_state w' rest ->
     (func new_state = None ->
      UI.vTaskUI_loop 1 state main_state w ticks
      = UI.About_to_run main_state main_state w' rest
      /\ UI.vTaskUI_loop (S n) state main_state w ticks
         = UI.vTaskUI_loop n main_state main_state w' rest)
     /\ (func new_state <> None -> is_main_state new_state <> 0 ->
         UI.vTaskUI_loop 1 state main_state w ticks
         = UI.About_to_run new_state new_state w' rest
         /\ UI.vTaskUI_loop (S n) state main_state w ticks
            = UI.vTaskUI_loop n new_state new_state w' rest)
     /\ (func new_state <> None -> is_main_state new_state = 0 ->
         UI.vTaskUI_loop 1 state main_state w ticks
         = UI.About_to_run new_state main_state w' rest
         /\ UI.vTaskUI_loop (S n) state main_state w ticks
            = UI.vTaskUI_loop n new_state main_state w' rest))
  /\ (List.length (Home.vTaskUI_returns n state main_state w ticks) = n ->
      UI.vTaskUI_loop n state main_state w ticks
      = UI.About_to_run
          (Home.runs_next state main_state
             (Home.vTaskUI_returns n state main_state w ticks))
          (Home.recorded_main main_state
             (Home.vTaskUI_returns n state main_state w ticks))
          (fst (Home.vTaskUI_left n state main_state w ticks))
          (snd (Home.vTaskUI_left n state main_state w ticks)))
  /\ (List.length (Home.vTaskUI_returns n state main_state w ticks) <> n ->
      forall s m w' rest,
        UI.vTaskUI_loop n state main_state w ticks
        <> UI.About_to_run s m w' rest).
Proof.
  split; [| split;
            [apply loop_follows_home_rule | apply loop_stops_with_handler]].
  intros new_state w' rest Hcall.
  cbn [UI.vTaskUI_loop]. rewrite Hcall. unfold UI.adopt.
  split; [|split].
  - intros Hnull. rewrite Hnull.
    destruct (is_main_state main_state =? 0); split; reflexivity.
  - intros Hfunc Hmain.
    destruct (func new_state); [|congruence].
    destruct (is_main_state new_state =? 0) eqn:E;
      [apply Z.eqb_eq in E; contradiction | split; reflexivity].
  - intros Hfunc Hmain.
    destruct (func new_state); [|congruence].
    rewrite Hmain. split; reflexivity.
Qed.

(** From the CC-load screen: the button opens the main menu, two detents
    and the button pick the contrast screen, the button there returns the
    sentinel, and the CC-load screen is about to run again. *)
Lemma trampoline_home_witness :
  Home.vTaskUI_returns 3 STATE_CC_LOAD STATE_CC_LOAD (Samples.bench 5)
    [Samples.button 10 1; Samples.updown 20 2; Samples.button 30 1;
     Samples.button 40 1; Samples.updown 50 1]
  = [STATE_MAIN_MENU; STATE_SET_CONTRAST; STATE_MAIN]
  /\ exists w',
       UI.vTaskUI_loop 3 STATE_CC_LOAD STATE_CC_LOAD (Samples.bench 5)
         [Samples.button 10 1; Samples.updown 20 2; Samples.button 30 1;
          Samples.button 40 1; Samples.updown 50 1]
       = UI.About_to_run STATE_CC_LOAD STATE_CC_LOAD w'
           [Samples.updown 50 1].
Proof.
  split; [vm_compute; reflexivity|].
  eexists.
  rewrite (proj1 (proj2 (trampoline_home 3 STATE_CC_LOAD STATE_CC_LOAD
                           (Samples.bench 5)
                           [Samples.button 10 1; Samples.updown 20 2;
                            Samples.button 30 1; Samples.button 40 1;
                            Samples.updown 50 1]))
             ltac:(vm_compute; reflexivity)).
  vm_compute. reflexivity.
Defined.

(** ** The CC-load screen *)

Section CCLoadFacts.
Import UI.

Lemma environment_state (t : tick) (w : world) :
  state (environment t w) = state w.
Proof. unfold environment. destruct (mode_write t); reflexivity. Qed.

(** The loop variable [event] is written by [next_event] before the
    switch reads it: its value on entry to a pass does not matter. *)
Lemma cc_load_event_irrelevant (ticks : list tick) (ev1 ev2 : ui_event)
  (w : world) :
  run_loop cc_load_body ev1 w ticks = run_loop cc_load_body ev2 w ticks.
Proof.
  revert ev1 ev2 w.
  induction ticks as [|t ticks IH]; intros ev1 ev2 w; simpl; [reflexivity|].
  unfold cc_load_body, next_event.
  destruct (if last_tick (environment t w) + configTICK_RATE_HZ / 10 <? now t
            then None else rx t) as [received|].
  - destruct (type received); try destruct (int_arg received =? 1);
      auto.
  - simpl. apply IH.
Qed.

Lemma adjust_by_range_step (delta : Z) (t : tick) (w : world) :
  adjust_current_setpoint delta (environment t w)
  = set_current (current_setpoint (state w) + delta * range_step w)
      (environment t w).
Proof.
  unfold adjust_current_setpoint, range_step.
  rewrite environment_state.
  destruct (current_range (state w) =? 0); reflexivity.
Qed.
End CCLoadFacts.

(** C10: on the CC-load screen a BUTTON_PRESS whose identifier is not 1 is
    handled by the UP_DOWN code: [set_current] is called with the setpoint
    plus identifier times the step of the current range, the screen goes on
    exactly as if the event had been an UP_DOWN with the same argument, and
    only identifier 1 returns the main-menu descriptor. *)
Theorem cc_load_button_falls_through (w : world) (t : tick)
  (e ev : ui_event) (rest : list tick) :
  UI.delivers w t e -> type e = UI_EVENT_BUTTONPRESS ->
  (int_arg e <> 1 ->
   UI.cc_load_body t ev w
   = Continue e
       (set_current
          (current_setpoint (state w) + int_arg e * UI.range_step w)
          (environment t w))
   /\ UI.cc_load_body (UI.with_rx (UI.as_updown e) t) ev w
      = Continue (UI.as_updown e)
          (set_current
             (current_setpoint (state w) + int_arg e * UI.range_step w)
             (environment t w))
   /\ UI.cc_load w (t :: rest)
      = UI.cc_load w (UI.with_rx (UI.as_updown e) t :: rest))
  /\ (int_arg e = 1 ->
      UI.cc_load w (t :: rest) = Ret STATE_MAIN_MENU (environment t w) rest).
Proof.
  intros Hd Hty.
  assert (Hd' : UI.delivers w (UI.with_rx (UI.as_updown e) t) (UI.as_updown e)).
  { destruct Hd as [_ Hnow]. split; [reflexivity | exact Hnow]. }
  assert (Henv : environment (UI.with_rx (UI.as_updown e) t) w = environment t w)
    by reflexivity.
  assert (Hbody : forall ev0, int_arg e <> 1 ->
            UI.cc_load_body t ev0 w
            = Continue e
                (set_current
                   (current_setpoint (state w) + int_arg e * UI.range_step w)
                   (environment t w))).
  { intros ev0 Hid. unfold UI.cc_load_body.
    rewrite (next_event_delivers w t e ev0 Hd), Hty.
    destruct (int_arg e =? 1) eqn:E; [apply Z.eqb_eq in E; contradiction|].
    now rewrite adjust_by_range_step. }
  assert (Hbody' : forall ev0,
            UI.cc_load_body (UI.with_rx (UI.as_updown e) t) ev0 w
            = Continue (UI.as_updown e)
                (set_current
                   (current_setpoint (state w) + int_arg e * UI.range_step w)
                   (environment t w))).
  { intros ev0. unfold UI.cc_load_body.
    rewrite (next_event_delivers w _ _ ev0 Hd'). simpl type. simpl int_arg.
    rewrite adjust_by_range_step, Henv. reflexivity. }
  split.
  - intros Hid. repeat split; auto.
    unfold UI.cc_load. simpl.
    rewrite (Hbody _ Hid), Hbody'.
    apply cc_load_event_irrelevant.
  - intros Hid. unfold UI.cc_load. simpl. unfold UI.cc_load_body.
    rewrite (next_event_delivers w t e _ Hd), Hty, Hid. reflexivity.
Qed.

Lemma cc_load_button_falls_through_witness :
  UI.cc_load (Samples.bench 5) [Samples.button 10 2; Samples.idle 20]
  = UI.cc_load (Samples.bench 5)
      [UI.with_rx (UI.as_updown
                     {| type := UI_EVENT_BUTTONPRESS; when := 10;
                        int_arg := 2 |})
         (Samples.button 10 2);
       Samples.idle 20].
Proof.
  refine (proj2 (proj2 (proj1 (cc_load_button_falls_through
    (Samples.bench 5) (Samples.button 10 2)
    {| type := UI_EVENT_BUTTONPRESS; when := 10; int_arg := 2 |}
    UI.fresh_event [Samples.idle 20] _ eq_refl) _))).
  - split; [reflexivity | vm_compute; discriminate].
  - simpl. lia.
Defined.

(** ** The overtemp screen *)

Section OvertempFacts.
Import UI.

Lemma output_mode_eqb_eq (a b : output_mode) :
  output_mode_eqb a b = true <-> a = b.
Proof. destruct a, b; simpl; split; congruence. Qed.

Lemma is_button1_spec (e : ui_event) :
  is_button1 e = true <-> type e = UI_EVENT_BUTTONPRESS /\ int_arg e = 1.
Proof.
  unfold is_button1. rewrite andb_true_iff, Z.eqb_eq.
  destruct (type e); simpl; split; intros [H1 H2]; split;
    congruence.
Qed.

(** The three cases of one pass. *)
Lemma overtemp_body_cases (t : tick) (ev : ui_event) (w : world) :
  let e := fst (next_event t ev w) in
  let w1 := snd (next_event t ev w) in
  (get_output_mode w1 = OUTPUT_MODE_FEEDBACK ->
   overtemp_body t ev w = Break STATE_MAIN w1)
  /\ (get_output_mode w1 <> OUTPUT_MODE_FEEDBACK -> is_button1 e = true ->
      overtemp_body t ev w = Break STATE_MAIN (acknowledged w1))
  /\ (get_output_mode w1 <> OUTPUT_MODE_FEEDBACK -> is_button1 e = false ->
      overtemp_body t ev w = Continue e w1).
Proof.
  unfold overtemp_body.
  destruct (next_event t ev w) as [e w1]; simpl.
  destruct (output_mode_eqb (get_output_mode w1) OUTPUT_MODE_FEEDBACK) eqn:E.
  - apply output_mode_eqb_eq in E.
    split; [|split]; intros; [reflexivity | contradiction | contradiction].
  - split; [|split].
    + intros H. rewrite H in E. discriminate.
    + intros _ H. rewrite H. reflexivity.
    + intros _ H. rewrite H. reflexivity.
Qed.

(** While the loop runs nothing is called and the live state is not
    touched. *)
Lemma overtemp_body_frame (w0 : world) (t : tick) (ev : ui_event) (w : world) :
  state w = state w0 /\ effects w = effects w0 ->
  match overtemp_body t ev w with
  | Continue _ w' => state w' = state w0 /\ effects w' = effects w0
  | _ => True
  end.
Proof.
  intros [Hs He].
  pose proof (next_event_frame t ev w) as (Fs & _ & _ & Fe & _).
  unfold overtemp_body.
  destruct (next_event t ev w) as [e w1]; simpl in *.
  destruct (output_mode_eqb _ _); [exact I|].
  destruct (is_button1 e); [exact I|].
  split; congruence.
Qed.

Lemma overtemp_loop_frame (ticks : list tick) (ev ev0 : ui_event)
  (w w0 : world) :
  loop_after overtemp_body ev w ticks = Some (ev0, w0) ->
  state w0 = state w /\ effects w0 = effects w.
Proof.
  revert ev w. induction ticks as [|t ticks IH]; intros ev w; simpl.
  - intros H. inversion H; subst. auto.
  - pose proof (overtemp_body_frame w t ev w (conj eq_refl eq_refl)) as F.
    destruct (overtemp_body t ev w) as [e1 w1| |]; try discriminate.
    intros H. apply IH in H. destruct F, H. split; congruence.
Qed.

Lemma acknowledged_spec (w : world) :
  current_setpoint (state (acknowledged w)) = 0
  /\ current_range (state (acknowledged w)) = 0
  /\ mode (acknowledged w) = OUTPUT_MODE_FEEDBACK
  /\ effects (acknowledged w)
     = effects w ++ [E_set_current 0; E_set_output_mode OUTPUT_MODE_FEEDBACK].
Proof.
  unfold acknowledged, set_output_mode, set_current; simpl.
  rewrite <- app_assoc. auto.
Qed.
End OvertempFacts.

(** C8: the overtemp screen returns exactly when, after ticks that keep its
    loop running, a tick comes on which either the output mode reads
    FEEDBACK (it then returns the home sentinel having made no call, the
    setpoint and range as they were), or the mode does not read FEEDBACK
    and the event is BUTTON_PRESS with identifier 1 (it then calls
    [set_current(0)] and [set_output_mode(FEEDBACK)], in this order, and
    returns the home sentinel with setpoint 0 and mode FEEDBACK).  Nothing
    else ends it, and it always returns the home sentinel. *)
Theorem overtemp_two_exits (w : world) (ticks : list tick) (r : state_func)
  (w' : world) (rest : list tick) :
  UI.overtemp w ticks = Ret r w' rest <->
  exists pre t ev w0,
    ticks = pre ++ t :: rest
    /\ loop_after UI.overtemp_body UI.fresh_event w pre = Some (ev, w0)
    /\ r = STATE_MAIN
    /\ let e := fst (next_event t ev w0) in
       let w1 := snd (next_event t ev w0) in
       (get_output_mode w1 = OUTPUT_MODE_FEEDBACK
        /\ w' = w1
        /\ state w' = state w /\ effects w' = effects w)
       \/ (get_output_mode w1 <> OUTPUT_MODE_FEEDBACK
           /\ type e = UI_EVENT_BUTTONPRESS /\ int_arg e = 1
           /\ w' = UI.acknowledged w1
           /\ current_setpoint (state w') = 0
           /\ mode w' = OUTPUT_MODE_FEEDBACK
           /\ effects w'
              = effects w
                  ++ [E_set_current 0; E_set_output_mode OUTPUT_MODE_FEEDBACK]).
Proof.
  unfold UI.overtemp. rewrite run_loop_ret.
  split.
  - intros (pre & t & ev & w0 & Heq & Hafter & Hbreak).
    exists pre, t, ev, w0. split; [exact Heq|]. split; [exact Hafter|].
    destruct (overtemp_loop_frame _ _ _ _ _ Hafter) as [Hs He].
    pose proof (next_event_frame t ev w0) as (Fs & _ & _ & Fe & _).
    pose proof (overtemp_body_cases t ev w0) as (C1 & C2 & C3).
    simpl in *.
    destruct (output_mode_eqb
                (get_output_mode (snd (next_event t ev w0)))
                OUTPUT_MODE_FEEDBACK) eqn:E.
    + apply output_mode_eqb_eq in E.
      rewrite (C1 E) in Hbreak. inversion Hbreak; subst.
      split; [reflexivity|]. left. repeat split; congruence.
    + assert (Hne : get_output_mode (snd (next_event t ev w0))
                    <> OUTPUT_MODE_FEEDBACK).
      { intros Hm. apply output_mode_eqb_eq in Hm. congruence. }
      destruct (is_button1 (fst (next_event t ev w0))) eqn:B.
      * rewrite (C2 Hne eq_refl) in Hbreak. inversion Hbreak; subst.
        apply is_button1_spec in B. destruct B as [B1 B2].
        pose proof (acknowledged_spec (snd (next_event t ev w0)))
          as (A1 & _ & A3 & A4).
        split; [reflexivity|]. right.
        repeat split; auto. rewrite A4. congruence.
      * rewrite (C3 Hne eq_refl) in Hbreak. discriminate.
  - intros (pre & t & ev & w0 & Heq & Hafter & Hr & Hway).
    exists pre, t, ev, w0. split; [exact Heq|]. split; [exact Hafter|].
    pose proof (overtemp_body_cases t ev w0) as (C1 & C2 & C3).
    simpl in *. subst r.
    destruct Hway as [(Hm & Hw & _) | (Hm & Hty & Hid & Hw & _)].
    + rewrite (C1 Hm). congruence.
    + assert (B : is_button1 (fst (next_event t ev w0)) = true)
        by (apply is_button1_spec; auto).
      rewrite (C2 Hm B). congruence.
Qed.

Lemma overtemp_two_exits_witness :
  exists pre t ev w0,
    [Samples.updown 20 1; Samples.button 30 0; Samples.button 40 1;
     Samples.idle 50]
    = pre ++ t :: [Samples.idle 50]
    /\ loop_after UI.overtemp_body UI.fresh_event (Samples.bench 5) pre
       = Some (ev, w0)
    /\ STATE_MAIN = STATE_MAIN
    /\ let e := fst (next_event t ev w0) in
       let w1 := snd (next_event t ev w0) in
       (get_output_mode w1 = OUTPUT_MODE_FEEDBACK
        /\ UI.acknowledged
             (environment (Samples.button 40 1) (Samples.bench 5)) = w1
        /\ state (UI.acknowledged
                    (environment (Samples.button 40 1) (Samples.bench 5)))
           = state (Samples.bench 5)
        /\ effects (UI.acknowledged
                      (environment (Samples.button 40 1) (Samples.bench 5)))
           = effects (Samples.bench 5))
       \/ (get_output_mode w1 <> OUTPUT_MODE_FEEDBACK
           /\ type e = UI_EVENT_BUTTONPRESS /\ int_arg e = 1
           /\ UI.acknowledged
                (environment (Samples.button 40 1) (Samples.bench 5))
              = UI.acknowledged w1
           /\ current_setpoint
                (state (UI.acknowledged
                          (environment (Samples.button 40 1)
                             (Samples.bench 5)))) = 0
           /\ mode (UI.acknowledged
                      (environment (Samples.button 40 1) (Samples.bench 5)))
              = OUTPUT_MODE_FEEDBACK
           /\ effects (UI.acknowledged
                         (environment (Samples.button 40 1)
                            (Samples.bench 5)))
              = effects (Samples.bench 5)
                  ++ [E_set_current 0;
                      E_set_output_mode OUTPUT_MODE_FEEDBACK]).
Proof.
  apply (proj1 (overtemp_two_exits (Samples.bench 5) _ STATE_MAIN _ _)).
  reflexivity.
Defined.

(** ** The calibration wizard *)

Section CalibrationFacts.
Import UI.

Lemma untouched_refl (w : world) : untouched w w.
Proof.
  unfold untouched. repeat split. exists []. now rewrite app_nil_r.
Qed.

Lemma untouched_log (w0 w : world) (e : effect) :
  persisted_write e = false -> untouched w0 w -> untouched w0 (log e w).
Proof.
  intros He (Hs & Hr & calls & Hc & Hp). unfold untouched; simpl.
  repeat split; auto.
  exists (calls ++ [e]). rewrite Hc, app_assoc. split; [reflexivity|].
  unfold persisted_writes in *. rewrite filter_app, Hp. simpl. now rewrite He.
Qed.

Lemma untouched_set_current (w0 w : world) (z : Z) :
  untouched w0 w -> untouched w0 (set_current z w).
Proof.
  intros H. apply (untouched_log w0 w (E_set_current z) eq_refl) in H.
  exact H.
Qed.

Lemma untouched_next_event (w0 w : world) (t : tick) (ev : ui_event) :
  untouched w0 w -> untouched w0 (snd (next_event t ev w)).
Proof.
  intros (Hs & Hr & Hc).
  pose proof (next_event_frame t ev w) as (_ & Fs & Fr & Fe & _).
  simpl in *. unfold untouched. rewrite Fs, Fr, Fe. auto.
Qed.

Lemma calibrate_offsets_body_keeps (w0 : world) (t : tick) (ev : ui_event)
  (w : world) :
  untouched w0 w ->
  match calibrate_offsets_body t ev w with
  | Continue _ w' | Break _ w' => untouched w0 w'
  | Crash => True
  end.
Proof.
  intros H. apply (untouched_next_event w0 w t ev) in H.
  unfold calibrate_offsets_body.
  destruct (next_event t ev w) as [e w1]; simpl in *.
  destruct (is_button1 e); exact H.
Qed.

Lemma calibrate_voltage_body_keeps (w0 : world) (t : tick)
  (l : settings_t * ui_event) (w : world) :
  untouched w0 w ->
  match calibrate_voltage_body t l w with
  | Continue _ w' | Break _ w' => untouched w0 w'
  | Crash => True
  end.
Proof.
  intros H. destruct l as [ns ev].
  apply (untouched_next_event w0 w t ev) in H.
  unfold calibrate_voltage_body.
  destruct (next_event t ev w) as [e w1]; simpl in *.
  destruct (is_button1 e); exact H.
Qed.

Lemma calibrate_offsets_body_defined (t : tick) (ev : ui_event) (w : world) :
  calibrate_offsets_body t ev w <> Crash.
Proof.
  unfold calibrate_offsets_body.
  destruct (next_event t ev w) as [e w1].
  destruct (is_button1 e); discriminate.
Qed.

Lemma calibrate_voltage_body_defined (t : tick) (l : settings_t * ui_event)
  (w : world) :
  calibrate_voltage_body t l w <> Crash.
Proof.
  unfold calibrate_voltage_body. destruct l as [ns ev].
  destruct (next_event t ev w) as [e w1].
  destruct (is_button1 e); discriminate.
Qed.

Lemma residual_same_adc (w1 w2 : world) (i : Z) :
  adc w1 = adc w2 -> residual w1 i = residual w2 i.
Proof. unfold residual. intros ->. reflexivity. Qed.

Lemma trim_sweep_keeps (w0 : world) (k : nat) (i : Z) (ns : settings_t)
  (w : world) :
  untouched w0 w -> untouched w0 (snd (trim_sweep k i ns w)).
Proof.
  revert i w. induction k as [|k IH]; intros i w H; simpl; [exact H|].
  apply (untouched_log w0 w (E_opamp_trim i) eq_refl) in H.
  destruct (residual (log (E_opamp_trim i) w) i <=? 0); simpl; auto.
Qed.

(** The sweep stops at the first setting whose residual is not positive. *)
Lemma trim_sweep_first (k : nat) (i0 i : Z) (ns : settings_t) (w : world) :
  i0 <= i < i0 + Z.of_nat k ->
  residual w i <= 0 ->
  (forall j, i0 <= j < i -> 0 < residual w j) ->
  fst (trim_sweep k i0 ns w) = set_opamp_offset_trim (i - 1) ns.
Proof.
  revert i0 w. induction k as [|k IH]; intros i0 w Hi Hneg Hpos; [lia|].
  simpl.
  rewrite (residual_same_adc (log (E_opamp_trim i0) w) w i0 eq_refl).
  destruct (residual w i0 <=? 0) eqn:E.
  - apply Z.leb_le in E.
    assert (i = i0).
    { destruct (Z.eq_dec i i0) as [->|Hne]; [reflexivity|].
      specialize (Hpos i0 ltac:(lia)). lia. }
    subst. reflexivity.
  - apply Z.leb_gt in E.
    assert (Hne : i <> i0) by (intros ->; lia).
    apply IH.
    + lia.
    + rewrite (residual_same_adc (log (E_opamp_trim i0) w) w i eq_refl).
      exact Hneg.
    + intros j Hj.
      rewrite (residual_same_adc (log (E_opamp_trim i0) w) w j eq_refl).
      apply Hpos. lia.
Qed.

Lemma trim_sweep_none (k : nat) (i0 : Z) (ns : settings_t) (w : world) :
  (forall j, i0 <= j < i0 + Z.of_nat k -> 0 < residual w j) ->
  fst (trim_sweep k i0 ns w) = ns.
Proof.
  revert i0 w. induction k as [|k IH]; intros i0 w Hpos; [reflexivity|].
  simpl.
  rewrite (residual_same_adc (log (E_opamp_trim i0) w) w i0 eq_refl).
  destruct (residual w i0 <=? 0) eqn:E.
  - apply Z.leb_le in E. specialize (Hpos i0 ltac:(lia)). lia.
  - apply IH. intros j Hj.
    rewrite (residual_same_adc (log (E_opamp_trim i0) w) w j eq_refl).
    apply Hpos. lia.
Qed.

Lemma calibrate_opamp_dac_offsets_keeps (w0 : world) (ns : settings_t)
  (w : world) :
  untouched w0 w -> untouched w0 (snd (calibrate_opamp_dac_offsets ns w)).
Proof.
  intros H. unfold calibrate_opamp_dac_offsets.
  apply (untouched_set_current w0 w 100000) in H.
  apply (trim_sweep_keeps w0 32 0 ns) in H.
  destruct (trim_sweep 32 0 ns (set_current 100000 w)) as [ns' w']; simpl in *.
  now apply untouched_set_current.
Qed.

(** What a run of [calibrate] comes to, in each of its outcomes. *)
Lemma calibrate_outcome (w : world) (ticks : list tick) :
  match calibrate w ticks with
  | Ret r w' rest =>
      r = STATE_MAIN
      /\ exists calls image,
           effects w' = effects w ++ calls ++ [E_EEPROM_Write_settings image]
           /\ persisted_writes calls = []
           /\ settings w' = image
           /\ cc_readouts w' = cc_readouts w
  | Starved w' => untouched w w'
  | Undefined => False
  end.
Proof.
  unfold calibrate.
  assert (H0 : untouched w (set_current 0 w))
    by (apply untouched_set_current, untouched_refl).
  set (w1 := set_current 0 w) in *.
  assert (settings w1 = settings w) as -> by reflexivity.
  unfold calibrate_offsets.
  pose proof (run_loop_keeps calibrate_offsets_body (untouched w)
                (calibrate_offsets_body_keeps w) ticks fresh_event w1 H0) as K1.
  pose proof (run_loop_defined calibrate_offsets_body
                calibrate_offsets_body_defined ticks fresh_event w1) as D1.
  destruct (run_loop calibrate_offsets_body fresh_event w1 ticks)
    as [u w2 rest2 | w2 |]; simpl; [| exact K1 | congruence].
  unfold calibrate_voltage.
  set (ns2 := set_adc_current_offset _ _).
  pose proof (run_loop_keeps calibrate_voltage_body (untouched w)
                (calibrate_voltage_body_keeps w) rest2 (ns2, fresh_event)
                w2 K1) as K2.
  pose proof (run_loop_defined calibrate_voltage_body
                calibrate_voltage_body_defined rest2 (ns2, fresh_event) w2)
    as D2.
  destruct (run_loop calibrate_voltage_body (ns2, fresh_event) w2 rest2)
    as [ns3 w3 rest3 | w3 |]; simpl; [| exact K2 | congruence].
  pose proof (calibrate_opamp_dac_offsets_keeps w ns3 w3 K2) as K3.
  destruct (calibrate_opamp_dac_offsets ns3 w3) as [ns4 w4]; simpl in *.
  split; [reflexivity|].
  destruct K3 as (Hs & Hr & calls & Hc & Hp).
  exists calls, ns4. rewrite Hc, app_assoc. auto.
Qed.
(** After [next_event] the raw readings are those the tick brought. *)
Lemma next_event_reads_sensors (t : tick) (ev : ui_event) (w : world) :
  get_raw_voltage (snd (next_event t ev w)) = sensed_voltage t
  /\ get_raw_current_usage (snd (next_event t ev w)) = sensed_current t.
Proof.
  unfold next_event, environment, get_raw_voltage, get_raw_current_usage.
  destruct (last_tick _ + _ <? now t); destruct (mode_write t);
    try destruct (rx t); simpl; auto.
Qed.

(** Step 1 ends on the first pass whose event is the button. *)
Lemma calibrate_offsets_body_break (t : tick) (ev : ui_event) (w w1 : world)
  (u : unit) :
  calibrate_offsets_body t ev w = Break u w1 <->
  is_button1 (fst (next_event t ev w)) = true
  /\ w1 = snd (next_event t ev w).
Proof.
  unfold calibrate_offsets_body.
  destruct (next_event t ev w) as [e wx]; cbn [fst snd].
  destruct (is_button1 e); split.
  - intros H. inversion H. auto.
  - intros [_ ->]. destruct u. reflexivity.
  - discriminate.
  - intros [H _]. discriminate.
Qed.

(** Step 2 ends on the first pass whose event is the button, with the
    scratch copy as the passes before left it. *)
Lemma calibrate_voltage_body_break (t : tick) (ns ns1 : settings_t)
  (ev : ui_event) (w w1 : world) :
  calibrate_voltage_body t (ns, ev) w = Break ns1 w1 <->
  is_button1 (fst (next_event t ev w)) = true
  /\ ns1 = ns /\ w1 = snd (next_event t ev w).
Proof.
  unfold calibrate_voltage_body.
  destruct (next_event t ev w) as [e wx]; cbn [fst snd].
  destruct (is_button1 e) eqn:Eb; split.
  - apply is_button1_spec in Eb. destruct Eb as [Ety _]. rewrite Ety.
    intros H. inversion H. auto.
  - apply is_button1_spec in Eb. destruct Eb as [Ety _]. rewrite Ety.
    intros (_ & -> & ->). reflexivity.
  - discriminate.
  - intros [H _]. discriminate.
Qed.

(** [calibrate] returns exactly on a trace with two button presses: the
    first ends step 1, the second step 2; the record written is the scratch
    copy after the sweep of step 3. *)
Lemma calibrate_returns (w : world) (ticks : list tick)
  (r : state_func) (w' : world) (rest : list tick) :
  calibrate w ticks = Ret r w' rest <->
  exists before1 t1 ev1 wa before2 t2 scratch2 ev2 wb,
    ticks = before1 ++ t1 :: before2 ++ t2 :: rest
    /\ loop_after calibrate_offsets_body fresh_event (set_current 0 w) before1
       = Some (ev1, wa)
    /\ is_button1 (fst (next_event t1 ev1 wa)) = true
    /\ loop_after calibrate_voltage_body
         (set_adc_current_offset (sensed_current t1)
            (set_adc_voltage_offset (sensed_voltage t1) (settings w)),
          fresh_event)
         (snd (next_event t1 ev1 wa)) before2
       = Some ((scratch2, ev2), wb)
    /\ is_button1 (fst (next_event t2 ev2 wb)) = true
    /\ r = STATE_MAIN
    /\ w' = EEPROM_Write_settings
              (fst (calibrate_opamp_dac_offsets scratch2
                      (snd (next_event t2 ev2 wb))))
              (snd (calibrate_opamp_dac_offsets scratch2
                      (snd (next_event t2 ev2 wb)))).
Proof.
  unfold calibrate, calibrate_offsets, calibrate_voltage, calibrate_current.
  assert (settings (set_current 0 w) = settings w) as -> by reflexivity.
  set (w0 := set_current 0 w).
  split.
  - destruct (run_loop calibrate_offsets_body fresh_event w0 ticks)
      as [u w1 rest1 | |] eqn:E1; cbn [bind]; [| discriminate | discriminate].
    destruct (run_loop calibrate_voltage_body
                (set_adc_current_offset (get_raw_current_usage w1)
                   (set_adc_voltage_offset (get_raw_voltage w1) (settings w)),
                 fresh_event) w1 rest1)
      as [ns3 w3 rest3 | |] eqn:E2; cbn [bind]; [| discriminate | discriminate].
    destruct (calibrate_opamp_dac_offsets ns3 w3) as [ns4 w4] eqn:E3.
    intros H. inversion H; subst r w' rest; clear H.
    apply run_loop_ret in E1.
    destruct E1 as (before1 & t1 & ev1 & wa & -> & Ha1 & Hb1).
    apply calibrate_offsets_body_break in Hb1. destruct Hb1 as [Hb1 ->].
    destruct (next_event_reads_sensors t1 ev1 wa) as [Hv Hc].
    rewrite Hv, Hc in E2.
    apply run_loop_ret in E2.
    destruct E2 as (before2 & t2 & [scratch2 ev2] & wb & -> & Ha2 & Hb2).
    apply calibrate_voltage_body_break in Hb2.
    destruct Hb2 as (Hb2 & -> & ->).
    exists before1, t1, ev1, wa, before2, t2, scratch2, ev2, wb.
    rewrite E3. cbn [fst snd]. auto 10.
  - intros (before1 & t1 & ev1 & wa & before2 & t2 & scratch2 & ev2 & wb
            & -> & Ha1 & Hb1 & Ha2 & Hb2 & -> & ->).
    assert (E1 : run_loop calibrate_offsets_body fresh_event w0
                   (before1 ++ t1 :: before2 ++ t2 :: rest)
                 = Ret tt (snd (next_event t1 ev1 wa))
                     (before2 ++ t2 :: rest)).
    { apply run_loop_ret. exists before1, t1, ev1, wa.
      split; [reflexivity|]. split; [exact Ha1|].
      apply calibrate_offsets_body_break. auto. }
    rewrite E1. cbn [bind].
    destruct (next_event_reads_sensors t1 ev1 wa) as [Hv Hc].
    rewrite Hv, Hc.
    assert (E2 : run_loop calibrate_voltage_body
                   (set_adc_current_offset (sensed_current t1)
                      (set_adc_voltage_offset (sensed_voltage t1)
                         (settings w)), fresh_event)
                   (snd (next_event t1 ev1 wa)) (before2 ++ t2 :: rest)
                 = Ret scratch2 (snd (next_event t2 ev2 wb)) rest).
    { apply run_loop_ret. exists before2, t2, (scratch2, ev2), wb.
      split; [reflexivity|]. split; [exact Ha2|].
      apply calibrate_voltage_body_break. auto. }
    rewrite E2. cbn [bind].
    destruct (calibrate_opamp_dac_offsets scratch2
                (snd (next_event t2 ev2 wb))) as [ns4 w4].
    reflexivity.
Qed.
End CalibrationFacts.

(** C3: [calibrate] works on its local copy.  It returns exactly on a
    trace with two button presses, the first ending the offsets step and the
    second the voltage step; it then returns the home sentinel, and the
    record it hands to [EEPROM_Write] is the scratch copy: the settings from
    before the wizard with the two offsets read at the first press, the gain
    as the passes of step 2 scaled it, and the trim the sweep of step 3
    found.  If it returns, the calls it made end with that one
    [EEPROM_Write] of the whole record, its only write to the persisted
    store, after which the persisted settings are the image written.  If
    the trace ends before that (the wizard is left waiting in one of its
    steps), the persisted settings and display configuration are those from
    before the wizard and no write to the store was made.  It never leaves
    defined behaviour. *)
Theorem calibrate_commits_once (w : world) (ticks : list tick) :
  (forall r w' rest,
     UI.calibrate w ticks = Ret r w' rest <->
     exists before1 t1 ev1 wa before2 t2 scratch2 ev2 wb,
       ticks = before1 ++ t1 :: before2 ++ t2 :: rest
       /\ loop_after UI.calibrate_offsets_body UI.fresh_event
            (set_current 0 w) before1
          = Some (ev1, wa)
       /\ is_button1 (fst (next_event t1 ev1 wa)) = true
       /\ loop_after UI.calibrate_voltage_body
            (set_adc_current_offset (sensed_current t1)
               (set_adc_voltage_offset (sensed_voltage t1) (settings w)),
             UI.fresh_event)
            (snd (next_event t1 ev1 wa)) before2
          = Some ((scratch2, ev2), wb)
       /\ is_button1 (fst (next_event t2 ev2 wb)) = true
       /\ r = STATE_MAIN
       /\ w' = EEPROM_Write_settings
                 (fst (UI.calibrate_opamp_dac_offsets scratch2
                         (snd (next_event t2 ev2 wb))))
                 (snd (UI.calibrate_opamp_dac_offsets scratch2
                         (snd (next_event t2 ev2 wb)))))
  /\ match UI.calibrate w ticks with
     | Ret r w' rest =>
         r = STATE_MAIN
         /\ exists calls image,
              effects w' = effects w ++ calls ++ [E_EEPROM_Write_settings image]
              /\ UI.persisted_writes calls = []
              /\ UI.persisted_writes (effects w')
                 = UI.persisted_writes (effects w)
                     ++ [E_EEPROM_Write_settings image]
              /\ settings w' = image
     | Starved w' =>
         settings w' = settings w
         /\ cc_readouts w' = cc_readouts w
         /\ UI.persisted_writes (effects w') = UI.persisted_writes (effects w)
     | Undefined => False
     end.
Proof.
  split; [intros r w' rest; apply calibrate_returns|].
  pose proof (calibrate_outcome w ticks) as H.
  destruct (UI.calibrate w ticks) as [r w' rest | w' |].
  - destruct H as (Hr & calls & image & He & Hp & Hs & _).
    split; [exact Hr|].
    exists calls, image. repeat split; auto.
    rewrite He. unfold UI.persisted_writes in *.
    rewrite !filter_app, Hp. reflexivity.
  - destruct H as (Hs & Hr & calls & He & Hp).
    repeat split; auto.
    rewrite He. unfold UI.persisted_writes in *.
    rewrite filter_app, Hp. apply app_nil_r.
  - exact H.
Qed.

(** On the bench that crosses zero at setting 5: a press, three detents in
    the voltage step, a press.  The wizard returns, and the record written
    carries the offsets 7 and -3, the gain 2008 + 2008 * 3 / 500 = 2020 and
    the trim 4, one below the first setting whose residual is not
    positive. *)
Lemma calibrate_commits_once_witness :
  exists w',
    UI.calibrate (Samples.bench 5)
      [Samples.button 10 1; Samples.updown 11 3; Samples.button 20 1;
       Samples.idle 30]
    = Ret STATE_MAIN w' [Samples.idle 30]
    /\ settings w'
       = set_opamp_offset_trim 4
           (set_adc_voltage_gain 2020
              (set_adc_current_offset (-3)
                 (set_adc_voltage_offset 7 (settings (Samples.bench 5)))))
    /\ UI.persisted_writes (effects w')
       = [E_EEPROM_Write_settings (settings w')].
Proof.
  pose proof (calibrate_commits_once (Samples.bench 5)
                [Samples.button 10 1; Samples.updown 11 3;
                 Samples.button 20 1; Samples.idle 30]) as [Hreturns _].
  eexists. split; [|split].
  - apply Hreturns.
    exists [], (Samples.button 10 1), UI.fresh_event,
      (set_current 0 (Samples.bench 5)),
      [Samples.updown 11 3], (Samples.button 20 1).
    eexists. eexists. eexists.
    split; [reflexivity|].
    split; [reflexivity|].
    split; [vm_compute; reflexivity|].
    split; [vm_compute; reflexivity|].
    split; [vm_compute; reflexivity|].
    split; reflexivity.
  - vm_compute. reflexivity.
  - vm_compute. reflexivity.
Defined.

(** C9, as stated, fails.  On a bench where no trim setting brings the
    residual to zero the field keeps the scratch copy's value, and the
    factory value [DEFAULT_OPAMP_OFFSET_TRIM] is 36; where setting 0
    already has a residual of zero the field becomes -1. *)
Lemma opamp_trim_outside_0_31 :
  opamp_offset_trim
    (fst (UI.calibrate_opamp_dac_offsets Samples.factory_settings
            (Samples.bench 40))) = 36
  /\ ~ (0 <= opamp_offset_trim
              (fst (UI.calibrate_opamp_dac_offsets Samples.factory_settings
                      (Samples.bench 40))) <= 31)
  /\ opamp_offset_trim
       (fst (UI.calibrate_opamp_dac_offsets Samples.factory_settings
               (Samples.bench 0))) = -1.
Proof.
  split; [reflexivity|]. split; [vm_compute; intros [_ H]; apply H; reflexivity|].
  reflexivity.
Qed.

(** C9, amended.  After step 3: when [i] in 0..31 is the first trim setting
    whose residual is not positive, [opamp_offset_trim] of the scratch
    record is [i - 1] and nothing else in the record changed, so the field
    lies in 0..30 whenever [i >= 1]; when every setting has a positive
    residual the scratch record is as it was before the step. *)
Theorem opamp_trim_after_sweep (new_settings : settings_t) (w : world) :
  (forall i, UI.first_nonpositive w i ->
     fst (UI.calibrate_opamp_dac_offsets new_settings w)
     = set_opamp_offset_trim (i - 1) new_settings
     /\ opamp_offset_trim (fst (UI.calibrate_opamp_dac_offsets new_settings w))
        = i - 1
     /\ (1 <= i ->
         0 <= opamp_offset_trim
                (fst (UI.calibrate_opamp_dac_offsets new_settings w)) <= 30))
  /\ ((forall i, 0 <= i < 32 -> 0 < UI.residual w i) ->
      fst (UI.calibrate_opamp_dac_offsets new_settings w) = new_settings).
Proof.
  unfold UI.calibrate_opamp_dac_offsets.
  split.
  - intros i (Hi & Hneg & Hpos).
    assert (Hsw : fst (UI.trim_sweep 32 0 new_settings (set_current 100000 w))
                  = set_opamp_offset_trim (i - 1) new_settings).
    { apply trim_sweep_first.
      - simpl. lia.
      - rewrite (residual_same_adc (set_current 100000 w) w i eq_refl).
        exact Hneg.
      - intros j Hj.
        rewrite (residual_same_adc (set_current 100000 w) w j eq_refl).
        apply Hpos. lia. }
    destruct (UI.trim_sweep 32 0 new_settings (set_current 100000 w))
      as [ns' w']; simpl in *.
    subst ns'. simpl. repeat split; lia.
  - intros Hpos.
    assert (Hsw : fst (UI.trim_sweep 32 0 new_settings (set_current 100000 w))
                  = new_settings).
    { apply trim_sweep_none. intros j Hj.
      rewrite (residual_same_adc (set_current 100000 w) w j eq_refl).
      apply Hpos. simpl in Hj. lia. }
    destruct (UI.trim_sweep 32 0 new_settings (set_current 100000 w))
      as [ns' w']; simpl in *.
    exact Hsw.
Qed.

Lemma opamp_trim_after_sweep_witness :
  fst (UI.calibrate_opamp_dac_offsets Samples.factory_settings
         (Samples.bench 5))
  = set_opamp_offset_trim (5 - 1) Samples.factory_settings
  /\ opamp_offset_trim
       (fst (UI.calibrate_opamp_dac_offsets Samples.factory_settings
               (Samples.bench 5))) = 5 - 1
  /\ (1 <= 5 ->
      0 <= opamp_offset_trim
             (fst (UI.calibrate_opamp_dac_offsets Samples.factory_settings
                     (Samples.bench 5))) <= 30).
Proof.
  apply (proj1 (opamp_trim_after_sweep Samples.factory_settings
                  (Samples.bench 5)) 5).
  unfold UI.first_nonpositive, UI.residual, Samples.bench, Samples.bench_adc,
    adc.
  split; [lia|]. split; [lia|]. intros j Hj. lia.
Defined.

(** ** Overtemperature preemption *)

Section PreemptionFacts.
Import UI.

(** The screens whose switch has an OVERTEMP case return the overtemp
    descriptor on the pass that receives the event. *)
Lemma overtemp_preempts_switching_screens (w : world) (t : tick)
  (e ev : ui_event) :
  delivers w t e -> type e = UI_EVENT_OVERTEMP ->
  cc_load_body t ev w = Break STATE_OVERTEMP (environment t w)
  /\ (forall m selected,
        menu_body m t (selected, ev) w = Break STATE_OVERTEMP (environment t w))
  /\ (forall contrast,
        set_contrast_body t (contrast, ev) w
        = Break STATE_OVERTEMP (environment t w)).
Proof.
  intros Hd Hty.
  unfold cc_load_body, menu_body, set_contrast_body.
  split; [|split]; intros; rewrite (next_event_delivers w t e ev Hd), Hty;
    reflexivity.
Qed.

(** [display_config] hands on an overtemp descriptor from either menu. *)
Lemma display_config_bubbles_overtemp (config : pointer) (w : world)
  (ticks : list tick) :
  (forall w' rest,
      menu choose_readout_menu w ticks = Ret STATE_OVERTEMP w' rest ->
      display_config config w ticks = Ret STATE_OVERTEMP w' rest)
  /\ (forall display w1 rest1 w' rest,
         menu choose_readout_menu w ticks = Ret display w1 rest1 ->
         is_overtemp display = false ->
         menu set_readout_menu w1 rest1 = Ret STATE_OVERTEMP w' rest ->
         display_config config w ticks = Ret STATE_OVERTEMP w' rest).
Proof.
  unfold display_config. split.
  - intros w' rest H. rewrite H. reflexivity.
  - intros display w1 rest1 w' rest H1 Hnot H2.
    rewrite H1. simpl. rewrite Hnot, H2. reflexivity.
Qed.
End PreemptionFacts.

(** C1 fails on the calibration wizard.  An OVERTEMP event delivered to
    step 1 ([calibrate_offsets]) or step 2 ([calibrate_voltage]) is read and
    dropped, the step keeps waiting for the button; and whatever the trace,
    when [calibrate] returns it returns the home sentinel, never the
    overtemp descriptor. *)
Theorem calibrate_ignores_overtemp :
  (forall w t e ev,
      UI.delivers w t e -> type e = UI_EVENT_OVERTEMP ->
      UI.calibrate_offsets_body t ev w = Continue e (environment t w))
  /\ (forall w t e ev new_settings,
         UI.delivers w t e -> type e = UI_EVENT_OVERTEMP ->
         UI.calibrate_voltage_body t (new_settings, ev) w
         = Continue (new_settings, e) (environment t w))
  /\ (forall w ticks r w' rest,
         UI.calibrate w ticks = Ret r w' rest ->
         r = STATE_MAIN /\ r <> STATE_OVERTEMP).
Proof.
  split; [|split].
  - intros w t e ev Hd Hty. unfold UI.calibrate_offsets_body.
    rewrite (next_event_delivers w t e ev Hd).
    unfold is_button1. rewrite Hty. reflexivity.
  - intros w t e ev ns Hd Hty. unfold UI.calibrate_voltage_body.
    rewrite (next_event_delivers w t e ev Hd).
    unfold is_button1. rewrite Hty. reflexivity.
  - intros w ticks r w' rest H.
    pose proof (calibrate_outcome w ticks) as Hout.
    rewrite H in Hout. destruct Hout as [-> _].
    split; [reflexivity | discriminate].
Qed.

Lemma calibrate_ignores_overtemp_witness :
  (UI.calibrate_offsets_body (Samples.overtemp_event 5) UI.fresh_event
     (Samples.bench 5)
   = Continue {| type := UI_EVENT_OVERTEMP; when := 5; int_arg := 0 |}
       (environment (Samples.overtemp_event 5) (Samples.bench 5)))
  /\ (STATE_MAIN = STATE_MAIN /\ STATE_MAIN <> STATE_OVERTEMP).
Proof.
  split.
  - apply (proj1 calibrate_ignores_overtemp (Samples.bench 5)
             (Samples.overtemp_event 5));
      [split; [reflexivity | vm_compute; discriminate] | reflexivity].
  - apply (proj2 (proj2 calibrate_ignores_overtemp) (Samples.bench 5)
             [Samples.overtemp_event 5; Samples.button 10 1;
              Samples.overtemp_event 12; Samples.button 20 1]
             STATE_MAIN
             (EEPROM_Write_settings
                (set_opamp_offset_trim 4
                   (set_adc_current_offset (-3)
                      (set_adc_voltage_offset 7 Samples.factory_settings)))
                (set_current 0
                   (snd (UI.trim_sweep 32 0 Samples.factory_settings
                           (set_current 100000
                              (environment (Samples.button 20 1)
                                 (set_current 0 (Samples.bench 5))))))))
             []).
    vm_compute. reflexivity.
Defined.

(** ** The menu screen *)

Section MenuFacts.
Import UI.

Variable m : menudata.
Variable n : Z.
Hypothesis Hok : menu_ok m n.

(** Walking down [k] items from [selected] stops at the last captioned
    item. *)
Lemma move_down_spec (k : nat) (selected : Z) :
  0 <= selected <= n - 1 ->
  move_down m k selected = Some (Z.min (n - 1) (selected + Z.of_nat k)).
Proof.
  destruct Hok as (Hn & Hitems & (last & Hlast & Hnull)).
  revert selected. induction k as [|k IH]; intros selected Hsel.
  - simpl. f_equal. lia.
  - cbn [move_down].
    destruct (Z.eq_dec (selected + 1) n) as [Hend | Hmore].
    + rewrite Hend, Hlast, Hnull. f_equal. lia.
    + destruct (Hitems (selected + 1) ltac:(lia)) as (it & c & Hit & Hc).
      rewrite Hit, Hc, IH by lia. f_equal. lia.
Qed.

Lemma menu_updown_spec (delta selected : Z) :
  0 <= selected <= n - 1 ->
  menu_updown m delta selected
  = Some (if delta <? 0 then Z.max 0 (selected + delta)
          else Z.min (n - 1) (selected + delta)).
Proof.
  intros Hsel. unfold menu_updown.
  destruct (delta <? 0) eqn:E.
  - destruct (0 <=? selected + delta) eqn:E0; f_equal.
    + apply Z.leb_le in E0. lia.
    + apply Z.leb_gt in E0. lia.
  - apply Z.ltb_ge in E.
    rewrite move_down_spec by exact Hsel.
    rewrite Z2Nat.id by lia. reflexivity.
Qed.

Lemma menu_updown_in_range (delta selected : Z) :
  0 <= selected <= n - 1 ->
  exists selected',
    menu_updown m delta selected = Some selected'
    /\ 0 <= selected' <= n - 1.
Proof.
  intros Hsel. rewrite menu_updown_spec by exact Hsel.
  eexists; split; [reflexivity|].
  destruct (delta <? 0) eqn:E; [lia | apply Z.ltb_ge in E; lia].
Qed.

(** A pass that stays in the loop keeps the selection on a captioned
    item. *)
Lemma menu_body_in_range (t : tick) (selected : Z) (ev : ui_event) (w : world)
  (selected' : Z) (ev' : ui_event) (w' : world) :
  0 <= selected <= n - 1 ->
  menu_body m t (selected, ev) w = Continue (selected', ev') w' ->
  0 <= selected' <= n - 1.
Proof.
  intros Hsel. unfold menu_body.
  destruct (next_event t ev w) as [e w1].
  destruct (menu_updown_in_range (int_arg e) selected Hsel)
    as (s' & Hs' & Hrange).
  destruct (type e); try rewrite Hs';
    try (destruct (is_button1 e); [destruct (item_at m _)|]);
    intros H; inversion H; subst; assumption.
Qed.

Lemma menu_loop_in_range (ticks : list tick) (selected : Z) (ev : ui_event)
  (w : world) (selected' : Z) (ev' : ui_event) (w' : world) :
  0 <= selected <= n - 1 ->
  loop_after (menu_body m) (selected, ev) w ticks = Some ((selected', ev'), w') ->
  0 <= selected' <= n - 1.
Proof.
  revert selected ev w.
  induction ticks as [|t ticks IH]; intros selected ev w Hsel;
    cbn [loop_after].
  - intros H. inversion H; subst. exact Hsel.
  - destruct (menu_body m t (selected, ev) w) as [[s1 e1] w1| |] eqn:E;
      try discriminate.
    apply IH. eapply menu_body_in_range; eauto.
Qed.


(** The button ends the menu with the selected item's descriptor. *)
Lemma menu_button_selects (t : tick) (e ev : ui_event) (selected : Z)
  (w : world) :
  0 <= selected <= n - 1 ->
  delivers w t e -> type e = UI_EVENT_BUTTONPRESS -> int_arg e = 1 ->
  exists it c,
    item_at m selected = Some it /\ caption it = Some c
    /\ menu_body m t (selected, ev) w = Break (new_state it) (environment t w).
Proof.
  intros Hsel Hd Hty Hid.
  destruct Hok as (_ & Hitems & _).
  destruct (Hitems selected ltac:(lia)) as (it & c & Hit & Hc).
  exists it, c. split; [exact Hit|]. split; [exact Hc|].
  unfold menu_body. rewrite (next_event_delivers w t e ev Hd), Hty.
  unfold is_button1. rewrite Hty, Hid, Hit. reflexivity.
Qed.
End MenuFacts.


Lemma main_menu_ok : UI.menu_ok main_menu 4.
Proof.
  unfold UI.menu_ok. split; [lia|]. split.
  - intros i Hi.
    assert (Hcases : i = 0 \/ i = 1 \/ i = 2 \/ i = 3) by lia.
    destruct Hcases as [-> | [-> | [-> | ->]]];
      eexists; eexists; split; reflexivity.
  - eexists; split; reflexivity.
Qed.


(** * Further properties *)

(** ** Quadrature decoder *)

Section QuadratureMore.
Import Quadrature Facts.

Lemma flush_one_detent (now_ : Z) (s : isr_state) :
  -5 < count s < 5 -> Forall one_detent (snd (flush now_ s)).
Proof.
  intros Hc. unfold flush.
  destruct (4 <=? Z.abs (count s)) eqn:E; simpl; [|constructor].
  apply Z.leb_le in E.
  assert (Hc4 : count s = 4 \/ count s = -4) by lia.
  constructor; [|constructor].
  unfold one_detent; simpl.
  destruct Hc4 as [-> | ->]; simpl; auto.
Qed.

Lemma two_bit_cases (v : Z) :
  0 <= v <= 3 -> v = 0 \/ v = 1 \/ v = 2 \/ v = 3.
Proof. lia. Qed.

Lemma count_cases (c : Z) :
  -4 < c < 4 ->
  c = -3 \/ c = -2 \/ c = -1 \/ c = 0 \/ c = 1 \/ c = 2 \/ c = 3.
Proof. lia. Qed.
End QuadratureMore.

(** X1: from any state between interrupts (in particular the initial one),
    every train of two-bit readings is decoded without leaving the table:
    afterwards the last levels are a two-bit code, the accumulator is
    strictly between -4 and 4, and each event sent is an UP_DOWN of exactly
    one detent, +1 or -1. *)
Theorem decoder_stays_in_range (edges : list (Z * Z))
  (s : Quadrature.isr_state) :
  Quadrature.isr_inv s ->
  Forall (fun p => 0 <= fst p <= 3) edges ->
  exists s' sent,
    Quadrature.isr_run edges s = Some (s', sent)
    /\ Quadrature.isr_inv s'
    /\ Forall Facts.one_detent sent.
Proof.
  revert s. induction edges as [|[levels t] edges IH]; intros s Hs Hall.
  - exists s, []. simpl. auto.
  - inversion Hall as [|p ps Hlv Hrest]; subst. simpl in Hlv.
    cbn [Quadrature.isr_run].
    unfold Quadrature.quadrature_event_isr.
    destruct (isr_preserves_inv levels t s Hs Hlv) as (s1 & sent1 & H1 & Hinv1).
    unfold Quadrature.quadrature_event_isr in H1.
    destruct (Quadrature.edge levels s) as [se|] eqn:E; [|discriminate].
    destruct (edge_count _ _ _ Hs Hlv E) as [_ Hc].
    pose proof (flush_one_detent t se Hc) as Hone.
    inversion H1 as [Hflush]. rewrite Hflush in *. simpl in Hone.
    destruct (IH s1 Hinv1 Hrest) as (s2 & sent2 & H2 & Hinv2 & Hone2).
    rewrite H2. exists s2, (sent1 ++ sent2).
    split; [reflexivity|]. split; [exact Hinv2|].
    apply Forall_app. auto.
Qed.

Lemma decoder_stays_in_range_witness :
  exists s' sent,
    Quadrature.isr_run [(1, 10); (3, 11); (2, 12); (0, 13); (1, 14); (3, 15)]
      Quadrature.isr_init = Some (s', sent)
    /\ Quadrature.isr_inv s'
    /\ Forall Facts.one_detent sent.
Proof.
  apply (decoder_stays_in_range
           [(1, 10); (3, 11); (2, 12); (0, 13); (1, 14); (3, 15)]
           Quadrature.isr_init).
  - unfold Quadrature.isr_inv; simpl; lia.
  - repeat constructor; simpl; lia.
Defined.

(** X2: a reading that is neither the forward nor the backward neighbour
    of the last levels (the same code again, or the opposite code, both bits
    changed) is ignored: the state is unchanged and nothing is sent. *)
Theorem decoder_ignores_glitch (levels t : Z) (s : Quadrature.isr_state) :
  Quadrature.isr_inv s ->
  levels = Quadrature.last_levels s \/ levels + Quadrature.last_levels s = 3 ->
  Quadrature.quadrature_event_isr levels t s = Some (s, []).
Proof.
  intros [Hl Hc] Hg.
  destruct s as [l c]; simpl in *.
  destruct (two_bit_cases l Hl) as [-> | [-> | [-> | ->]]];
    (destruct Hg as [-> | Hg];
     [| assert (levels = 3 \/ levels = 2 \/ levels = 1 \/ levels = 0) as Hv by lia;
        destruct Hv as [-> | [-> | [-> | ->]]]; try lia ]);
    unfold Quadrature.quadrature_event_isr, Quadrature.edge; simpl;
    unfold Quadrature.flush; simpl;
    (destruct (4 <=? Z.abs c) eqn:E; [apply Z.leb_le in E; lia | reflexivity]).
Qed.

Lemma decoder_ignores_glitch_witness :
  Quadrature.quadrature_event_isr 0 10 Quadrature.isr_init
  = Some (Quadrature.isr_init, []).
Proof.
  apply (decoder_ignores_glitch 0 10 Quadrature.isr_init).
  - unfold Quadrature.isr_inv; simpl; lia.
  - right. reflexivity.
Defined.

(** X3: contact bounce does not move the reading: a forward edge followed
    by the edge back to the previous levels restores the last levels, and
    the detents sent on the way plus what the accumulator keeps add up to
    the accumulator before ([4 * detents + count] is unchanged). *)
Theorem decoder_bounce_cancels (t1 t2 : Z) (s : Quadrature.isr_state)
  (forward : Z) :
  Quadrature.isr_inv s ->
  Quadrature.table_at (Quadrature.last_levels s) = Some forward ->
  exists s' sent,
    Quadrature.isr_run [(forward, t1); (Quadrature.last_levels s, t2)] s
    = Some (s', sent)
    /\ Quadrature.last_levels s' = Quadrature.last_levels s
    /\ 4 * Facts.detents sent + Quadrature.count s' = Quadrature.count s.
Proof.
  intros [Hl Hc] Hf.
  destruct s as [l c]; simpl in *.
  destruct (two_bit_cases l Hl) as [-> | [-> | [-> | ->]]];
    vm_compute in Hf; inversion Hf; subst forward;
    destruct (count_cases c Hc) as [-> | [-> | [-> | [-> | [-> | [-> | ->]]]]]];
    eexists; eexists; (split; [vm_compute; reflexivity|]);
    split; reflexivity.
Qed.

Lemma decoder_bounce_cancels_witness :
  exists s' sent,
    Quadrature.isr_run [(2, 10); (3, 11)] (Quadrature.mk_isr 3 3)
    = Some (s', sent)
    /\ Quadrature.last_levels s' = 3
    /\ 4 * Facts.detents sent + Quadrature.count s' = 3.
Proof.
  apply (decoder_bounce_cancels 10 11 (Quadrature.mk_isr 3 3) 2).
  - unfold Quadrature.isr_inv; simpl; lia.
  - reflexivity.
Defined.

(** X4: the backward cycle mirrors the forward one.  With [last_levels = 1]
    and an accumulator [-4 < count <= 0], the four edges 1 -> 0 -> 2 -> 3
    -> 1 send exactly one UP_DOWN event, with [int_arg = -1], and leave the
    accumulator at its starting value. *)
Theorem backward_cycle_one_detent (c t1 t2 t3 t4 : Z) :
  -4 < c <= 0 ->
  exists t,
    Quadrature.isr_run [(0, t1); (2, t2); (3, t3); (1, t4)]
      (Quadrature.mk_isr 1 c)
    = Some (Quadrature.mk_isr 1 c,
            [ {| type := UI_EVENT_UPDOWN; when := t; int_arg := -1 |} ]).
Proof.
  intros Hc.
  assert (Hcases : c = 0 \/ c = -1 \/ c = -2 \/ c = -3) by lia.
  destruct Hcases as [-> | [-> | [-> | ->]]].
  - exists t4. reflexivity.
  - exists t3. reflexivity.
  - exists t2. reflexivity.
  - exists t1. reflexivity.
Qed.

Lemma backward_cycle_one_detent_witness :
  exists t,
    Quadrature.isr_run [(0, 11); (2, 12); (3, 13); (1, 14)]
      (Quadrature.mk_isr 1 (-1))
    = Some (Quadrature.mk_isr 1 (-1),
            [ {| type := UI_EVENT_UPDOWN; when := t; int_arg := -1 |} ]).
Proof.
  apply (backward_cycle_one_detent (-1) 11 12 13 14). lia.
Defined.

(** ** Button debounce *)

Section ButtonFacts.
Import Button.

Variable M : Z.

Lemma tick_sub_exact (a b : Z) : 0 <= b <= a -> a < M -> tick_sub M a b = a - b.
Proof. intros Hab Ha. unfold tick_sub. apply Z.mod_small. lia. Qed.

(** Inside the window after an accepted edge nothing is sent and the
    accepted time stays. *)
Lemma burst_is_silent (burst : list (Z * Z)) (ev : ui_event) :
  0 <= when ev -> when ev + configTICK_RATE_HZ / 10 < M ->
  Forall (fun p => when ev <= snd p <= when ev + configTICK_RATE_HZ / 10)
    burst ->
  snd (button_run M burst ev) = []
  /\ when (fst (button_run M burst ev)) = when ev
  /\ type (fst (button_run M burst ev)) = type ev.
Proof.
  revert ev. induction burst as [|[read t] burst IH]; intros ev H0 HwM Hall.
  - simpl. auto.
  - inversion Hall as [|p ps Ht Hrest]; subst. simpl in Ht.
    cbn [button_run]. unfold button_press_isr. cbn [when type int_arg].
    rewrite tick_sub_exact by lia.
    destruct (configTICK_RATE_HZ / 10 <? t - when ev) eqn:E;
      [apply Z.ltb_lt in E; lia|].
    specialize (IH {| type := type ev; when := when ev; int_arg := read |}
                  H0 HwM Hrest).
    destruct (button_run M burst _) as [ev' sent']. simpl in *.
    exact IH.
Qed.
End ButtonFacts.

(** X5: debounce.  When an edge at tick [t1] comes more than
    [configTICK_RATE_HZ / 10] ticks after the last accepted one, it is sent
    with [when = t1] and the pin value read; every further edge up to and
    including tick [t1 + configTICK_RATE_HZ / 10] is dropped, however many
    there are: the whole burst sends exactly one event.  (Ticks below the
    counter's modulus [M].) *)
Theorem button_debounce (M read t1 : Z) (ev : ui_event)
  (burst : list (Z * Z)) :
  0 <= when ev ->
  when ev + configTICK_RATE_HZ / 10 < t1 ->
  t1 + configTICK_RATE_HZ / 10 < M ->
  Forall (fun p => t1 <= snd p <= t1 + configTICK_RATE_HZ / 10) burst ->
  snd (Button.button_run M ((read, t1) :: burst) ev)
  = [ {| type := type ev; when := t1; int_arg := read |} ]
  /\ when (fst (Button.button_run M ((read, t1) :: burst) ev)) = t1.
Proof.
  intros H0 Hlate HtM Hburst.
  assert (Hhz : 0 <= configTICK_RATE_HZ / 10) by (vm_compute; discriminate).
  cbn [Button.button_run]. unfold Button.button_press_isr.
  cbn [when type int_arg].
  rewrite tick_sub_exact by lia.
  destruct (configTICK_RATE_HZ / 10 <? t1 - when ev) eqn:E;
    [|apply Z.ltb_ge in E; lia].
  pose proof (burst_is_silent M burst
                {| type := type ev; when := t1; int_arg := read |}) as Hs.
  cbn [when type] in Hs.
  specialize (Hs ltac:(lia) HtM Hburst).
  destruct (Button.button_run M burst _) as [ev' sent']. simpl in *.
  destruct Hs as (-> & Hw & _). auto.
Qed.

Lemma button_debounce_witness :
  snd (Button.button_run (2 ^ 32) [(1, 500); (0, 520); (1, 560); (1, 600)]
         Button.isr_event_init)
  = [ {| type := UI_EVENT_BUTTONPRESS; when := 500; int_arg := 1 |} ]
  /\ when (fst (Button.button_run (2 ^ 32)
                  [(1, 500); (0, 520); (1, 560); (1, 600)]
                  Button.isr_event_init)) = 500.
Proof.
  apply (button_debounce (2 ^ 32) 1 500 Button.isr_event_init
           [(0, 520); (1, 560); (1, 600)]).
  - simpl. lia.
  - vm_compute. reflexivity.
  - vm_compute. reflexivity.
  - repeat constructor; vm_compute; discriminate.
Defined.

(** X6: the static event starts with [when = 0], so a button edge in the
    first [configTICK_RATE_HZ / 10] ticks after the scheduler starts is
    dropped like a bounce: nothing is sent and [when] stays 0. *)
Theorem button_dropped_after_boot (M read now_ : Z) :
  configTICK_RATE_HZ / 10 < M ->
  0 <= now_ <= configTICK_RATE_HZ / 10 ->
  Button.button_press_isr M read now_ Button.isr_event_init
  = ({| type := UI_EVENT_BUTTONPRESS; when := 0; int_arg := read |}, []).
Proof.
  intros HM Hnow. unfold Button.button_press_isr, Button.isr_event_init.
  cbn [when type int_arg].
  rewrite (tick_sub_exact M now_ 0) by lia.
  destruct (configTICK_RATE_HZ / 10 <? now_ - 0) eqn:E;
    [apply Z.ltb_lt in E; lia | reflexivity].
Qed.

Lemma button_dropped_after_boot_witness :
  Button.button_press_isr (2 ^ 32) 1 100 Button.isr_event_init
  = ({| type := UI_EVENT_BUTTONPRESS; when := 0; int_arg := 1 |}, []).
Proof.
  apply (button_dropped_after_boot (2 ^ 32) 1 100);
    vm_compute; [reflexivity | split; discriminate].
Defined.

(** ** Event delivery *)

Section WrappingFacts.
Variable M : Z.

(** Where the sum does not wrap, the comparison on [portTickType] is the
    one on the integers. *)
Lemma wrapping_agrees (t : tick) (ev : ui_event) (w : world) :
  0 <= last_tick w ->
  last_tick w + configTICK_RATE_HZ / 10 < M ->
  Wrapping.next_event M t ev w = next_event t ev w.
Proof.
  intros H0 Hsum. unfold Wrapping.next_event, next_event, Wrapping.tick_add.
  rewrite environment_last_tick.
  assert (Hhz : 0 <= configTICK_RATE_HZ / 10) by (vm_compute; discriminate).
  rewrite Z.mod_small by lia. reflexivity.
Qed.

(** Where the sum wraps and the counter has not, the tick is always due. *)
Lemma wrapping_starves_queue (t : tick) (ev : ui_event) (w : world) :
  configTICK_RATE_HZ / 10 < M ->
  last_tick w < M ->
  M <= last_tick w + configTICK_RATE_HZ / 10 ->
  last_tick w <= now t ->
  Wrapping.next_event M t ev w
  = ({| type := UI_EVENT_ADC_READING; when := now t;
        int_arg := int_arg ev |},
     with_last_tick (now t) (environment t w)).
Proof.
  intros HM Hlt Hsum Hnow. unfold Wrapping.next_event, Wrapping.tick_add.
  rewrite environment_last_tick.
  assert (Hhz : configTICK_RATE_HZ / 10 = 100) by reflexivity.
  rewrite Hhz in *.
  assert (Hmod : (last_tick w + 100) mod M = last_tick w + 100 - M).
  { symmetry. apply (Z.mod_unique _ _ 1); lia. }
  rewrite Hmod.
  destruct (last_tick w + 100 - M <? now t) eqn:E;
    [reflexivity | apply Z.ltb_ge in E; lia].
Qed.
End WrappingFacts.

(** X7: [next_event] with its comparison made on the unsigned, wrapping
    [portTickType], the tick counts being below the modulus.  Where the sum
    [last_tick + configTICK_RATE_HZ / 10] does not wrap it is the
    [next_event] of the screens; if moreover the counter has not wrapped
    since the mark, the mark is afterwards at most a tenth of a second
    older than the tick count read, and the block time handed to the queue
    is what is left of that tenth.  Where the sum wraps and the counter has
    not yet, the queue is not consulted at all: whatever it holds, the
    event is ADC_READING, although less than a tenth of a second elapsed.
    Where the counter wrapped since the mark and the sum did not, the queue
    is consulted however old the mark is: a received event is returned with
    the mark left stale, and with more than a tenth of a second elapsed the
    block time handed to the queue is more than a tenth of a second. *)
Theorem next_event_keeps_tick_fresh (M : Z) (t : tick) (ev : ui_event)
  (w : world) :
  configTICK_RATE_HZ / 10 < M ->
  0 <= last_tick w < M -> 0 <= now t < M ->
  (last_tick w + configTICK_RATE_HZ / 10 < M ->
   Wrapping.next_event M t ev w = next_event t ev w
   /\ (last_tick w <= now t ->
       now t - last_tick (snd (Wrapping.next_event M t ev w))
       <= configTICK_RATE_HZ / 10
       /\ (now t <= last_tick w + configTICK_RATE_HZ / 10 ->
           Wrapping.block_time M (now t) (last_tick w)
           = configTICK_RATE_HZ / 10 - (now t - last_tick w))))
  /\ (M <= last_tick w + configTICK_RATE_HZ / 10 ->
      last_tick w <= now t ->
      Wrapping.elapsed M (now t) (last_tick w) < configTICK_RATE_HZ / 10
      /\ Wrapping.next_event M t ev w
         = ({| type := UI_EVENT_ADC_READING; when := now t;
               int_arg := int_arg ev |},
            with_last_tick (now t) (environment t w)))
  /\ (now t < last_tick w ->
      last_tick w + configTICK_RATE_HZ / 10 < M ->
      Wrapping.elapsed M (now t) (last_tick w) = now t - last_tick w + M
      /\ (forall e, rx t = Some e ->
            Wrapping.next_event M t ev w = (e, environment t w)
            /\ last_tick (snd (Wrapping.next_event M t ev w)) = last_tick w)
      /\ (configTICK_RATE_HZ / 10 < Wrapping.elapsed M (now t) (last_tick w) ->
          configTICK_RATE_HZ / 10
          < Wrapping.block_time M (now t) (last_tick w))).
Proof.
  intros HM Hlast Hnow.
  assert (Hhz : configTICK_RATE_HZ / 10 = 100) by reflexivity.
  split; [|split].
  - intros Hsum.
    pose proof (wrapping_agrees M t ev w ltac:(lia) Hsum) as Hagree.
    split; [exact Hagree|].
    intros Hmono. split.
    + rewrite Hagree. unfold next_event. rewrite environment_last_tick.
      destruct (last_tick w + configTICK_RATE_HZ / 10 <? now t) eqn:E.
      * simpl. lia.
      * apply Z.ltb_ge in E.
        destruct (rx t); simpl; rewrite ?environment_last_tick; lia.
    + intros Hfresh.
      unfold Wrapping.block_time, Wrapping.elapsed, Button.tick_sub.
      rewrite Hhz in *.
      rewrite (Z.mod_small (now t - last_tick w)) by lia.
      apply Z.mod_small. lia.
  - intros Hsum Hmono. split.
    + unfold Wrapping.elapsed, Button.tick_sub.
      rewrite Z.mod_small by lia. lia.
    + apply wrapping_starves_queue; lia.
  - intros Hwrapped Hsum.
    assert (Hel : Wrapping.elapsed M (now t) (last_tick w)
                  = now t - last_tick w + M).
    { unfold Wrapping.elapsed, Button.tick_sub.
      symmetry. apply (Z.mod_unique _ _ (-1)); lia. }
    split; [exact Hel|]. split.
    + intros e Hrx.
      rewrite (wrapping_agrees M t ev w ltac:(lia) Hsum).
      unfold next_event. rewrite environment_last_tick.
      destruct (last_tick w + configTICK_RATE_HZ / 10 <? now t) eqn:E;
        [apply Z.ltb_lt in E; lia|].
      rewrite Hrx. simpl. split; [reflexivity | apply environment_last_tick].
    + rewrite Hel. intros Hstale.
      unfold Wrapping.block_time, Button.tick_sub. rewrite Hel.
      rewrite Hhz in *.
      assert (Hmod : (100 - (now t - last_tick w + M)) mod M
                     = 100 - (now t - last_tick w + M) + M).
      { symmetry. apply (Z.mod_unique _ _ (-1)); lia. }
      rewrite Hmod. lia.
Qed.

(** A 32-bit counter 50 ticks short of its wrap, the mark 40 ticks old and
    a button press in the queue: the press is not fetched. *)
Lemma next_event_keeps_tick_fresh_witness :
  Wrapping.elapsed (2 ^ 32) (2 ^ 32 - 10) (2 ^ 32 - 50)
  < configTICK_RATE_HZ / 10
  /\ Wrapping.next_event (2 ^ 32)
       (Samples.button (2 ^ 32 - 10) 1) UI.fresh_event
       (with_last_tick (2 ^ 32 - 50) (Samples.bench 5))
     = ({| type := UI_EVENT_ADC_READING; when := 2 ^ 32 - 10;
           int_arg := 0 |},
        with_last_tick (2 ^ 32 - 10)
          (environment (Samples.button (2 ^ 32 - 10) 1)
             (with_last_tick (2 ^ 32 - 50) (Samples.bench 5)))).
Proof.
  apply (proj1 (proj2 (next_event_keeps_tick_fresh (2 ^ 32)
                         (Samples.button (2 ^ 32 - 10) 1) UI.fresh_event
                         (with_last_tick (2 ^ 32 - 50) (Samples.bench 5))
                         ltac:(vm_compute; reflexivity)
                         ltac:(vm_compute; split; [discriminate | reflexivity])
                         ltac:(vm_compute; split; [discriminate | reflexivity]))));
    vm_compute; discriminate.
Defined.

(** ** Formatter *)

Section FormatterMore.
Import Formatter.

Lemma scale_small (fuel : nat) (num magnitude : Z) :
  num < 1000000 -> scale fuel num magnitude = (num, magnitude).
Proof.
  intros H. destruct fuel as [|fuel]; simpl; [reflexivity|].
  destruct (1000000 <=? num) eqn:E; [apply Z.leb_le in E; lia | reflexivity].
Qed.




Lemma sprintf_d_digits (n : Z) :
  0 <= n < 1000 ->
  (n < 10 -> sprintf_d false 1 n = String (digit n) EmptyString)
  /\ (n < 100 ->
      sprintf_d true 2 n
      = String (digit (n / 10)) (String (digit (n mod 10)) EmptyString))
  /\ sprintf_d true 3 n
     = String (digit (n / 100))
         (String (digit (n / 10 mod 10))
            (String (digit (n mod 10)) EmptyString)).
Proof.
  intros Hn.
  pose (P := fun n =>
    ((10 <=? n)
     || String.eqb (sprintf_d false 1 n) (String (digit n) EmptyString))
    && ((100 <=? n)
        || String.eqb (sprintf_d true 2 n)
             (String (digit (n / 10)) (String (digit (n mod 10)) EmptyString)))
    && String.eqb (sprintf_d true 3 n)
         (String (digit (n / 100))
            (String (digit (n / 10 mod 10))
               (String (digit (n mod 10)) EmptyString)))).
  assert (HP : P n = true).
  { apply (checked_below P 1000); [vm_compute; reflexivity | exact Hn]. }
  unfold P in HP.
  apply andb_prop in HP. destruct HP as [HP H3].
  apply andb_prop in HP. destruct HP as [H1 H2].
  apply String.eqb_eq in H3.
  split; [|split].
  - intros Hlt. apply orb_prop in H1. destruct H1 as [H1 | H1].
    + apply Z.leb_le in H1. lia.
    + now apply String.eqb_eq in H1.
  - intros Hlt. apply orb_prop in H2. destruct H2 as [H2 | H2].
    + apply Z.leb_le in H2. lia.
    + now apply String.eqb_eq in H2.
  - exact H3.
Qed.
End FormatterMore.

(** X8: below one million micro-units the value is printed in milli-units,
    truncated (never rounded) to three significant positions: [d.dd] below
    10 000, [dd.d] below 100 000, [ddd] from there on, followed by [m] and
    the suffix. *)
Theorem format_number_milli (v : Z) (s : ascii) :
  0 <= v < 1000000 ->
  Formatter.format_number v s
  = Formatter.strcat
      (if v <? 10000 then
         String (Formatter.digit (v / 1000))
           (String "."%char
              (String (Formatter.digit (v / 100 mod 10))
                 (String (Formatter.digit (v / 10 mod 10)) EmptyString)))
       else if v <? 100000 then
         String (Formatter.digit (v / 10000))
           (String (Formatter.digit (v / 1000 mod 10))
              (String "."%char
                 (String (Formatter.digit (v / 100 mod 10)) EmptyString)))
       else
         String (Formatter.digit (v / 100000))
           (String (Formatter.digit (v / 10000 mod 10))
              (String (Formatter.digit (v / 1000 mod 10)) EmptyString)))
      ["m"%char; s; zero].
Proof.
  intros Hv. unfold Formatter.format_number.
  destruct (v <? 0) eqn:E0; [apply Z.ltb_lt in E0; lia|].
  rewrite scale_small by lia.
  change (1 =? 1) with true. cbv iota.
  rewrite Z.quot_div_nonneg, Z.rem_mod_nonneg by lia.
  assert (Hw : 0 <= v / 1000 < 1000)
    by (split; [apply Z.div_pos; lia | apply Z.div_lt_upper_bound; lia]).
  pose proof (Z.mod_pos_bound v 1000 ltac:(lia)) as Hr.
  rewrite !Z.quot_div_nonneg by lia.
  assert (Hr10 : 0 <= v mod 1000 / 10 < 100)
    by (split; [apply Z.div_pos; lia | apply Z.div_lt_upper_bound; lia]).
  assert (Hr100 : 0 <= v mod 1000 / 100 < 10)
    by (split; [apply Z.div_pos; lia | apply Z.div_lt_upper_bound; lia]).
  destruct (sprintf_d_digits (v / 1000) Hw) as (W1 & W2 & W3).
  destruct (sprintf_d_digits (v mod 1000 / 10) ltac:(lia)) as (_ & R2 & _).
  destruct (sprintf_d_digits (v mod 1000 / 100) ltac:(lia)) as (R1 & _ & _).
  f_equal.
  destruct (v <? 10000) eqn:E4.
  - apply Z.ltb_lt in E4.
    assert (Hlt : v / 1000 < 10) by (apply Z.div_lt_upper_bound; lia).
    assert (Hb : (v / 1000 <? 10) = true) by (apply Z.ltb_lt; exact Hlt).
    rewrite Hb, (W1 Hlt), (R2 ltac:(lia)).
    replace (v mod 1000 / 10 / 10) with (v / 100 mod 10)
      by (Z.div_mod_to_equations; lia).
    replace ((v mod 1000 / 10) mod 10) with (v / 10 mod 10)
      by (Z.div_mod_to_equations; lia).
    reflexivity.
  - apply Z.ltb_ge in E4.
    assert (Hge : 10 <= v / 1000) by (apply Z.div_le_lower_bound; lia).
    assert (Hb : (v / 1000 <? 10) = false) by (apply Z.ltb_ge; exact Hge).
    rewrite Hb.
    destruct (v <? 100000) eqn:E5.
    + apply Z.ltb_lt in E5.
      assert (Hlt : v / 1000 < 100) by (apply Z.div_lt_upper_bound; lia).
      assert (Hb2 : (v / 1000 <? 100) = true) by (apply Z.ltb_lt; exact Hlt).
      rewrite Hb2, (W2 Hlt), (R1 ltac:(lia)).
      replace (v / 1000 / 10) with (v / 10000)
        by (Z.div_mod_to_equations; lia).
      replace (v mod 1000 / 100) with (v / 100 mod 10)
        by (Z.div_mod_to_equations; lia).
      reflexivity.
    + apply Z.ltb_ge in E5.
      assert (Hge2 : 100 <= v / 1000) by (apply Z.div_le_lower_bound; lia).
      assert (Hb2 : (v / 1000 <? 100) = false) by (apply Z.ltb_ge; exact Hge2).
      rewrite Hb2, W3.
      replace (v / 1000 / 100) with (v / 100000)
        by (Z.div_mod_to_equations; lia).
      replace ((v / 1000 / 10) mod 10) with (v / 10000 mod 10)
        by (Z.div_mod_to_equations; lia).
      reflexivity.
Qed.

Lemma format_number_milli_witness :
  Formatter.format_number 1999 "A"%char = "1.99mA"%string.
Proof.
  apply (format_number_milli 1999 "A"%char). lia.
Defined.

(** X9: a negative value is clamped to zero, and everything below ten
    micro-units is below the last printed position: for every [v < 10],
    negative or not, the text is [0.00m] followed by the suffix. *)
Theorem format_number_clamps (v : Z) (s : ascii) :
  v < 10 ->
  Formatter.format_number v s
  = Formatter.strcat "0.00" ["m"%char; s; zero].
Proof.
  intros Hv. unfold Formatter.format_number.
  destruct (v <? 0) eqn:E.
  - reflexivity.
  - apply Z.ltb_ge in E.
    assert (Hcases : v = 0 \/ v = 1 \/ v = 2 \/ v = 3 \/ v = 4 \/ v = 5
                     \/ v = 6 \/ v = 7 \/ v = 8 \/ v = 9) by lia.
    destruct Hcases as [-> | [-> | [-> | [-> | [-> | [-> | [-> | [-> | [-> | ->]]]]]]]]];
      reflexivity.
Qed.

Lemma format_number_clamps_witness :
  Formatter.format_number (-123456) "V"%char
  = Formatter.strcat "0.00" ["m"%char; "V"%char; zero].
Proof.
  apply (format_number_clamps (-123456) "V"%char). lia.
Defined.



(** ** Readouts *)

(** X11: [print_power] divides both readings by 1000 before multiplying:
    when the current is below 1 mA or the voltage below 1 mV in magnitude,
    the product is zero and the power reads "0.00mW", whatever the other
    reading is. *)
Theorem print_power_underflow (current voltage : Z) :
  Z.abs current < 1000 \/ Z.abs voltage < 1000 ->
  Readouts.print_power current voltage = "0.00mW"%string.
Proof.
  intros H. unfold Readouts.print_power.
  assert (Hz : Z.quot current 1000 * Z.quot voltage 1000 = 0).
  { destruct H as [H | H].
    - assert (Z.quot current 1000 = 0) as ->; [|lia].
      apply Z.quot_small_iff; lia.
    - assert (Z.quot voltage 1000 = 0) as ->; [|lia].
      apply Z.quot_small_iff; lia. }
  rewrite Hz. reflexivity.
Qed.

Lemma print_power_underflow_witness :
  Readouts.print_power 999 30000000 = "0.00mW"%string.
Proof.
  apply (print_power_underflow 999 30000000). left. simpl. lia.
Defined.

(** ** Screens *)

Section ScreenMore.
Import UI Facts ScreenFacts.

(** A loop whose passes keep an invariant of the loop variables and the
    world, and establish [Q] when they leave the loop. *)
Lemma run_loop_inv {L A : Type} (body : tick -> L -> world -> step_out L A)
  (I : L -> world -> Prop) (Q : A -> world -> Prop) :
  (forall t l w, I l w ->
     match body t l w with
     | Continue l' w' => I l' w'
     | Break a w' => Q a w'
     | Crash => False
     end) ->
  forall ticks l w, I l w ->
    match run_loop body l w ticks with
    | Ret a w' _ => Q a w'
    | Starved w' => exists l', I l' w'
    | Undefined => False
    end.
Proof.
  intros Hbody ticks. induction ticks as [|t ticks IH]; intros l w Hl.
  - simpl. exists l. exact Hl.
  - cbn [run_loop]. specialize (Hbody t l w Hl).
    destruct (body t l w); [apply IH; exact Hbody | exact Hbody | exact Hbody].
Qed.

Lemma only_waited_refl (w : world) : only_waited w w.
Proof. unfold only_waited. auto. Qed.

Lemma only_waited_next_event (w0 w : world) (t : tick) (ev : ui_event) :
  only_waited w0 w -> only_waited w0 (snd (next_event t ev w)).
Proof.
  intros (Hs & Hset & Hr & He).
  pose proof (next_event_frame t ev w) as (Fs & Fset & Fr & Fe & _).
  simpl in *. unfold only_waited. repeat split; congruence.
Qed.

Lemma only_set_current_refl (w : world) : only_set_current w w.
Proof.
  unfold only_set_current. repeat split.
  exists []. rewrite app_nil_r. auto.
Qed.

Lemma only_set_current_next_event (w0 w : world) (t : tick) (ev : ui_event) :
  only_set_current w0 w -> only_set_current w0 (snd (next_event t ev w)).
Proof.
  intros (Hset & Hr & Hc).
  pose proof (next_event_frame t ev w) as (_ & Fset & Fr & Fe & _).
  simpl in *. unfold only_set_current. rewrite Fset, Fr, Fe. auto.
Qed.

Lemma only_set_current_adjust (w0 w : world) (delta : Z) :
  only_set_current w0 w ->
  only_set_current w0 (adjust_current_setpoint delta w).
Proof.
  intros (Hset & Hr & calls & Hc & Hall).
  unfold adjust_current_setpoint.
  destruct (current_range (state w) =? 0);
    (split; [exact Hset|]; split; [exact Hr|];
     eexists (calls ++ [_]); simpl; rewrite Hc, app_assoc;
     split; [reflexivity|];
     apply Forall_app; split; [exact Hall|];
     constructor; [eexists; reflexivity | constructor]).
Qed.

(** What a run of [cc_load] comes to. *)
Lemma cc_load_outcome (w : world) (ticks : list tick) :
  match cc_load w ticks with
  | Ret r w' _ =>
      (r = STATE_MAIN_MENU \/ r = STATE_OVERTEMP) /\ only_set_current w w'
  | Starved w' => only_set_current w w'
  | Undefined => False
  end.
Proof.
  unfold cc_load.
  pose proof (run_loop_inv cc_load_body
                (fun _ w' => only_set_current w w')
                (fun r w' => (r = STATE_MAIN_MENU \/ r = STATE_OVERTEMP)
                             /\ only_set_current w w')) as H.
  assert (Hbody : forall t l w1, only_set_current w w1 ->
            match cc_load_body t l w1 with
            | Continue _ w' => only_set_current w w'
            | Break r w' => (r = STATE_MAIN_MENU \/ r = STATE_OVERTEMP)
                            /\ only_set_current w w'
            | Crash => False
            end).
  { intros t l w1 Hw1.
    apply (only_set_current_next_event w w1 t l) in Hw1.
    unfold cc_load_body.
    destruct (next_event t l w1) as [e w2]; simpl in Hw1.
    destruct (type e); try exact Hw1.
    - destruct (int_arg e =? 1); [auto|].
      now apply only_set_current_adjust.
    - now apply only_set_current_adjust.
    - auto. }
  specialize (H Hbody ticks fresh_event w (only_set_current_refl w)).
  destruct (run_loop cc_load_body fresh_event w ticks); auto.
  destruct H as [_ H]. exact H.
Qed.

(** What a run of [menu] comes to, for a menu laid out as [menu_ok]
    says. *)
Lemma menu_outcome (m : menudata) (n : Z) (w : world) (ticks : list tick) :
  menu_ok m n ->
  match menu m w ticks with
  | Ret r w' _ => only_waited w w' /\ (r = STATE_OVERTEMP \/ picks m n r)
  | Starved w' => only_waited w w'
  | Undefined => False
  end.
Proof.
  intros Hok. unfold menu.
  pose proof (run_loop_inv (menu_body m)
                (fun l w' => 0 <= fst l <= n - 1 /\ only_waited w w')
                (fun r w' => only_waited w w'
                             /\ (r = STATE_OVERTEMP \/ picks m n r))) as H.
  assert (Hbody : forall t l w1,
            0 <= fst l <= n - 1 /\ only_waited w w1 ->
            match menu_body m t l w1 with
            | Continue l' w' => 0 <= fst l' <= n - 1 /\ only_waited w w'
            | Break r w' => only_waited w w'
                            /\ (r = STATE_OVERTEMP \/ picks m n r)
            | Crash => False
            end).
  { intros t [sel ev] w1 [Hsel Hw1]. simpl in Hsel.
    apply (only_waited_next_event w w1 t ev) in Hw1.
    unfold menu_body.
    destruct (next_event t ev w1) as [e w2]; simpl in Hw1.
    destruct (menu_updown_in_range m n Hok (int_arg e) sel Hsel)
      as (s' & Hs' & Hrange).
    pose proof Hok as (_ & Hitems & _).
    assert (Hfin : forall s0, 0 <= s0 <= n - 1 ->
              match (if is_button1 e
                     then match item_at m s0 with
                          | Some it => Break (new_state it) w2
                          | None => Crash
                          end
                     else Continue (s0, e) w2) with
              | Continue l' w' => 0 <= fst l' <= n - 1 /\ only_waited w w'
              | Break r w' => only_waited w w'
                              /\ (r = STATE_OVERTEMP \/ picks m n r)
              | Crash => False
              end).
    { intros s0 Hs0. destruct (is_button1 e); [|simpl; auto].
      destruct (Hitems s0 ltac:(lia)) as (it & c & Hit & Hc).
      rewrite Hit. split; [exact Hw1|]. right.
      exists s0, it, c. auto. }
    destruct (type e); try rewrite Hs'; try (apply Hfin; assumption).
    auto. }
  assert (H0 : 0 <= fst (0, fresh_event) <= n - 1 /\ only_waited w w).
  { simpl. destruct Hok. split; [lia | apply only_waited_refl]. }
  specialize (H Hbody ticks (0, fresh_event) w H0).
  destruct (run_loop (menu_body m) (0, fresh_event) w ticks); auto.
  destruct H as [_ [_ H]]. exact H.
Qed.
End ScreenMore.

Section ScreenOutcomes.
Import UI Facts ScreenFacts.


Lemma contrast_calls_write_nothing (calls : list effect) :
  Forall shows_contrast calls -> persisted_writes calls = [].
Proof.
  induction calls as [|e calls IH]; intros Hall; [reflexivity|].
  inversion Hall as [|e' calls' Hex Hrest]; subst.
  destruct Hex as (z & -> & _).
  unfold persisted_writes in *. simpl. apply IH. exact Hrest.
Qed.

(** What a run of [set_contrast] comes to. *)
Lemma set_contrast_outcome (w : world) (ticks : list tick) :
  match set_contrast w ticks with
  | Ret r w' _ =>
      state w' = state w /\ cc_readouts w' = cc_readouts w
      /\ exists calls,
           Forall shows_contrast calls
           /\ ((r = STATE_OVERTEMP /\ settings w' = settings w
                /\ effects w' = effects w ++ calls)
               \/ (r = STATE_MAIN
                   /\ exists c,
                        contrast_shown (lcd_contrast (settings w)) c calls
                        /\ settings w' = set_lcd_contrast c (settings w)
                        /\ effects w'
                           = effects w ++ calls ++ [E_EEPROM_Write_contrast c]))
  | Starved w' =>
      state w' = state w /\ cc_readouts w' = cc_readouts w
      /\ settings w' = settings w
      /\ exists calls,
           Forall shows_contrast calls /\ effects w' = effects w ++ calls
  | Undefined => False
  end.
Proof.
  unfold set_contrast.
  set (init := lcd_contrast (settings w)).
  pose (I := fun (l : Z * ui_event) (w' : world) =>
    state w' = state w /\ cc_readouts w' = cc_readouts w
    /\ settings w' = settings w
    /\ exists calls,
         Forall shows_contrast calls /\ effects w' = effects w ++ calls
         /\ contrast_shown init (fst l) calls).
  pose (Q := fun (r : state_func) (w' : world) =>
    state w' = state w /\ cc_readouts w' = cc_readouts w
    /\ exists calls,
         Forall shows_contrast calls
         /\ ((r = STATE_OVERTEMP /\ settings w' = settings w
              /\ effects w' = effects w ++ calls)
             \/ (r = STATE_MAIN
                 /\ exists c,
                      contrast_shown init c calls
                      /\ settings w' = set_lcd_contrast c (settings w)
                      /\ effects w'
                         = effects w ++ calls ++ [E_EEPROM_Write_contrast c]))).
  assert (Hbody : forall t l w1, I l w1 ->
            match set_contrast_body t l w1 with
            | Continue l' w' => I l' w'
            | Break r w' => Q r w'
            | Crash => False
            end).
  { intros t [c ev] w1 (Hs & Hr & Hset & calls & Hall & He & Hshown).
    simpl in Hshown.
    pose proof (next_event_frame t ev w1) as (Fs & Fset & Fr & Fe & _).
    unfold set_contrast_body.
    destruct (next_event t ev w1) as [e w2]; simpl in Fs, Fset, Fr, Fe.
    assert (Hkeep : I (c, e) w2).
    { unfold I. simpl. repeat split; try congruence.
      exists calls. repeat split; auto. congruence. }
    destruct (type e); try exact Hkeep.
    - destruct (int_arg e =? 1); [|exact Hkeep].
      unfold Q, EEPROM_Write_contrast. simpl.
      split; [congruence|]. split; [congruence|].
      exists calls. split; [exact Hall|]. right.
      split; [reflexivity|]. exists c.
      split; [exact Hshown|]. split; [congruence|].
      rewrite Fe, He, app_assoc. reflexivity.
    - set (c' := if 63 <? c + int_arg e then 63
                 else if c + int_arg e <? 0 then 0 else c + int_arg e).
      assert (Hc' : 0 <= c' <= 63).
      { unfold c'. destruct (63 <? c + int_arg e) eqn:E1; [lia|].
        apply Z.ltb_ge in E1.
        destruct (c + int_arg e <? 0) eqn:E2; [lia|].
        apply Z.ltb_ge in E2. lia. }
      unfold I. simpl. split; [congruence|]. split; [congruence|].
      split; [congruence|].
      exists (calls ++ [E_Display_SetContrast c']).
      split; [|split].
      + apply Forall_app. split; [exact Hall|].
        constructor; [|constructor]. exists c'. auto.
      + rewrite Fe, He, app_assoc. reflexivity.
      + right. exists calls. reflexivity.
    - unfold Q. split; [congruence|]. split; [congruence|].
      exists calls. split; [exact Hall|]. left.
      repeat split; congruence. }
  assert (H0 : I (init, fresh_event) w).
  { unfold I. simpl. repeat split.
    exists []. rewrite app_nil_r. repeat split; [constructor|].
    left. auto. }
  pose proof (run_loop_inv set_contrast_body I Q Hbody ticks
                (init, fresh_event) w H0) as H.
  destruct (run_loop set_contrast_body (init, fresh_event) w ticks);
    [exact H | | exact H].
  destruct H as (l' & Hs & Hr & Hset & calls & Hall & He & _).
  repeat split; auto. exists calls. auto.
Qed.

(** What a run of [overtemp] leaves alone. *)
Lemma overtemp_outcome (w : world) (ticks : list tick) :
  match overtemp w ticks with
  | Ret r w' _ =>
      r = STATE_MAIN /\ cc_readouts w' = cc_readouts w
      /\ settings w' = settings w
  | Starved w' => cc_readouts w' = cc_readouts w /\ settings w' = settings w
  | Undefined => False
  end.
Proof.
  unfold overtemp.
  pose (I := fun (_ : ui_event) (w' : world) =>
    cc_readouts w' = cc_readouts w /\ settings w' = settings w).
  pose (Q := fun (r : state_func) (w' : world) =>
    r = STATE_MAIN /\ cc_readouts w' = cc_readouts w
    /\ settings w' = settings w).
  assert (Hbody : forall t l w1, I l w1 ->
            match overtemp_body t l w1 with
            | Continue l' w' => I l' w'
            | Break r w' => Q r w'
            | Crash => False
            end).
  { intros t ev w1 [Hr Hset].
    pose proof (next_event_frame t ev w1) as (_ & Fset & Fr & _ & _).
    unfold overtemp_body.
    destruct (next_event t ev w1) as [e w2]; simpl in Fset, Fr.
    destruct (output_mode_eqb (get_output_mode w2) OUTPUT_MODE_FEEDBACK).
    - unfold Q. repeat split; congruence.
    - destruct (is_button1 e).
      + unfold Q. simpl. repeat split; congruence.
      + unfold I. split; congruence. }
  pose proof (run_loop_inv overtemp_body I Q Hbody ticks fresh_event w
                (conj eq_refl eq_refl)) as H.
  destruct (run_loop overtemp_body fresh_event w ticks);
    [exact H | | exact H].
  destruct H as (l' & H). exact H.
Qed.
End ScreenOutcomes.

Section ReadoutConfig.
Import UI Facts ScreenFacts.

(** Writing slot [i] of a list long enough: the slot reads back the value
    written, the other slots and the length are as before. *)
Lemma list_set_spec (l : list Z) (i : nat) (v : Z) :
  (i < List.length l)%nat ->
  exists l',
    list_set l i v = Some l'
    /\ List.length l' = List.length l
    /\ nth_error l' i = Some v
    /\ forall j, j <> i -> nth_error l' j = nth_error l j.
Proof.
  revert i. induction l as [|h l IH]; intros i Hi; simpl in Hi; [lia|].
  destruct i as [|i]; simpl.
  - exists (v :: l). repeat split; auto.
    intros [|j] Hj; [congruence | reflexivity].
  - destruct (IH i ltac:(lia)) as (l' & Hset & Hlen & Hnth & Hother).
    rewrite Hset. exists (h :: l'). simpl.
    repeat split; auto.
    intros [|j] Hj; [reflexivity | apply Hother; congruence].
Qed.

Lemma choose_readout_menu_ok : menu_ok choose_readout_menu 3.
Proof.
  unfold menu_ok. split; [lia|]. split.
  - intros i Hi.
    assert (Hcases : i = 0 \/ i = 1 \/ i = 2) by lia.
    destruct Hcases as [-> | [-> | ->]];
      eexists; eexists; split; reflexivity.
  - eexists; split; reflexivity.
Qed.

Lemma set_readout_menu_ok : menu_ok set_readout_menu 6.
Proof.
  unfold menu_ok. split; [lia|]. split.
  - intros i Hi.
    assert (Hcases : i = 0 \/ i = 1 \/ i = 2 \/ i = 3 \/ i = 4 \/ i = 5)
      by lia.
    destruct Hcases as [-> | [-> | [-> | [-> | [-> | ->]]]]];
      eexists; eexists; split; reflexivity.
  - eexists; split; reflexivity.
Qed.

Lemma picks_choose_readout (r : state_func) :
  picks choose_readout_menu 3 r ->
  exists slot, 0 <= slot <= 2 /\ r = mk_state_func None (P_int slot) 0.
Proof.
  intros (i & it & c & Hi & Hit & _ & ->).
  assert (Hcases : i = 0 \/ i = 1 \/ i = 2) by lia.
  destruct Hcases as [-> | [-> | ->]]; vm_compute in Hit;
    inversion Hit; subst; eexists; (split; [|reflexivity]); lia.
Qed.

Lemma picks_set_readout (r : state_func) :
  picks set_readout_menu 6 r ->
  exists kind, 0 <= kind <= 5 /\ r = mk_state_func None (P_int kind) 0.
Proof.
  intros (i & it & c & Hi & Hit & _ & ->).
  assert (Hcases : i = 0 \/ i = 1 \/ i = 2 \/ i = 3 \/ i = 4 \/ i = 5) by lia.
  destruct Hcases as [-> | [-> | [-> | [-> | [-> | ->]]]]]; vm_compute in Hit;
    inversion Hit; subst; eexists; (split; [|reflexivity]); vm_compute;
    split; discriminate.
Qed.

Lemma picks_main_menu (r : state_func) :
  picks main_menu 4 r ->
  r = STATE_CC_LOAD \/ r = STATE_CONFIGURE_CC_DISPLAY
  \/ r = STATE_SET_CONTRAST \/ r = STATE_CALIBRATE.
Proof.
  intros (i & it & c & Hi & Hit & _ & ->).
  assert (Hcases : i = 0 \/ i = 1 \/ i = 2 \/ i = 3) by lia.
  destruct Hcases as [-> | [-> | [-> | ->]]]; vm_compute in Hit;
    inversion Hit; subst; auto.
Qed.

(** What a run of [display_config] on the CC display configuration comes
    to, the configuration having its three slots. *)
Lemma display_config_outcome (w : world) (ticks : list tick) :
  List.length (cc_readouts w) = 3%nat ->
  match display_config P_display_settings_cc w ticks with
  | Ret r w' _ =>
      state w' = state w /\ settings w' = settings w
      /\ ((r = STATE_OVERTEMP /\ cc_readouts w' = cc_readouts w
           /\ effects w' = effects w)
          \/ (r = STATE_MAIN
              /\ exists slot kind,
                   0 <= slot <= 2 /\ 0 <= kind <= 5
                   /\ list_set (cc_readouts w) (Z.to_nat slot) kind
                      = Some (cc_readouts w')
                   /\ effects w'
                      = effects w ++ [E_EEPROM_Write_readout slot kind]))
  | Starved w' => only_waited w w'
  | Undefined => False
  end.
Proof.
  intros Hlen. unfold display_config.
  pose proof (menu_outcome choose_readout_menu 3 w ticks
                choose_readout_menu_ok) as H1.
  destruct (menu choose_readout_menu w ticks) as [display w1 rest1 | w1 |];
    simpl; [| exact H1 | exact H1].
  destruct H1 as [(Hs1 & Hset1 & Hr1 & He1) [-> | Hpick1]].
  { simpl. repeat split; auto. }
  destruct (picks_choose_readout display Hpick1) as (slot & Hslot & ->).
  simpl.
  pose proof (menu_outcome set_readout_menu 6 w1 rest1 set_readout_menu_ok)
    as H2.
  destruct (menu set_readout_menu w1 rest1) as [readout w2 rest2 | w2 |];
    simpl; [| | exact H2].
  - destruct H2 as [(Hs2 & Hset2 & Hr2 & He2) [-> | Hpick2]].
    { simpl. split; [congruence|]. split; [congruence|]. left.
      repeat split; congruence. }
    destruct (picks_set_readout readout Hpick2) as (kind & Hkind & ->).
    simpl. unfold EEPROM_Write_readout.
    destruct (slot <? 0) eqn:E; [apply Z.ltb_lt in E; lia|].
    destruct (list_set_spec (cc_readouts w2) (Z.to_nat slot) kind)
      as (l' & Hl' & _); [rewrite Hr2, Hr1, Hlen; lia|].
    rewrite Hl'. simpl.
    split; [congruence|]. split; [congruence|]. right.
    split; [reflexivity|]. exists slot, kind.
    repeat split; try lia.
    + rewrite <- Hr1, <- Hr2. exact Hl'.
    + congruence.
  - destruct H2 as (Hs2 & Hset2 & Hr2 & He2).
    unfold only_waited. repeat split; congruence.
Qed.
End ReadoutConfig.

(** X13: a menu laid out with [n >= 1] captioned items before the null
    caption never reads outside its items, makes no call and changes
    neither the live state nor the persisted records; when it returns, it
    is with the overtemp descriptor or with the descriptor of one of its
    [n] captioned items. *)
Theorem menu_returns_captioned_item (m : menudata) (n : Z) (w : world)
  (ticks : list tick) :
  UI.menu_ok m n ->
  match UI.menu m w ticks with
  | Ret r w' _ =>
      state w' = state w /\ settings w' = settings w
      /\ cc_readouts w' = cc_readouts w /\ effects w' = effects w
      /\ (r = STATE_OVERTEMP
          \/ exists i it c,
               0 <= i <= n - 1 /\ UI.item_at m i = Some it
               /\ caption it = Some c /\ r = new_state it)
  | Starved w' =>
      state w' = state w /\ settings w' = settings w
      /\ cc_readouts w' = cc_readouts w /\ effects w' = effects w
  | Undefined => False
  end.
Proof.
  intros Hok.
  pose proof (menu_outcome m n w ticks Hok) as H.
  destruct (UI.menu m w ticks) as [r w' rest | w' |].
  - destruct H as [(Hs & Hset & Hr & He) Hpick].
    repeat split; auto.
  - destruct H as (Hs & Hset & Hr & He). auto.
  - exact H.
Qed.

Lemma menu_returns_captioned_item_witness :
  match UI.menu main_menu (Samples.bench 5)
          [Samples.updown 10 2; Samples.idle 200; Samples.button 210 1] with
  | Ret r w' _ =>
      state w' = state (Samples.bench 5)
      /\ settings w' = settings (Samples.bench 5)
      /\ cc_readouts w' = cc_readouts (Samples.bench 5)
      /\ effects w' = effects (Samples.bench 5)
      /\ (r = STATE_OVERTEMP
          \/ exists i it c,
               0 <= i <= 4 - 1 /\ UI.item_at main_menu i = Some it
               /\ caption it = Some c /\ r = new_state it)
  | Starved w' =>
      state w' = state (Samples.bench 5)
      /\ settings w' = settings (Samples.bench 5)
      /\ cc_readouts w' = cc_readouts (Samples.bench 5)
      /\ effects w' = effects (Samples.bench 5)
  | Undefined => False
  end.
Proof.
  apply (menu_returns_captioned_item main_menu 4 (Samples.bench 5)
           [Samples.updown 10 2; Samples.idle 200; Samples.button 210 1]
           main_menu_ok).
Defined.

Section ReadoutChoice.
Import UI Facts ScreenFacts.

(** The button pressed with the selection on item [i] makes the menu return
    that item's descriptor. *)
Lemma menu_returns_selected (m : menudata) (n : Z) (w : world)
  (pre : list tick) (i : Z) (ev1 : ui_event) (w1 : world) (t : tick)
  (e : ui_event) (rest : list tick) :
  menu_ok m n ->
  loop_after (menu_body m) (0, fresh_event) w pre = Some ((i, ev1), w1) ->
  delivers w1 t e -> is_button1 e = true ->
  0 <= i <= n - 1
  /\ exists it c,
       item_at m i = Some it /\ caption it = Some c
       /\ menu m w (pre ++ t :: rest)
          = Ret (new_state it) (environment t w1) rest.
Proof.
  intros Hok Hafter Hd Hbutton.
  assert (Hn : 0 <= 0 <= n - 1) by (destruct Hok; lia).
  pose proof (menu_loop_in_range m n Hok _ _ _ _ _ _ _ Hn Hafter) as Hsel.
  split; [exact Hsel|].
  apply is_button1_spec in Hbutton. destruct Hbutton as [Hty Hid].
  destruct (menu_button_selects m n Hok t e ev1 i w1 Hsel Hd Hty Hid)
    as (it & c & Hit & Hc & Hbody).
  exists it, c. split; [exact Hit|]. split; [exact Hc|].
  unfold menu.
  rewrite (run_loop_app _ _ _ _ _ _ _ Hafter). cbn [run_loop].
  rewrite Hbody. reflexivity.
Qed.

(** Item [i] of the slot menu carries slot [i]. *)
Lemma choose_readout_item (i : Z) (it : menuitem) :
  0 <= i <= 2 -> item_at choose_readout_menu i = Some it ->
  new_state it = mk_state_func None (P_int i) 0.
Proof.
  intros Hi Hit.
  assert (Hcases : i = 0 \/ i = 1 \/ i = 2) by lia.
  destruct Hcases as [-> | [-> | ->]]; vm_compute in Hit;
    inversion Hit; reflexivity.
Qed.

(** Item [j] of the readout menu carries its readout kind. *)
Lemma set_readout_item (j : Z) (it : menuitem) :
  0 <= j <= 5 -> item_at set_readout_menu j = Some it ->
  exists kind,
    Knob.kind_of_item j = Some kind
    /\ new_state it = mk_state_func None (P_int kind) 0.
Proof.
  intros Hj Hit.
  assert (Hcases : j = 0 \/ j = 1 \/ j = 2 \/ j = 3 \/ j = 4 \/ j = 5)
    by lia.
  destruct Hcases as [-> | [-> | [-> | [-> | [-> | ->]]]]]; vm_compute in Hit;
    inversion Hit; eexists; split; reflexivity.
Qed.

(** [display_config] step by step: what it does with what each of the two
    menus returns. *)
Lemma display_config_steps (w : world) (ticks : list tick)
  (display : state_func) (w1 : world) (rest1 : list tick) :
  List.length (cc_readouts w) = 3%nat ->
  menu choose_readout_menu w ticks = Ret display w1 rest1 ->
  (display = STATE_OVERTEMP
   /\ display_config P_display_settings_cc w ticks
      = Ret STATE_OVERTEMP w1 rest1)
  \/ (exists slot,
        0 <= slot <= 2 /\ display = mk_state_func None (P_int slot) 0
        /\ (forall w2,
              menu set_readout_menu w1 rest1 = Starved w2 ->
              display_config P_display_settings_cc w ticks = Starved w2)
        /\ forall readout w2 rest,
             menu set_readout_menu w1 rest1 = Ret readout w2 rest ->
             (readout = STATE_OVERTEMP
              /\ display_config P_display_settings_cc w ticks
                 = Ret STATE_OVERTEMP w2 rest)
             \/ (exists kind w',
                   0 <= kind <= 5
                   /\ readout = mk_state_func None (P_int kind) 0
                   /\ EEPROM_Write_readout slot kind w2 = Some w'
                   /\ display_config P_display_settings_cc w ticks
                      = Ret STATE_MAIN w' rest
                   /\ nth_error (cc_readouts w') (Z.to_nat slot) = Some kind
                   /\ (forall k, k <> Z.to_nat slot ->
                         nth_error (cc_readouts w') k
                         = nth_error (cc_readouts w) k)
                   /\ effects w'
                      = effects w ++ [E_EEPROM_Write_readout slot kind])).
Proof.
  intros Hlen Hmenu1. unfold display_config. rewrite Hmenu1. cbn [bind].
  pose proof (menu_outcome choose_readout_menu 3 w ticks
                choose_readout_menu_ok) as H1.
  rewrite Hmenu1 in H1.
  destruct H1 as [(Hs1 & Hset1 & Hr1 & He1) [-> | Hpick1]];
    [left; split; reflexivity|].
  destruct (picks_choose_readout display Hpick1) as (slot & Hslot & ->).
  right. exists slot. split; [exact Hslot|]. split; [reflexivity|].
  cbn [is_overtemp func]. split.
  { intros w2 Hmenu2. rewrite Hmenu2. reflexivity. }
  intros readout w2 rest Hmenu2. rewrite Hmenu2. cbn [bind].
  pose proof (menu_outcome set_readout_menu 6 w1 rest1 set_readout_menu_ok)
    as H2.
  rewrite Hmenu2 in H2.
  destruct H2 as [(Hs2 & Hset2 & Hr2 & He2) [-> | Hpick2]];
    [left; split; reflexivity|].
  destruct (picks_set_readout readout Hpick2) as (kind & Hkind & ->).
  right. cbn [is_overtemp func arg int_of_pointer].
  unfold EEPROM_Write_readout.
  destruct (slot <? 0) eqn:E; [apply Z.ltb_lt in E; lia|].
  destruct (list_set_spec (cc_readouts w2) (Z.to_nat slot) kind)
    as (l' & Hl' & _ & Hnth & Hother); [rewrite Hr2, Hr1, Hlen; lia|].
  rewrite Hl'.
  exists kind, (with_cc_readouts l' (log (E_EEPROM_Write_readout slot kind) w2)).
  rewrite Hl'.
  split; [exact Hkind|]. split; [reflexivity|]. split; [reflexivity|].
  split; [reflexivity|]. cbn.
  split; [exact Hnth|].
  split; [intros k Hk; rewrite (Hother k Hk), Hr2, Hr1; reflexivity|].
  rewrite He2, He1. reflexivity.
Qed.
End ReadoutChoice.

(** X15: the readout configuration dialog, run on the CC display
    configuration with its three slots, never writes outside them.  When it
    returns home it made exactly one call, the write of one readout kind
    (0..5) into one slot (0..2): afterwards that slot reads back the kind
    written, the two other slots are as before.  When a sub-menu returned
    the overtemp descriptor nothing was written.  Settings and live state
    are never touched.  The slot written is the [arg] of what the first
    menu returned and the kind written the [arg] of what the second
    returned; an overtemp descriptor from either menu is returned as it is,
    and a second menu left waiting leaves the dialog waiting.  With the
    button pressed on item [i] of the first menu and then on item [j] of
    the second, the dialog returns home having written the kind of item [j]
    into slot [i]. *)
Theorem display_config_writes_one_slot (w : world) (ticks : list tick) :
  List.length (cc_readouts w) = 3%nat ->
  match UI.display_config P_display_settings_cc w ticks with
  | Ret r w' _ =>
      state w' = state w /\ settings w' = settings w
      /\ List.length (cc_readouts w') = 3%nat
      /\ ((r = STATE_OVERTEMP /\ cc_readouts w' = cc_readouts w
           /\ effects w' = effects w)
          \/ (r = STATE_MAIN
              /\ exists slot kind,
                   0 <= slot <= 2 /\ 0 <= kind <= 5
                   /\ effects w'
                      = effects w ++ [E_EEPROM_Write_readout slot kind]
                   /\ nth_error (cc_readouts w') (Z.to_nat slot) = Some kind
                   /\ forall j, j <> Z.to_nat slot ->
                        nth_error (cc_readouts w') j
                        = nth_error (cc_readouts w) j))
  | Starved w' =>
      state w' = state w /\ settings w' = settings w
      /\ cc_readouts w' = cc_readouts w /\ effects w' = effects w
  | Undefined => False
  end
  /\ (forall display w1 rest1,
        UI.menu choose_readout_menu w ticks = Ret display w1 rest1 ->
        (display = STATE_OVERTEMP
         /\ UI.display_config P_display_settings_cc w ticks
            = Ret STATE_OVERTEMP w1 rest1)
        \/ (exists slot,
              0 <= slot <= 2 /\ display = mk_state_func None (P_int slot) 0
              /\ (forall w2,
                    UI.menu set_readout_menu w1 rest1 = Starved w2 ->
                    UI.display_config P_display_settings_cc w ticks
                    = Starved w2)
              /\ forall readout w2 rest,
                   UI.menu set_readout_menu w1 rest1 = Ret readout w2 rest ->
                   (readout = STATE_OVERTEMP
                    /\ UI.display_config P_display_settings_cc w ticks
                       = Ret STATE_OVERTEMP w2 rest)
                   \/ (exists kind w',
                         0 <= kind <= 5
                         /\ readout = mk_state_func None (P_int kind) 0
                         /\ EEPROM_Write_readout slot kind w2 = Some w'
                         /\ UI.display_config P_display_settings_cc w ticks
                            = Ret STATE_MAIN w' rest
                         /\ nth_error (cc_readouts w') (Z.to_nat slot)
                            = Some kind
                         /\ (forall k, k <> Z.to_nat slot ->
                               nth_error (cc_readouts w') k
                               = nth_error (cc_readouts w) k)
                         /\ effects w'
                            = effects w
                              ++ [E_EEPROM_Write_readout slot kind])))
  /\ (forall pre1 i ev1 w1 t1 e1 pre2 j ev2 w2 t2 e2 rest,
        ticks = pre1 ++ t1 :: pre2 ++ t2 :: rest ->
        loop_after (UI.menu_body choose_readout_menu) (0, UI.fresh_event)
          w pre1 = Some ((i, ev1), w1) ->
        UI.delivers w1 t1 e1 -> is_button1 e1 = true ->
        loop_after (UI.menu_body set_readout_menu) (0, UI.fresh_event)
          (environment t1 w1) pre2 = Some ((j, ev2), w2) ->
        UI.delivers w2 t2 e2 -> is_button1 e2 = true ->
        0 <= i <= 2 /\ 0 <= j <= 5
        /\ exists kind w',
             Knob.kind_of_item j = Some kind
             /\ UI.display_config P_display_settings_cc w ticks
                = Ret STATE_MAIN w' rest
             /\ EEPROM_Write_readout i kind (environment t2 w2) = Some w'
             /\ nth_error (cc_readouts w') (Z.to_nat i) = Some kind
             /\ (forall k, k <> Z.to_nat i ->
                   nth_error (cc_readouts w') k
                   = nth_error (cc_readouts w) k)
             /\ effects w' = effects w ++ [E_EEPROM_Write_readout i kind]).
Proof.
  intros Hlen. split; [|split].
  - pose proof (display_config_outcome w ticks Hlen) as H.
    destruct (UI.display_config P_display_settings_cc w ticks)
      as [r w' rest | w' |].
    + destruct H as (Hs & Hset & Hcase).
      split; [exact Hs|]. split; [exact Hset|].
      destruct Hcase
        as [(-> & Hr & He) | (-> & slot & kind & Hslot & Hkind & Hl & He)].
      * split; [congruence|]. left. auto.
      * destruct (list_set_spec (cc_readouts w) (Z.to_nat slot) kind)
          as (l' & Hl' & Hlen' & Hnth & Hother); [rewrite Hlen; lia|].
        assert (l' = cc_readouts w') by congruence. subst l'.
        split; [congruence|]. right.
        split; [reflexivity|]. exists slot, kind. auto.
    + exact H.
    + exact H.
  - intros display w1 rest1 Hmenu1.
    exact (display_config_steps w ticks display w1 rest1 Hlen Hmenu1).
  - intros pre1 i ev1 w1 t1 e1 pre2 j ev2 w2 t2 e2 rest
           -> Hafter1 Hd1 Hb1 Hafter2 Hd2 Hb2.
    destruct (menu_returns_selected choose_readout_menu 3 w pre1 i ev1 w1
                t1 e1 (pre2 ++ t2 :: rest) choose_readout_menu_ok
                Hafter1 Hd1 Hb1) as (Hi & it1 & c1 & Hit1 & _ & Hmenu1).
    destruct (menu_returns_selected set_readout_menu 6 (environment t1 w1)
                pre2 j ev2 w2 t2 e2 rest set_readout_menu_ok
                Hafter2 Hd2 Hb2) as (Hj & it2 & c2 & Hit2 & _ & Hmenu2).
    split; [lia|]. split; [lia|].
    rewrite (choose_readout_item i it1 ltac:(lia) Hit1) in Hmenu1.
    destruct (set_readout_item j it2 ltac:(lia) Hit2) as (kind & Hkind & Hst).
    rewrite Hst in Hmenu2.
    destruct (display_config_steps w _ _ _ _ Hlen Hmenu1)
      as [[Hover _] | (slot & _ & Hdisplay & _ & Hsecond)];
      [discriminate|].
    inversion Hdisplay; subst slot.
    destruct (Hsecond _ _ _ Hmenu2)
      as [[Hover _] | (kind' & w' & _ & Hreadout & Hwrite & Hret & Hnth
                       & Hother & He)];
      [discriminate|].
    inversion Hreadout; subst kind'.
    exists kind, w'. auto 10.
Qed.

(** "Left display", then "Power": the dialog writes kind 4 into slot 1. *)
Lemma display_config_writes_one_slot_witness :
  exists w',
    UI.display_config P_display_settings_cc (Samples.bench 5)
      [Samples.updown 10 1; Samples.button 40 1; Samples.updown 50 3;
       Samples.button 60 1; Samples.idle 70]
    = Ret STATE_MAIN w' [Samples.idle 70]
    /\ Knob.kind_of_item 3 = Some READOUT_POWER
    /\ nth_error (cc_readouts w') 1 = Some READOUT_POWER
    /\ effects w' = [E_EEPROM_Write_readout 1 READOUT_POWER].
Proof.
  pose proof (display_config_writes_one_slot (Samples.bench 5)
                [Samples.updown 10 1; Samples.button 40 1;
                 Samples.updown 50 3; Samples.button 60 1; Samples.idle 70]
                eq_refl) as (_ & _ & Hpicks).
  destruct (Hpicks [Samples.updown 10 1] 1
              {| type := UI_EVENT_UPDOWN; when := 10; int_arg := 1 |}
              (environment (Samples.updown 10 1) (Samples.bench 5))
              (Samples.button 40 1)
              {| type := UI_EVENT_BUTTONPRESS; when := 40; int_arg := 1 |}
              [Samples.updown 50 3] 3
              {| type := UI_EVENT_UPDOWN; when := 50; int_arg := 3 |}
              (environment (Samples.updown 50 3)
                 (environment (Samples.button 40 1)
                    (environment (Samples.updown 10 1) (Samples.bench 5))))
              (Samples.button 60 1)
              {| type := UI_EVENT_BUTTONPRESS; when := 60; int_arg := 1 |}
              [Samples.idle 70]
              eq_refl
              ltac:(vm_compute; reflexivity)
              ltac:(split; [reflexivity | vm_compute; discriminate])
              eq_refl
              ltac:(vm_compute; reflexivity)
              ltac:(split; [reflexivity | vm_compute; discriminate])
              eq_refl)
    as (_ & _ & kind & w' & Hkind & Hret & _ & Hnth & _ & He).
  vm_compute in Hkind. inversion Hkind; subst kind.
  exists w'. split; [exact Hret|]. split; [reflexivity|].
  split; [exact Hnth | exact He].
Defined.

(** ** The calibration wizard *)

Section CalibrationMore.
Import UI Facts.

Lemma next_event_sensors (t : tick) (ev : ui_event) (w : world) :
  raw_voltage (snd (next_event t ev w)) = sensed_voltage t
  /\ raw_current_usage (snd (next_event t ev w)) = sensed_current t.
Proof.
  unfold next_event, environment.
  destruct (last_tick _ + _ <? now t); destruct (mode_write t);
    try destruct (rx t); simpl; auto.
Qed.

(** Step 2 assigns the voltage gain and nothing else. *)
Lemma calibrate_voltage_assigns_gain (ns0 : settings_t) (w : world)
  (ticks : list tick) :
  match calibrate_voltage ns0 w ticks with
  | Ret ns _ _ => exists g, ns = set_adc_voltage_gain g ns0
  | _ => True
  end.
Proof.
  unfold calibrate_voltage.
  pose (I := fun (l : settings_t * ui_event) (_ : world) =>
    exists g, fst l = set_adc_voltage_gain g ns0).
  pose (Q := fun (ns : settings_t) (_ : world) =>
    exists g, ns = set_adc_voltage_gain g ns0).
  assert (Hbody : forall t l w1, I l w1 ->
            match calibrate_voltage_body t l w1 with
            | Continue l' w' => I l' w'
            | Break r w' => Q r w'
            | Crash => False
            end).
  { intros t [ns ev] w1 [g Hg]. simpl in Hg. subst ns.
    unfold calibrate_voltage_body.
    destruct (next_event t ev w1) as [e w2].
    assert (Hex : exists g',
              match type e with
              | UI_EVENT_UPDOWN =>
                  set_adc_voltage_gain
                    (adc_voltage_gain (set_adc_voltage_gain g ns0)
                     + Z.quot (adc_voltage_gain (set_adc_voltage_gain g ns0)
                               * int_arg e) 500)
                    (set_adc_voltage_gain g ns0)
              | _ => set_adc_voltage_gain g ns0
              end = set_adc_voltage_gain g' ns0).
    { destruct (type e); eexists; reflexivity. }
    destruct (is_button1 e); exact Hex. }
  assert (H0 : I (ns0, fresh_event) w).
  { exists (adc_voltage_gain ns0). destruct ns0; reflexivity. }
  pose proof (run_loop_inv calibrate_voltage_body I Q Hbody ticks
                (ns0, fresh_event) w H0) as H.
  destruct (run_loop calibrate_voltage_body (ns0, fresh_event) w ticks);
    [exact H | constructor | constructor].
Qed.

(** Step 3 assigns the opamp trim or nothing. *)
Lemma trim_sweep_assigns_trim (k : nat) (i : Z) (ns : settings_t) (w : world) :
  exists x, fst (trim_sweep k i ns w) = set_opamp_offset_trim x ns.
Proof.
  revert i w. induction k as [|k IH]; intros i w; simpl.
  - exists (opamp_offset_trim ns). destruct ns; reflexivity.
  - destruct (residual (log (E_opamp_trim i) w) i <=? 0); simpl.
    + exists (i - 1). reflexivity.
    + apply IH.
Qed.

(** The calls of the sweep from setting [i0] on. *)
Lemma trims_from_step (i0 : Z) (k : nat) :
  map (fun j => E_opamp_trim (i0 + Z.of_nat j)) (seq 0 (S k))
  = E_opamp_trim i0
      :: map (fun j => E_opamp_trim (i0 + 1 + Z.of_nat j)) (seq 0 k).
Proof.
  cbn [seq map]. rewrite <- seq_shift, map_map.
  f_equal; [f_equal; lia|].
  apply map_ext. intros j. f_equal. lia.
Qed.

Lemma trim_sweep_calls_first (k : nat) (i0 i : Z) (ns : settings_t)
  (w : world) :
  i0 <= i < i0 + Z.of_nat k ->
  residual w i <= 0 ->
  (forall j, i0 <= j < i -> 0 < residual w j) ->
  effects (snd (trim_sweep k i0 ns w))
  = effects w
      ++ map (fun j => E_opamp_trim (i0 + Z.of_nat j))
           (seq 0 (S (Z.to_nat (i - i0)))).
Proof.
  revert i0 w. induction k as [|k IH]; intros i0 w Hi Hneg Hpos; [lia|].
  cbn [trim_sweep].
  rewrite (residual_same_adc (log (E_opamp_trim i0) w) w i0 eq_refl).
  destruct (residual w i0 <=? 0) eqn:E.
  - apply Z.leb_le in E.
    assert (i = i0).
    { destruct (Z.eq_dec i i0) as [->|Hne]; [reflexivity|].
      specialize (Hpos i0 ltac:(lia)). lia. }
    subst. rewrite Z.sub_diag. simpl. rewrite Z.add_0_r. reflexivity.
  - apply Z.leb_gt in E.
    assert (Hne : i <> i0) by (intros ->; lia).
    rewrite (IH (i0 + 1) (log (E_opamp_trim i0) w)).
    + replace (S (Z.to_nat (i - i0))) with (S (S (Z.to_nat (i - (i0 + 1)))))
        by lia.
      rewrite (trims_from_step i0). simpl effects.
      rewrite <- app_assoc. reflexivity.
    + lia.
    + rewrite (residual_same_adc (log (E_opamp_trim i0) w) w i eq_refl).
      exact Hneg.
    + intros j Hj.
      rewrite (residual_same_adc (log (E_opamp_trim i0) w) w j eq_refl).
      apply Hpos. lia.
Qed.

Lemma trim_sweep_calls_none (k : nat) (i0 : Z) (ns : settings_t) (w : world) :
  (forall j, i0 <= j < i0 + Z.of_nat k -> 0 < residual w j) ->
  effects (snd (trim_sweep k i0 ns w))
  = effects w ++ map (fun j => E_opamp_trim (i0 + Z.of_nat j)) (seq 0 k).
Proof.
  revert i0 w. induction k as [|k IH]; intros i0 w Hpos.
  - simpl. now rewrite app_nil_r.
  - cbn [trim_sweep].
    rewrite (residual_same_adc (log (E_opamp_trim i0) w) w i0 eq_refl).
    destruct (residual w i0 <=? 0) eqn:E.
    + apply Z.leb_le in E. specialize (Hpos i0 ltac:(lia)). lia.
    + rewrite (IH (i0 + 1) (log (E_opamp_trim i0) w)).
      * rewrite (trims_from_step i0). simpl effects.
        rewrite <- app_assoc. reflexivity.
      * intros j Hj.
        rewrite (residual_same_adc (log (E_opamp_trim i0) w) w j eq_refl).
        apply Hpos. lia.
Qed.

Lemma trims_from_zero (k : nat) :
  map (fun j => E_opamp_trim (0 + Z.of_nat j)) (seq 0 k) = trims k.
Proof. unfold trims. apply map_ext. intros j. reflexivity. Qed.
End CalibrationMore.

(** X16: a calibration that runs to its end rewrites four fields only.
    The record it persists has the DAC gains and offsets, the ADC current
    gain, the backlight brightness and the LCD contrast of the record it
    started from; and its two ADC offsets are the raw voltage and raw
    current read on the tick whose button press ended step 1. *)
Theorem calibrate_changes_four_fields (w : world) (ticks : list tick)
  (r : state_func) (w' : world) (rest : list tick) :
  UI.calibrate w ticks = Ret r w' rest ->
  Facts.same_uncalibrated (settings w) (settings w')
  /\ exists before t after ev0 w0,
       ticks = before ++ t :: after
       /\ loop_after UI.calibrate_offsets_body UI.fresh_event
            (set_current 0 w) before = Some (ev0, w0)
       /\ is_button1 (fst (next_event t ev0 w0)) = true
       /\ adc_voltage_offset (settings w') = sensed_voltage t
       /\ adc_current_offset (settings w') = sensed_current t.
Proof.
  intros H. unfold UI.calibrate, UI.calibrate_offsets in H.
  destruct (run_loop UI.calibrate_offsets_body UI.fresh_event
              (set_current 0 w) ticks) as [u w1 rest1 | |] eqn:E1;
    simpl in H; try discriminate.
  apply run_loop_ret in E1.
  destruct E1 as (before & t & ev0 & w0 & Heq & Hafter & Hbreak).
  unfold UI.calibrate_offsets_body in Hbreak.
  pose proof (next_event_sensors t ev0 w0) as [Sv Sc].
  destruct (next_event t ev0 w0) as [e w2] eqn:En. simpl in Sv, Sc.
  destruct (is_button1 e) eqn:Eb; [|discriminate].
  inversion Hbreak; subst u w2. clear Hbreak.
  unfold get_raw_voltage, get_raw_current_usage in H.
  rewrite Sv, Sc in H.
  set (ns2 := set_adc_current_offset _ _) in H.
  pose proof (calibrate_voltage_assigns_gain ns2 w1 rest1) as Hg.
  destruct (UI.calibrate_voltage ns2 w1 rest1) as [ns3 w3 rest3 | |];
    simpl in H; try discriminate.
  destruct Hg as [g ->].
  unfold UI.calibrate_opamp_dac_offsets in H.
  destruct (trim_sweep_assigns_trim 32 0 (set_adc_voltage_gain g ns2)
              (set_current 100000 w3)) as [x Hx].
  destruct (UI.trim_sweep 32 0 (set_adc_voltage_gain g ns2)
              (set_current 100000 w3)) as [ns4 w4].
  simpl in Hx, H. subst ns4.
  inversion H; subst. clear H.
  split.
  - unfold Facts.same_uncalibrated. simpl. repeat split.
  - exists before, t, rest1, ev0, w0.
    split; [reflexivity|]. split; [exact Hafter|].
    rewrite En. simpl. auto.
Qed.

Lemma calibrate_changes_four_fields_witness :
  Facts.same_uncalibrated (settings (Samples.bench 5))
    (set_opamp_offset_trim 4
       (set_adc_voltage_gain 2020
          (set_adc_current_offset (-3)
             (set_adc_voltage_offset 7 Samples.factory_settings)))).
Proof.
  refine (proj1 (calibrate_changes_four_fields (Samples.bench 5)
    [Samples.button 10 1; Samples.updown 11 3; Samples.button 20 1]
    STATE_MAIN
    (EEPROM_Write_settings
       (set_opamp_offset_trim 4
          (set_adc_voltage_gain 2020
             (set_adc_current_offset (-3)
                (set_adc_voltage_offset 7 Samples.factory_settings))))
       (set_current 0
          (snd (UI.trim_sweep 32 0 Samples.factory_settings
                  (set_current 100000
                     (environment (Samples.button 20 1)
                        (set_current 0 (Samples.bench 5))))))))
    [] _)).
  vm_compute. reflexivity.
Defined.

(** X17: step 3 brackets the sweep between [set_current(100000)] and
    [set_current(0)] and pokes the trim settings in order from 0.  It
    stops at the first setting [i] whose residual is not positive, so the
    trim register is left at [i], the last value poked, while the record
    gets [i - 1]; with no such setting all 32 settings are poked and the
    register is left at 31. *)
Theorem opamp_sweep_calls (new_settings : settings_t) (w : world) :
  (forall i, UI.first_nonpositive w i ->
     effects (snd (UI.calibrate_opamp_dac_offsets new_settings w))
     = effects w
         ++ [E_set_current 100000]
         ++ Facts.trims (Z.to_nat i) ++ [E_opamp_trim i]
         ++ [E_set_current 0])
  /\ ((forall i, 0 <= i < 32 -> 0 < UI.residual w i) ->
      effects (snd (UI.calibrate_opamp_dac_offsets new_settings w))
      = effects w
          ++ [E_set_current 100000]
          ++ Facts.trims 31 ++ [E_opamp_trim 31]
          ++ [E_set_current 0]).
Proof.
  assert (Hlast : forall k,
            Facts.trims (S k) = Facts.trims k ++ [E_opamp_trim (Z.of_nat k)]).
  { intros k. unfold Facts.trims. rewrite seq_S, map_app. reflexivity. }
  unfold UI.calibrate_opamp_dac_offsets.
  split.
  - intros i (Hi & Hneg & Hpos).
    pose proof (trim_sweep_calls_first 32 0 i new_settings
                  (set_current 100000 w)) as Hc.
    rewrite trims_from_zero, Z.sub_0_r, Hlast in Hc.
    rewrite Z2Nat.id in Hc by lia.
    destruct (UI.trim_sweep 32 0 new_settings (set_current 100000 w))
      as [ns' w1]. simpl in *.
    rewrite Hc.
    + rewrite <- !app_assoc. reflexivity.
    + lia.
    + exact Hneg.
    + intros j Hj. apply Hpos. lia.
  - intros Hpos.
    pose proof (trim_sweep_calls_none 32 0 new_settings
                  (set_current 100000 w)) as Hc.
    rewrite trims_from_zero, (Hlast 31%nat) in Hc.
    destruct (UI.trim_sweep 32 0 new_settings (set_current 100000 w))
      as [ns' w1]. simpl in *.
    rewrite Hc.
    + rewrite <- !app_assoc. reflexivity.
    + intros j Hj. apply Hpos. lia.
Qed.

Lemma opamp_sweep_calls_witness :
  effects (snd (UI.calibrate_opamp_dac_offsets Samples.factory_settings
                  (Samples.bench 5)))
  = effects (Samples.bench 5)
      ++ [E_set_current 100000]
      ++ Facts.trims (Z.to_nat 5) ++ [E_opamp_trim 5]
      ++ [E_set_current 0].
Proof.
  apply (proj1 (opamp_sweep_calls Samples.factory_settings (Samples.bench 5))
           5).
  unfold UI.first_nonpositive, UI.residual, Samples.bench, Samples.bench_adc,
    adc.
  split; [lia|]. split; [lia|]. intros j Hj. lia.
Defined.


(** ** The trampoline *)

Section TrampolineMore.
Import UI Facts ScreenFacts.

Lemma known_state_has_handler (s : state_func) :
  known_state s -> func s <> None.
Proof.
  unfold known_state. simpl.
  intros [<- | [<- | [<- | [<- | [<- | [<- | [<- | []]]]]]]]; discriminate.
Qed.

(** Every handler called on a descriptor of the program text returns the
    sentinel or such a descriptor again, and leaves the display
    configuration with its three slots. *)
Lemma call_outcome (s : state_func) (w : world) (ticks : list tick) :
  known_state s -> List.length (cc_readouts w) = 3%nat ->
  match call s w ticks with
  | Ret r w' _ =>
      (func r = None \/ known_state r)
      /\ List.length (cc_readouts w') = 3%nat
  | Starved w' => List.length (cc_readouts w') = 3%nat
  | Undefined => False
  end.
Proof.
  unfold known_state. simpl.
  intros [<- | [<- | [<- | [<- | [<- | [<- | [<- | []]]]]]]] Hlen;
    unfold call; simpl.
  - pose proof (cc_load_outcome w ticks) as H.
    destruct (cc_load w ticks) as [r w' rest | w' |]; [| |exact H].
    + destruct H as [Hr (_ & Hcc & _)]. split; [|congruence].
      right. unfold known_state. simpl. destruct Hr as [-> | ->]; auto.
    + destruct H as (_ & Hcc & _). congruence.
  - pose proof (menu_outcome main_menu 4 w ticks main_menu_ok) as H.
    destruct (menu main_menu w ticks) as [r w' rest | w' |]; [| |exact H].
    + destruct H as [(_ & _ & Hcc & _) Hr]. split; [|congruence].
      right. unfold known_state. simpl.
      destruct Hr as [-> | Hp]; [auto|].
      destruct (picks_main_menu r Hp) as [-> | [-> | [-> | ->]]];
        repeat first [left; reflexivity | right].
    + destruct H as (_ & _ & Hcc & _). congruence.
  - pose proof (overtemp_outcome w ticks) as H.
    destruct (overtemp w ticks) as [r w' rest | w' |]; [| |exact H].
    + destruct H as (-> & Hcc & _). split; [left; reflexivity | congruence].
    + destruct H as (Hcc & _). congruence.
  - pose proof (display_config_outcome w ticks Hlen) as H.
    destruct (display_config P_display_settings_cc w ticks)
      as [r w' rest | w' |]; [| |exact H].
    + destruct H as (_ & _ & [(-> & Hcc & _) | (-> & slot & kind & Hs & _ & Hl & _)]).
      * split; [|congruence]. right. unfold known_state. simpl. auto.
      * split; [left; reflexivity|].
        destruct (list_set_spec (cc_readouts w) (Z.to_nat slot) kind)
          as (l' & Hl' & Hlen' & _); [rewrite Hlen; lia|].
        assert (l' = cc_readouts w') by congruence. subst l'. congruence.
    + destruct H as (_ & _ & Hcc & _). congruence.
  - pose proof (set_contrast_outcome w ticks) as H.
    destruct (set_contrast w ticks) as [r w' rest | w' |]; [| |exact H].
    + destruct H as (_ & Hcc & calls & _ & [(-> & _) | (-> & _)]).
      * split; [|congruence]. right. unfold known_state. simpl. auto.
      * split; [left; reflexivity | congruence].
    + destruct H as (_ & Hcc & _). congruence.
  - pose proof (calibrate_outcome w ticks) as H.
    destruct (calibrate w ticks) as [r w' rest | w' |]; [| |exact H].
    + destruct H as (-> & calls & image & _ & _ & _ & Hcc).
      split; [left; reflexivity | congruence].
    + destruct H as (_ & Hcc & _). congruence.
  - unfold splashscreen. split; [|exact Hlen].
    right. unfold known_state. simpl. auto.
Qed.

Lemma adopt_known (r : state_func) :
  func r = None \/ known_state r ->
  snd (adopt STATE_CC_LOAD r) = STATE_CC_LOAD
  /\ known_state (fst (adopt STATE_CC_LOAD r)).
Proof.
  unfold adopt, known_state. simpl.
  intros [Hnull | [<- | [<- | [<- | [<- | [<- | [<- | [<- | []]]]]]]]];
    [rewrite Hnull | | | | | | | ]; simpl;
    (split; [reflexivity | repeat first [left; reflexivity | right]]).
Qed.

Lemma vTaskUI_loop_invariant (n : nat) (s : state_func) (w : world)
  (ticks : list tick) :
  known_state s -> List.length (cc_readouts w) = 3%nat ->
  match vTaskUI_loop n s STATE_CC_LOAD w ticks with
  | Blocked s' m w' | About_to_run s' m w' _ =>
      m = STATE_CC_LOAD /\ known_state s'
      /\ List.length (cc_readouts w') = 3%nat
  | Faulted => False
  end.
Proof.
  revert s w ticks. induction n as [|n IH]; intros s w ticks Hs Hlen.
  - simpl. auto.
  - cbn [vTaskUI_loop].
    pose proof (call_outcome s w ticks Hs Hlen) as H.
    destruct (call s w ticks) as [r w' rest | w' |]; [| auto | exact H].
    destruct H as [Hr Hlen'].
    destruct (adopt_known r Hr) as [Hm Hk].
    destruct (adopt STATE_CC_LOAD r) as [s' m]. simpl in Hm, Hk. subst m.
    apply IH; assumption.
Qed.
End TrampolineMore.

(** ** Drawing *)

Section StatusFacts.
Import Formatter Drawing.

(** The formatter's text has five or six characters, whatever the sign of
    the value. *)
Lemma format_number_5_or_6 (v : Z) (s : ascii) :
  s <> zero ->
  String.length (format_number v s) = 5%nat
  \/ String.length (format_number v s) = 6%nat.
Proof.
  intros Hs.
  pose proof (whole_part_range v) as Hw.
  pose proof (scaled_range v) as Hsc.
  unfold whole_part, scaled in Hw, Hsc. unfold format_number.
  destruct (scale (Z.to_nat (Z.log2 (if v <? 0 then 0 else v)))
              (if v <? 0 then 0 else v) 1) as [num magnitude].
  simpl fst in *.
  assert (Hrem : 0 <= Z.rem num 1000 < 1000)
    by (rewrite Z.rem_mod_nonneg by lia; apply Z.mod_pos_bound; lia).
  assert (Hr10 : 0 <= Z.quot (Z.rem num 1000) 10 < 100)
    by (rewrite Z.quot_div_nonneg by lia; Z.div_mod_to_equations; lia).
  assert (Hr100 : 0 <= Z.quot (Z.rem num 1000) 100 < 10)
    by (rewrite Z.quot_div_nonneg by lia; Z.div_mod_to_equations; lia).
  destruct (sprintf_d_widths (Z.quot num 1000) Hw) as (W1 & W2 & W3).
  destruct (sprintf_d_widths (Z.quot (Z.rem num 1000) 10) ltac:(lia))
    as (_ & R2 & _).
  destruct (sprintf_d_widths (Z.quot (Z.rem num 1000) 100) ltac:(lia))
    as (R1 & _ & _).
  assert (Htail : forall out,
            String.length
              (if magnitude =? 1 then strcat out ["m"%char; s; zero]
               else strcat out [s; " "%char; zero])
            = (String.length out + 2)%nat).
  { intros out. unfold strcat.
    destruct (magnitude =? 1); rewrite length_append_string, c_string_suffix;
      auto; discriminate. }
  rewrite Htail.
  destruct (Z.quot num 1000 <? 10) eqn:E10.
  - rewrite !length_append_string, W1, R2.
    destruct (Z.quot (Z.rem num 1000) 10 <? 100) eqn:Eq;
      [right; reflexivity | apply Z.ltb_ge in Eq; lia].
  - destruct (Z.quot num 1000 <? 100) eqn:E100.
    + rewrite !length_append_string, W2, R1.
      destruct (Z.quot (Z.rem num 1000) 100 <? 10) eqn:Eq;
        [right; reflexivity | apply Z.ltb_ge in Eq; lia].
    + rewrite W3. left. reflexivity.
Qed.

Variable ohm : string.
Variable glyph_char : string -> ascii.

(** The four numeric readouts print five or six characters. *)
Lemma numeric_readout_prints (kind : Z) (r : readings) :
  1 <= kind <= 4 ->
  exists readout p text,
    readout_at kind = Some readout
    /\ func readout = Some p /\ p <> print_nothing_fn
    /\ print ohm glyph_char p r = Some text
    /\ call_readout ohm glyph_char readout r = Some text
    /\ (String.length text = 5%nat \/ String.length text = 6%nat).
Proof.
  intros Hk.
  assert (Hcases : kind = 1 \/ kind = 2 \/ kind = 3 \/ kind = 4) by lia.
  assert (Hbuf : forall text,
            String.length text = 5%nat \/ String.length text = 6%nat ->
            into_buf text = Some text).
  { intros text [H | H]; unfold into_buf; rewrite H; reflexivity. }
  destruct Hcases as [-> | [-> | [-> | ->]]];
    eexists; eexists; eexists;
    (split; [reflexivity|]); (split; [reflexivity|]);
    (split; [discriminate|]); (split; [reflexivity|]);
    unfold call_readout; simpl; unfold Readouts.print_power;
    (split; [apply Hbuf|]); apply format_number_5_or_6; discriminate.
Qed.

Lemma padded_small (text : string) :
  String.length text = 5%nat \/ String.length text = 6%nat ->
  exists shown,
    (if strlen text =? 5 then into_buf (text ++ " ") else Some text)
    = Some shown
    /\ String.length shown = 6%nat.
Proof.
  intros [H | H]; unfold strlen; rewrite H; simpl.
  - exists (text ++ " ")%string. unfold into_buf.
    rewrite length_append_string, H. simpl. auto.
  - exists text. auto.
Qed.
End StatusFacts.

(** X19: with the four numeric readouts (set current, actual current,
    voltage, power) in the three slots, [draw_status] stays inside its
    8-byte buffer: the big readout is drawn with 6 or 7 characters and each
    of the two small readouts with exactly 6, the 5-character form of the
    formatter being padded with a space. *)
Theorem draw_status_fits (ohm : string) (glyph_char : string -> ascii)
  (a b c : Z) (r : Drawing.readings) :
  1 <= a <= 4 -> 1 <= b <= 4 -> 1 <= c <= 4 ->
  exists big between small0 small1,
    Drawing.draw_status ohm glyph_char [a; b; c] r
    = Some (Drawing.Display_DrawBigNumbers 0 0 big
            :: between
               ++ [Drawing.Display_DrawText 6 0 small0 0;
                   Drawing.Display_DrawText 6 88 small1 0])
    /\ (String.length big = 6%nat \/ String.length big = 7%nat)
    /\ String.length small0 = 6%nat
    /\ String.length small1 = 6%nat.
Proof.
  intros Ha Hb Hc.
  destruct (numeric_readout_prints ohm glyph_char a r Ha)
    as (ra & pa & ta & Hra & Hfa & Hna & _ & Hca & Hla).
  destruct (numeric_readout_prints ohm glyph_char b r Hb)
    as (rb & pb & tb & Hrb & _ & _ & _ & Hcb & Hlb).
  destruct (numeric_readout_prints ohm glyph_char c r Hc)
    as (rc & pc & tc & Hrc & _ & _ & _ & Hcc & Hlc).
  destruct (padded_small tb Hlb) as (s0 & Hs0 & Hl0).
  destruct (padded_small tc Hlc) as (s1 & Hs1 & Hl1).
  assert (Hbig : Drawing.into_buf (ta ++ " ") = Some (ta ++ " ")%string
                 /\ (String.length (ta ++ " ") = 6%nat
                     \/ String.length (ta ++ " ") = 7%nat)).
  { unfold Drawing.into_buf. rewrite length_append_string.
    destruct Hla as [-> | ->]; simpl; auto. }
  destruct Hbig as [Hbuf Hlbig].
  unfold Drawing.draw_status, Drawing.draw_small.
  cbn [nth_error]. rewrite Hra, Hrb, Hrc, Hfa, Hca, Hcb, Hcc, Hbuf, Hs0, Hs1.
  exists (ta ++ " ")%string.
  destruct pa; try contradiction; eexists; exists s0, s1;
    (split; [rewrite <- app_comm_cons, app_assoc; reflexivity | auto]).
Qed.

Lemma draw_status_fits_witness :
  exists big between small0 small1,
    Drawing.draw_status "O" (fun _ => "O"%char) [4; 2; 3]
      (Drawing.mk_readings 10000 123456 5000000)
    = Some (Drawing.Display_DrawBigNumbers 0 0 big
            :: between
               ++ [Drawing.Display_DrawText 6 0 small0 0;
                   Drawing.Display_DrawText 6 88 small1 0])
    /\ (String.length big = 6%nat \/ String.length big = 7%nat)
    /\ String.length small0 = 6%nat
    /\ String.length small1 = 6%nat.
Proof.
  apply (draw_status_fits "O" (fun _ => "O"%char) 4 2 3
           (Drawing.mk_readings 10000 123456 5000000)); lia.
Defined.

(** X20: entry 0 of [readout_functions] has a null [func], not
    [print_nothing]: with READOUT_NONE in any of the three slots (the
    readout menu offers it as "None") [draw_status] does not stay within
    defined behaviour, the entry's function being called through the null
    pointer. *)
Theorem draw_status_none_is_undefined (ohm : string)
  (glyph_char : string -> ascii) (a b c : Z) (r : Drawing.readings) :
  a = READOUT_NONE \/ b = READOUT_NONE \/ c = READOUT_NONE ->
  Drawing.readout_at READOUT_NONE = Some (Drawing.mk_impl None "")
  /\ Drawing.call_readout ohm glyph_char (Drawing.mk_impl None "") r = None
  /\ Drawing.draw_status ohm glyph_char [a; b; c] r = None.
Proof.
  intros H. split; [reflexivity|]. split; [reflexivity|].
  unfold Drawing.draw_status, Drawing.draw_small. cbn [nth_error].
  destruct H as [-> | [-> | ->]].
  - reflexivity.
  - destruct (Drawing.readout_at a) as [ra|]; [|reflexivity].
    match goal with
    | |- match ?main with _ => _ end = None =>
        destruct main; reflexivity
    end.
  - destruct (Drawing.readout_at a) as [ra|]; [|reflexivity].
    match goal with
    | |- match ?main with _ => _ end = None =>
        destruct main; [|reflexivity]
    end.
    match goal with
    | |- match ?small0 with _ => _ end = None =>
        destruct small0; reflexivity
    end.
Qed.

Lemma draw_status_none_is_undefined_witness :
  Drawing.readout_at READOUT_NONE = Some (Drawing.mk_impl None "")
  /\ Drawing.call_readout "O" (fun _ => "O"%char) (Drawing.mk_impl None "")
       (Drawing.mk_readings 10000 123456 5000000) = None
  /\ Drawing.draw_status "O" (fun _ => "O"%char) [1; 0; 3]
       (Drawing.mk_readings 10000 123456 5000000) = None.
Proof.
  apply (draw_status_none_is_undefined "O" (fun _ => "O"%char) 1 0 3
           (Drawing.mk_readings 10000 123456 5000000)).
  right. left. reflexivity.
Defined.

Section MenuDrawing.
Import UI Drawing.

Variable m : menudata.
Variable n : Z.
Hypothesis Hok : menu_ok m n.

(** The loop of [draw_menu] from row [i] on, the item pointer having
    stopped at the null caption if it got there. *)
Lemma draw_rows_page (start_row selected base : Z) (k : nat) (i : Z) :
  0 <= base -> 0 <= i ->
  draw_rows m start_row selected k i (Z.min (base + i) n)
  = Some (flat_map (row_calls m n start_row selected base) (rows_from i k),
          Z.min (base + i + Z.of_nat k) n).
Proof.
  intros Hbase. pose proof Hok as (Hn & Hitems & (last & Hlast & Hnull)).
  revert i. induction k as [|k IH]; intros i Hi.
  - cbn [draw_rows rows_from flat_map Z.of_nat].
    rewrite Z.add_0_r. reflexivity.
  - cbn [draw_rows rows_from flat_map].
    unfold row_calls at 1.
    destruct (base + i <? n) eqn:E.
    + apply Z.ltb_lt in E.
      rewrite Z.min_l by lia.
      destruct (Hitems (base + i) ltac:(lia)) as (it & c & Hit & Hc).
      rewrite Hit, Hc.
      replace (base + i + 1) with (Z.min (base + (i + 1)) n) by lia.
      rewrite IH by lia.
      replace (base + (i + 1) + Z.of_nat k) with (base + i + Z.of_nat (S k))
        by lia.
      reflexivity.
    + apply Z.ltb_ge in E.
      rewrite Z.min_r by lia.
      rewrite Hlast, Hnull.
      replace n with (Z.min (base + (i + 1)) n) at 1 by lia.
      rewrite IH by lia.
      replace (base + (i + 1) + Z.of_nat k) with (base + i + Z.of_nat (S k))
        by lia.
      reflexivity.
Qed.
End MenuDrawing.

(** X21: for a menu with [n >= 1] captioned items and a selection among
    them, [draw_menu] reads no item outside the menu and draws the page of
    3 rows (with a title) or 4 rows (without) that contains the selection:
    each row shows the item of the page at that place, inverted exactly on
    the selected row, and rows past the last item are blanked.  The up
    arrow is drawn if and only if the page is not the first one, the down
    arrow if and only if items follow the page. *)
Theorem draw_menu_page (uarr darr : string) (m : menudata) (n selected : Z) :
  UI.menu_ok m n -> 0 <= selected <= n - 1 ->
  let height := match title m with Some _ => 3 | None => 4 end in
  let start_row := match title m with Some _ => 1 | None => 0 end in
  let base := selected - selected mod height in
  exists banner,
    (title m = None -> banner = [])
    /\ Drawing.draw_menu uarr darr m selected
       = Some (banner
               ++ [Drawing.Display_DrawText (start_row * 2) 148
                     (if height <=? selected then uarr else " "%string) 0]
               ++ flat_map
                    (Drawing.row_calls m n start_row (selected mod height)
                       base)
                    (Drawing.rows_from 0 (Z.to_nat height))
               ++ [Drawing.Display_DrawText 6 148
                     (if base + height <? n then darr else " "%string) 0]).
Proof.
  intros Hok Hsel.
  pose proof Hok as (Hn & Hitems & (last & Hlast & Hnull)).
  assert (Hdown : forall height, 0 < height ->
            0 <= selected - selected mod height <= selected ->
            exists it,
              UI.item_at m
                (Z.min (selected - selected mod height + 0
                        + Z.of_nat (Z.to_nat height)) n) = Some it
              /\ match caption it with
                 | Some _ => Drawing.Display_DrawText 6 148 darr 0
                 | None => Drawing.Display_DrawText 6 148 " "%string 0
                 end
                 = Drawing.Display_DrawText 6 148
                     (if selected - selected mod height + height <? n
                      then darr else " "%string) 0).
  { intros height Hh Hb. rewrite Z2Nat.id, Z.add_0_r by lia.
    destruct (selected - selected mod height + height <? n) eqn:E.
    - apply Z.ltb_lt in E. rewrite Z.min_l by lia.
      destruct (Hitems (selected - selected mod height + height) ltac:(lia))
        as (it & c & Hit & Hc).
      exists it. rewrite Hc. auto.
    - apply Z.ltb_ge in E. rewrite Z.min_r by lia.
      exists last. rewrite Hnull. auto. }
  assert (Hup : forall height, 0 < height ->
            (0 <? Z.quot selected height) = (height <=? selected)).
  { intros height Hh. rewrite Z.quot_div_nonneg by lia.
    destruct (height <=? selected) eqn:E.
    - apply Z.leb_le in E. apply Z.ltb_lt.
      apply Z.div_str_pos. lia.
    - apply Z.leb_gt in E. apply Z.ltb_ge.
      rewrite Z.div_small by lia. lia. }
  unfold Drawing.draw_menu.
  destruct (title m) as [text|]; cbv zeta.
  - pose proof (Z.mod_pos_bound selected 3 ltac:(lia)) as Hmod.
    pose proof (Z.mod_le selected 3 ltac:(lia) ltac:(lia)) as Hle.
    rewrite Z.rem_mod_nonneg by lia.
    pose proof (draw_rows_page m n Hok 1 (selected mod 3)
                  (selected - selected mod 3) (Z.to_nat 3) 0
                  ltac:(lia) ltac:(lia)) as Hrows.
    rewrite Z.add_0_r, Z.min_l in Hrows at 1 by lia.
    rewrite Hrows.
    destruct (Hdown 3 ltac:(lia) ltac:(lia)) as (it & Hit & Hd).
    rewrite Hit, Hd, (Hup 3) by lia.
    eexists. split; [discriminate | reflexivity].
  - pose proof (Z.mod_pos_bound selected 4 ltac:(lia)) as Hmod.
    pose proof (Z.mod_le selected 4 ltac:(lia) ltac:(lia)) as Hle.
    rewrite Z.rem_mod_nonneg by lia.
    pose proof (draw_rows_page m n Hok 0 (selected mod 4)
                  (selected - selected mod 4) (Z.to_nat 4) 0
                  ltac:(lia) ltac:(lia)) as Hrows.
    rewrite Z.add_0_r, Z.min_l in Hrows at 1 by lia.
    rewrite Hrows.
    destruct (Hdown 4 ltac:(lia) ltac:(lia)) as (it & Hit & Hd).
    rewrite Hit, Hd, (Hup 4) by lia.
    exists []. split; [reflexivity | reflexivity].
Qed.

Lemma draw_menu_page_witness :
  exists banner,
    (title set_readout_menu = None -> banner = [])
    /\ Drawing.draw_menu "^" "v" set_readout_menu 4
       = Some (banner
               ++ [Drawing.Display_DrawText (1 * 2) 148
                     (if 3 <=? 4 then "^"%string else " "%string) 0]
               ++ flat_map
                    (Drawing.row_calls set_readout_menu 6 1 (4 mod 3)
                       (4 - 4 mod 3))
                    (Drawing.rows_from 0 (Z.to_nat 3))
               ++ [Drawing.Display_DrawText 6 148
                     (if 4 - 4 mod 3 + 3 <? 6 then "v"%string
                      else " "%string) 0]).
Proof.
  apply (draw_menu_page "^" "v" set_readout_menu 6 4 set_readout_menu_ok).
  lia.
Defined.

(** ** The knob in the voltage step and in the contrast editor *)

Section KnobFacts.
Import UI Knob.

Lemma set_adc_voltage_gain_same (ns : settings_t) :
  set_adc_voltage_gain (adc_voltage_gain ns) ns = ns.
Proof. destruct ns; reflexivity. Qed.

Lemma updown_is_not_button1 (e : ui_event) :
  type e = UI_EVENT_UPDOWN -> is_button1 e = false.
Proof. intros H. unfold is_button1. rewrite H. reflexivity. Qed.

Lemma waited_snoc (w : world) (ticks : list tick) (t : tick) :
  waited w (ticks ++ [t]) = environment t (waited w ticks).
Proof. unfold waited. rewrite fold_left_app. reflexivity. Qed.

(** The passes of step 2 over a run of UP_DOWN events. *)
Lemma voltage_knob_run (w0 : world) (ticks : list tick) :
  forall (ns : settings_t) (ev : ui_event) (w : world),
    last_tick w = last_tick w0 ->
    Forall (fun t => exists e, delivers w0 t e /\ type e = UI_EVENT_UPDOWN)
      ticks ->
    exists ev',
      loop_after calibrate_voltage_body (ns, ev) w ticks
      = Some ((set_adc_voltage_gain
                 (scaled_gain (adc_voltage_gain ns) (knob_deltas ticks)) ns,
               ev'),
              waited w ticks).
Proof.
  induction ticks as [|t ticks IH]; intros ns ev w Hlast Hall.
  - exists ev. cbn. rewrite set_adc_voltage_gain_same. reflexivity.
  - inversion Hall as [|t' ticks' (e & [Hrx Hnow] & Hty) Hrest]; subst.
    assert (Hd : delivers w t e)
      by (split; [exact Hrx | rewrite Hlast; exact Hnow]).
    cbn [loop_after]. unfold calibrate_voltage_body at 1.
    rewrite (next_event_delivers w t e ev Hd), Hty.
    rewrite (updown_is_not_button1 e Hty).
    destruct (IH (set_adc_voltage_gain
                    (adc_voltage_gain ns
                     + Z.quot (adc_voltage_gain ns * int_arg e) 500) ns)
                 e (environment t w)) as [ev' Hrun];
      [rewrite environment_last_tick; exact Hlast | exact Hrest |].
    exists ev'. rewrite Hrun.
    unfold knob_deltas, scaled_gain, waited. cbn [map fold_left].
    rewrite Hrx. reflexivity.
Qed.

(** A gain of zero is not moved by any pass of step 2. *)
Lemma zero_gain_stays (new_settings : settings_t) (w : world)
  (ticks : list tick) (calibrated : settings_t) (w' : world)
  (rest : list tick) :
  adc_voltage_gain new_settings = 0 ->
  calibrate_voltage new_settings w ticks = Ret calibrated w' rest ->
  calibrated = new_settings.
Proof.
  intros Hzero Hret.
  pose (Inv := fun (l : settings_t * ui_event) (_ : world) =>
    fst l = new_settings).
  pose (Q := fun (ns : settings_t) (_ : world) => ns = new_settings).
  assert (Hbody : forall t l w1, Inv l w1 ->
            match calibrate_voltage_body t l w1 with
            | Continue l' w2 => Inv l' w2
            | Break r w2 => Q r w2
            | Crash => False
            end).
  { intros t [ns ev] w1 Hl. unfold Inv in Hl. simpl in Hl. subst ns.
    unfold calibrate_voltage_body.
    destruct (next_event t ev w1) as [e w2].
    assert (Hsame : match type e with
                    | UI_EVENT_UPDOWN =>
                        set_adc_voltage_gain
                          (adc_voltage_gain new_settings
                           + Z.quot (adc_voltage_gain new_settings
                                     * int_arg e) 500)
                          new_settings
                    | _ => new_settings
                    end = new_settings).
    { destruct (type e); try reflexivity.
      rewrite Hzero. simpl.
      destruct new_settings; simpl in *. subst. reflexivity. }
    rewrite Hsame. destruct (is_button1 e); reflexivity. }
  pose proof (run_loop_inv calibrate_voltage_body Inv Q Hbody ticks
                (new_settings, fresh_event) w eq_refl) as H.
  unfold calibrate_voltage in Hret. rewrite Hret in H. exact H.
Qed.

Lemma scaled_gain_zero (deltas : list Z) : scaled_gain 0 deltas = 0.
Proof.
  unfold scaled_gain. induction deltas as [|d deltas IH]; [reflexivity|].
  cbn [fold_left]. exact IH.
Qed.

Lemma clamp_contrast_code (c : Z) :
  (if 0x3F <? c then 0x3F else if c <? 0 then 0 else c) = clamp_contrast c.
Proof.
  unfold clamp_contrast.
  destruct (0x3F <? c) eqn:E1; [apply Z.ltb_lt in E1; lia|].
  apply Z.ltb_ge in E1.
  destruct (c <? 0) eqn:E2;
    [apply Z.ltb_lt in E2 | apply Z.ltb_ge in E2]; lia.
Qed.

(** The passes of the contrast editor over a run of UP_DOWN events. *)
Lemma contrast_knob_run (w0 : world) (ticks : list tick) :
  forall (c : Z) (ev : ui_event) (w : world),
    last_tick w = last_tick w0 ->
    Forall (fun t => exists e, delivers w0 t e /\ type e = UI_EVENT_UPDOWN)
      ticks ->
    exists ev' w',
      loop_after set_contrast_body (c, ev) w ticks
      = Some ((contrast_after c (knob_deltas ticks), ev'), w')
      /\ last_tick w' = last_tick w0
      /\ state w' = state w /\ settings w' = settings w
      /\ cc_readouts w' = cc_readouts w
      /\ effects w'
         = effects w
           ++ map E_Display_SetContrast
                (contrasts_shown c (knob_deltas ticks)).
Proof.
  induction ticks as [|t ticks IH]; intros c ev w Hlast Hall.
  - exists ev, w. cbn. rewrite app_nil_r. auto 10.
  - inversion Hall as [|t' ticks' (e & [Hrx Hnow] & Hty) Hrest]; subst.
    assert (Hd : delivers w t e)
      by (split; [exact Hrx | rewrite Hlast; exact Hnow]).
    cbn [loop_after]. unfold set_contrast_body at 1.
    rewrite (next_event_delivers w t e ev Hd), Hty.
    rewrite clamp_contrast_code.
    destruct (IH (clamp_contrast (c + int_arg e)) e
                 (log (E_Display_SetContrast (clamp_contrast (c + int_arg e)))
                    (environment t w))) as (ev' & w' & Hrun & Hl & Hs & Hset & Hr & He);
      [cbn; rewrite environment_last_tick; exact Hlast | exact Hrest |].
    exists ev', w'. rewrite Hrun.
    pose proof (environment_state t w) as Hes.
    assert (Hframe : settings (environment t w) = settings w
                     /\ cc_readouts (environment t w) = cc_readouts w
                     /\ effects (environment t w) = effects w).
    { unfold environment. destruct (mode_write t); auto. }
    destruct Hframe as (Hf1 & Hf2 & Hf3).
    unfold knob_deltas, contrast_after. cbn [map fold_left contrasts_shown].
    rewrite Hrx.
    split; [reflexivity|]. split; [exact Hl|].
    split; [rewrite Hs; cbn; exact Hes|].
    split; [rewrite Hset; cbn; exact Hf1|].
    split; [rewrite Hr; cbn; exact Hf2|].
    rewrite He. cbn [effects log]. rewrite Hf3, <- app_assoc. reflexivity.
Qed.

Lemma contrasts_shown_in_range (c : Z) (deltas : list Z) :
  Forall (fun z => 0 <= z <= 63) (contrasts_shown c deltas).
Proof.
  revert c. induction deltas as [|d deltas IH]; intros c; cbn;
    constructor; [unfold clamp_contrast; lia | apply IH].
Qed.
End KnobFacts.

(** X22: step 2 of the wizard adds [gain * delta / 500], truncated toward
    zero, to the voltage gain of the scratch record on every UP_DOWN.  Run
    on UP_DOWN events followed by the button, it returns on the button, with
    the scratch record changed in that one field only, to the gain the
    deltas give when folded from the left, the world having only waited.
    A gain of zero stays zero on any trace, so the step cannot calibrate a
    record whose [adc_voltage_gain] is 0. *)
Theorem calibrate_voltage_scales_gain (new_settings : settings_t)
  (w : world) (ticks : list tick) (t : tick) (e : ui_event)
  (rest : list tick) :
  Forall (fun t => exists e, UI.delivers w t e /\ type e = UI_EVENT_UPDOWN)
    ticks ->
  UI.delivers w t e -> is_button1 e = true ->
  UI.calibrate_voltage new_settings w (ticks ++ t :: rest)
  = Ret (set_adc_voltage_gain
           (Knob.scaled_gain (adc_voltage_gain new_settings)
              (Knob.knob_deltas ticks))
           new_settings)
        (Knob.waited w (ticks ++ [t])) rest
  /\ (adc_voltage_gain new_settings = 0 ->
      Knob.scaled_gain (adc_voltage_gain new_settings) (Knob.knob_deltas ticks)
      = 0
      /\ forall any calibrated w' rest',
           UI.calibrate_voltage new_settings w any = Ret calibrated w' rest' ->
           calibrated = new_settings).
Proof.
  intros Hall Hd Hbutton.
  split.
  - destruct (voltage_knob_run w ticks new_settings UI.fresh_event w
                eq_refl Hall) as [ev' Hrun].
    unfold UI.calibrate_voltage.
    apply run_loop_ret.
    eexists ticks, t, _, _.
    split; [reflexivity|]. split; [exact Hrun|].
    apply calibrate_voltage_body_break.
    assert (Hd' : UI.delivers (Knob.waited w ticks) t e).
    { destruct Hd as [Hrx Hnow]. split; [exact Hrx|].
      assert (Hl : last_tick (Knob.waited w ticks) = last_tick w).
      { clear. unfold Knob.waited.
        induction ticks as [|x xs IH] using rev_ind; [reflexivity|].
        rewrite fold_left_app. cbn.
        rewrite environment_last_tick. exact IH. }
      rewrite Hl. exact Hnow. }
    rewrite (next_event_delivers _ t e ev' Hd'). cbn [fst snd].
    split; [exact Hbutton|]. split; [reflexivity|].
    rewrite waited_snoc. reflexivity.
  - intros Hzero. split.
    + rewrite Hzero. apply scaled_gain_zero.
    + intros any calibrated w' rest' Hret.
      exact (zero_gain_stays new_settings w any calibrated w' rest'
               Hzero Hret).
Qed.

(** The factory gain 2008, three detents up and one down, the button:
    2008 + 2008 * 3 / 500 = 2020, then 2020 - 2020 / 500 = 2016. *)
Lemma calibrate_voltage_scales_gain_witness :
  UI.calibrate_voltage Samples.factory_settings (Samples.bench 5)
    [Samples.updown 10 3; Samples.updown 20 (-1); Samples.button 30 1;
     Samples.idle 40]
  = Ret (set_adc_voltage_gain 2016 Samples.factory_settings)
      (Knob.waited (Samples.bench 5)
         [Samples.updown 10 3; Samples.updown 20 (-1); Samples.button 30 1])
      [Samples.idle 40].
Proof.
  apply (proj1 (calibrate_voltage_scales_gain Samples.factory_settings
                  (Samples.bench 5)
                  [Samples.updown 10 3; Samples.updown 20 (-1)]
                  (Samples.button 30 1)
                  {| type := UI_EVENT_BUTTONPRESS; when := 30; int_arg := 1 |}
                  [Samples.idle 40]
                  ltac:(repeat constructor; eexists;
                        (split; [split; [reflexivity | vm_compute; discriminate]
                                | reflexivity]))
                  ltac:(split; [reflexivity | vm_compute; discriminate])
                  eq_refl)).
Defined.

(** X14: the contrast editor sends only contrasts between 0 and 63 to the
    display.  When it returns home, its calls were those and then exactly
    one write to the persisted store, of the contrast last sent (the stored
    one if the knob was not turned), and only the [lcd_contrast] field of
    the settings changed; when it is preempted by OVERTEMP, or still open,
    its calls were contrasts sent and nothing was written, although the
    display may already show another contrast.  Run on UP_DOWN events
    followed by the button, it returns home on the button: it has sent the
    running contrast, clamped to 0..63, after each event, and persists the
    last of them. *)
Theorem set_contrast_persists_shown (w : world) (ticks : list tick) :
  match UI.set_contrast w ticks with
  | Ret r w' _ =>
      exists shown,
        Forall ScreenFacts.shows_contrast shown
        /\ ((r = STATE_OVERTEMP /\ settings w' = settings w
             /\ effects w' = effects w ++ shown
             /\ UI.persisted_writes (effects w')
                = UI.persisted_writes (effects w))
            \/ (r = STATE_MAIN
                /\ exists c,
                     ScreenFacts.contrast_shown
                       (lcd_contrast (settings w)) c shown
                     /\ (c = lcd_contrast (settings w) \/ 0 <= c <= 63)
                     /\ settings w' = set_lcd_contrast c (settings w)
                     /\ effects w'
                        = effects w ++ shown ++ [E_EEPROM_Write_contrast c]
                     /\ UI.persisted_writes (effects w')
                        = UI.persisted_writes (effects w)
                            ++ [E_EEPROM_Write_contrast c]))
  | Starved w' =>
      settings w' = settings w
      /\ (exists shown,
            Forall ScreenFacts.shows_contrast shown
            /\ effects w' = effects w ++ shown)
      /\ UI.persisted_writes (effects w') = UI.persisted_writes (effects w)
  | Undefined => False
  end
  /\ (forall t e rest,
        Forall (fun t => exists e,
                  UI.delivers w t e /\ type e = UI_EVENT_UPDOWN) ticks ->
        UI.delivers w t e -> is_button1 e = true ->
        exists w',
          UI.set_contrast w (ticks ++ t :: rest) = Ret STATE_MAIN w' rest
          /\ settings w'
             = set_lcd_contrast
                 (Knob.contrast_after (lcd_contrast (settings w))
                    (Knob.knob_deltas ticks))
                 (settings w)
          /\ effects w'
             = effects w
               ++ map E_Display_SetContrast
                    (Knob.contrasts_shown (lcd_contrast (settings w))
                       (Knob.knob_deltas ticks))
               ++ [E_EEPROM_Write_contrast
                     (Knob.contrast_after (lcd_contrast (settings w))
                        (Knob.knob_deltas ticks))]
          /\ Forall (fun z => 0 <= z <= 63)
               (Knob.contrasts_shown (lcd_contrast (settings w))
                  (Knob.knob_deltas ticks))
          /\ state w' = state w /\ cc_readouts w' = cc_readouts w).
Proof.
  split.
  - pose proof (set_contrast_outcome w ticks) as H.
    destruct (UI.set_contrast w ticks) as [r w' rest | w' |].
    + destruct H as (_ & _ & calls & Hall & Hcase).
      pose proof (contrast_calls_write_nothing calls Hall) as Hnone.
      exists calls. split; [exact Hall|].
      destruct Hcase as [(-> & Hset & He) | (-> & c & Hshown & Hset & He)].
      * left. repeat split; auto.
        rewrite He. unfold UI.persisted_writes in *.
        rewrite filter_app, Hnone. apply app_nil_r.
      * right. split; [reflexivity|]. exists c.
        split; [exact Hshown|].
        split; [|split; [exact Hset|split; [exact He|]]].
        -- destruct Hshown as [[_ ->] | [before ->]]; [left; reflexivity|].
           right. apply Forall_app in Hall. destruct Hall as [_ Hlast].
           inversion Hlast as [|e l (z & Hz & Hrange) _]; subst.
           inversion Hz; subst. exact Hrange.
        -- rewrite He. unfold UI.persisted_writes in *.
           rewrite !filter_app, Hnone. reflexivity.
    + destruct H as (_ & _ & Hset & calls & Hall & He).
      split; [exact Hset|]. split; [exists calls; auto|].
      rewrite He. unfold UI.persisted_writes.
      rewrite filter_app. fold (UI.persisted_writes calls).
      rewrite (contrast_calls_write_nothing calls Hall). apply app_nil_r.
    + exact H.
  - intros t e rest Hall Hd Hbutton.
    destruct (contrast_knob_run w ticks (lcd_contrast (settings w))
                UI.fresh_event w eq_refl Hall)
      as (ev' & w1 & Hrun & Hl & Hs & Hset & Hr & He).
    assert (Hd' : UI.delivers w1 t e).
    { destruct Hd as [Hrx Hnow]. split; [exact Hrx | rewrite Hl; exact Hnow]. }
    apply is_button1_spec in Hbutton. destruct Hbutton as [Hty Hid].
    pose proof (next_event_frame t ev' w1) as Hframe.
    rewrite (next_event_delivers w1 t e ev' Hd') in Hframe.
    cbn [snd] in Hframe. destruct Hframe as (Fs & Fset & Fr & Fe & _).
    exists (EEPROM_Write_contrast
              (Knob.contrast_after (lcd_contrast (settings w))
                 (Knob.knob_deltas ticks)) (environment t w1)).
    split.
    { unfold UI.set_contrast. apply run_loop_ret.
      eexists ticks, t, _, _.
      split; [reflexivity|]. split; [exact Hrun|].
      unfold UI.set_contrast_body.
      rewrite (next_event_delivers w1 t e ev' Hd'), Hty, Hid.
      reflexivity. }
    unfold EEPROM_Write_contrast. cbn.
    split; [rewrite Fset, Hset; reflexivity|].
    split; [rewrite Fe, He, <- app_assoc; reflexivity|].
    split; [apply contrasts_shown_in_range|].
    split; congruence.
Qed.

(** The stored contrast 40, fifty detents up, the button: 63 is sent to
    the display and persisted. *)
Lemma set_contrast_persists_shown_witness :
  exists w',
    UI.set_contrast (Samples.bench 5)
      [Samples.updown 10 50; Samples.button 20 1; Samples.idle 30]
    = Ret STATE_MAIN w' [Samples.idle 30]
    /\ settings w' = set_lcd_contrast 63 (settings (Samples.bench 5))
    /\ effects w' = [E_Display_SetContrast 63; E_EEPROM_Write_contrast 63].
Proof.
  pose proof (set_contrast_persists_shown (Samples.bench 5)
                [Samples.updown 10 50]) as [_ Hrun].
  destruct (Hrun (Samples.button 20 1)
              {| type := UI_EVENT_BUTTONPRESS; when := 20; int_arg := 1 |}
              [Samples.idle 30]
              ltac:(repeat constructor; eexists;
                    (split; [split; [reflexivity | vm_compute; discriminate]
                            | reflexivity]))
              ltac:(split; [reflexivity | vm_compute; discriminate])
              eq_refl)
    as (w' & Hret & Hset & He & _).
  exists w'. split; [exact Hret|]. split; [exact Hset | exact He].
Defined.

(** ** The CC-load screen with its redraw *)

Section RunFacts.
Context {L A : Type}.
Variable body : tick -> L -> world -> step_out L A.

End RunFacts.

Section StatusDefined.
Import Drawing.

Variable ohm : string.
Variable glyph_char : string -> ascii.


(** A readout whose function cannot be called within defined behaviour, in
    any of the three slots, takes [draw_status] with it. *)
Lemma draw_status_bad_kind (kind : Z) (readout : readout_function_impl)
  (config : list Z) (r : readings) :
  readout_at kind = Some readout ->
  func readout <> Some print_nothing_fn ->
  call_readout ohm glyph_char readout r = None ->
  Redraw.has_kind kind config ->
  draw_status ohm glyph_char config r = None.
Proof.
  intros Hat Hfunc Hcall (a & b & c & -> & H).
  unfold draw_status, draw_small. cbn [nth_error].
  destruct H as [-> | [-> | ->]].
  - rewrite Hat, Hcall.
    destruct (func readout) as [[]|]; try reflexivity. congruence.
  - rewrite Hat, Hcall.
    destruct (readout_at a) as [ra|]; [|reflexivity].
    match goal with
    | |- match ?main with _ => _ end = None =>
        destruct main; reflexivity
    end.
  - rewrite Hat, Hcall.
    destruct (readout_at a) as [ra|]; [|reflexivity].
    match goal with
    | |- match ?main with _ => _ end = None =>
        destruct main; [|reflexivity]
    end.
    match goal with
    | |- match ?small0 with _ => _ end = None =>
        destruct small0; reflexivity
    end.
Qed.

Lemma draw_status_none (config : list Z) (r : readings) :
  Redraw.has_kind READOUT_NONE config ->
  draw_status ohm glyph_char config r = None.
Proof.
  apply (draw_status_bad_kind READOUT_NONE (mk_impl None ""));
    [reflexivity | discriminate | reflexivity].
Qed.


End StatusDefined.

Section RedrawFacts.
Import UI Facts.

Variable getters : world -> Drawing.readings.
Variable ohm : string.
Variable glyph_char : string -> ascii.

(** The pass with its redraw is the pass of the switch, followed by the
    redraw when the switch did not return. *)
Lemma cc_load_body_redraw (t : tick) (ev : ui_event) (w : world) :
  Redraw.cc_load_body getters ohm glyph_char t ev w
  = match cc_load_body t ev w with
    | Continue e w' => Redraw.redraw getters ohm glyph_char e w'
    | Break r w' => Break r w'
    | Crash => Crash
    end.
Proof.
  unfold Redraw.cc_load_body, cc_load_body.
  destruct (next_event t ev w) as [e w1].
  destruct (type e); try reflexivity.
  destruct (int_arg e =? 1); reflexivity.
Qed.

(** A pass of the switch leaves the display configuration alone and is
    always defined. *)
Lemma cc_load_body_keeps_config (t : tick) (ev : ui_event) (w : world) :
  match cc_load_body t ev w with
  | Continue _ w' | Break _ w' => cc_readouts w' = cc_readouts w
  | Crash => False
  end.
Proof.
  pose proof (next_event_frame t ev w) as (_ & _ & Fr & _).
  unfold cc_load_body.
  destruct (next_event t ev w) as [e w1]. cbn [snd] in Fr.
  assert (Hadj : forall d, cc_readouts (adjust_current_setpoint d w1)
                           = cc_readouts w).
  { intros d. unfold adjust_current_setpoint.
    destruct (current_range (state w1) =? 0); exact Fr. }
  destruct (type e); try exact Fr; try apply Hadj.
  destruct (int_arg e =? 1); [exact Fr | apply Hadj].
Qed.

Lemma redraw_cases (e : ui_event) (w : world) :
  (Redraw.redraw getters ohm glyph_char e w = Continue e w
   /\ Drawing.draw_status ohm glyph_char (cc_readouts w) (getters w) <> None)
  \/ (Redraw.redraw getters ohm glyph_char e w = Crash
      /\ Drawing.draw_status ohm glyph_char (cc_readouts w) (getters w) = None).
Proof.
  unfold Redraw.redraw.
  destruct (Drawing.draw_status ohm glyph_char (cc_readouts w) (getters w));
    [left; split; [reflexivity | discriminate] | right; auto].
Qed.

(** The screen with its redraw leaves defined behaviour or does what the
    switch alone does. *)
Lemma redraw_run_cases (ticks : list tick) (ev : ui_event) (w : world) :
  run_loop (Redraw.cc_load_body getters ohm glyph_char) ev w ticks
  = Undefined
  \/ run_loop (Redraw.cc_load_body getters ohm glyph_char) ev w ticks
     = run_loop cc_load_body ev w ticks.
Proof.
  revert ev w. induction ticks as [|t ticks IH]; intros ev w;
    [right; reflexivity|].
  cbn [run_loop]. rewrite cc_load_body_redraw.
  destruct (cc_load_body t ev w) as [e w1 | r w1 |];
    [| right; reflexivity | left; reflexivity].
  destruct (redraw_cases e w1) as [[-> _] | [-> _]];
    [apply IH | left; reflexivity].
Qed.



(** With a readout that cannot be drawn, the first pass that does not
    return leaves defined behaviour. *)
Lemma redraw_first_pass (w : world) (t : tick) (rest : list tick) :
  (forall w', cc_readouts w' = cc_readouts w ->
     Drawing.draw_status ohm glyph_char (cc_readouts w') (getters w')
     = None) ->
  match cc_load_body t fresh_event w with
  | Break r w' =>
      Redraw.cc_load getters ohm glyph_char w (t :: rest) = Ret r w' rest
  | _ => Redraw.cc_load getters ohm glyph_char w (t :: rest) = Undefined
  end.
Proof.
  intros Hbad. unfold Redraw.cc_load. cbn [run_loop].
  rewrite cc_load_body_redraw.
  pose proof (cc_load_body_keeps_config t fresh_event w) as Hkeep.
  destruct (cc_load_body t fresh_event w) as [e w1 | r w1 |];
    [| reflexivity | reflexivity].
  destruct (redraw_cases e w1) as [[_ Hsome] | [-> _]]; [|reflexivity].
  elim Hsome. apply Hbad. exact Hkeep.
Qed.

Lemma known_cc_load (s : state_func) :
  known_state s -> func s = Some cc_load_fn -> s = STATE_CC_LOAD.
Proof.
  unfold known_state. simpl.
  intros [<- | [<- | [<- | [<- | [<- | [<- | [<- | []]]]]]]] H;
    first [reflexivity | discriminate H].
Qed.

Lemma redraw_call_other (s : state_func) (w : world) (ticks : list tick) :
  func s <> Some cc_load_fn ->
  Redraw.call getters ohm glyph_char s w ticks = call s w ticks.
Proof.
  intros H. unfold Redraw.call.
  destruct (func s) as [[]|]; try reflexivity. congruence.
Qed.

(** Every handler called on a descriptor of the program text returns the
    sentinel or such a descriptor again and leaves the display
    configuration with its three slots, or is the CC-load screen leaving
    defined behaviour. *)
Lemma redraw_call_outcome (s : state_func) (w : world) (ticks : list tick) :
  known_state s -> List.length (cc_readouts w) = 3%nat ->
  match Redraw.call getters ohm glyph_char s w ticks with
  | Ret r w' _ =>
      (func r = None \/ known_state r)
      /\ List.length (cc_readouts w') = 3%nat
  | Starved w' => List.length (cc_readouts w') = 3%nat
  | Undefined =>
      s = STATE_CC_LOAD
      /\ Redraw.cc_load getters ohm glyph_char w ticks = Undefined
  end.
Proof.
  intros Hs Hlen.
  pose proof (call_outcome s w ticks Hs Hlen) as Hout.
  destruct (func s) as [[]|] eqn:Ef;
    try (rewrite redraw_call_other by (rewrite Ef; discriminate);
         destruct (call s w ticks); [exact Hout | exact Hout | contradiction]).
  pose proof (known_cc_load s Hs Ef) as ->.
  unfold Redraw.call. cbn [func STATE_CC_LOAD].
  unfold call in Hout. cbn [func STATE_CC_LOAD] in Hout.
  unfold Redraw.cc_load, cc_load in *.
  destruct (redraw_run_cases ticks fresh_event w) as [-> | ->];
    [split; reflexivity |].
  destruct (run_loop cc_load_body fresh_event w ticks);
    [exact Hout | exact Hout | contradiction].
Qed.

(** Where the task with the redraw is after [n] passes: on a screen of the
    program text with the CC-load screen recorded, blocked in the handler
    it was about to run, or faulted in the redraw of the CC-load screen it
    was about to run. *)
Lemma redraw_loop_invariant (n : nat) (s : state_func) (w : world)
  (ticks : list tick) :
  known_state s -> List.length (cc_readouts w) = 3%nat ->
  match Redraw.vTaskUI_loop getters ohm glyph_char n s STATE_CC_LOAD w ticks
  with
  | Blocked s' m w' =>
      m = STATE_CC_LOAD /\ known_state s'
      /\ List.length (cc_readouts w') = 3%nat
      /\ exists k w1 rest1,
           (k < n)%nat
           /\ Redraw.vTaskUI_loop getters ohm glyph_char k s STATE_CC_LOAD
                w ticks = About_to_run s' m w1 rest1
           /\ Redraw.call getters ohm glyph_char s' w1 rest1 = Starved w'
  | About_to_run s' m w' _ =>
      m = STATE_CC_LOAD /\ known_state s'
      /\ List.length (cc_readouts w') = 3%nat
  | Faulted =>
      exists k w1 rest1,
        (k < n)%nat
        /\ Redraw.vTaskUI_loop getters ohm glyph_char k s STATE_CC_LOAD
             w ticks = About_to_run STATE_CC_LOAD STATE_CC_LOAD w1 rest1
        /\ List.length (cc_readouts w1) = 3%nat
        /\ Redraw.cc_load getters ohm glyph_char w1 rest1 = Undefined
  end.
Proof.
  revert s w ticks. induction n as [|n IH]; intros s w ticks Hs Hlen.
  - simpl. auto.
  - cbn [Redraw.vTaskUI_loop].
    pose proof (redraw_call_outcome s w ticks Hs Hlen) as H.
    destruct (Redraw.call getters ohm glyph_char s w ticks)
      as [r w' rest | w' |] eqn:Ecall.
    + destruct H as [Hr Hlen'].
      destruct (adopt_known r Hr) as [Hm Hk].
      destruct (adopt STATE_CC_LOAD r) as [s' m] eqn:Ead.
      simpl in Hm, Hk. subst m.
      assert (Hstep : forall k,
                Redraw.vTaskUI_loop getters ohm glyph_char (S k) s
                  STATE_CC_LOAD w ticks
                = Redraw.vTaskUI_loop getters ohm glyph_char k s'
                    STATE_CC_LOAD w' rest).
      { intros k. cbn [Redraw.vTaskUI_loop]. rewrite Ecall, Ead.
        reflexivity. }
      specialize (IH s' w' rest Hk Hlen').
      destruct (Redraw.vTaskUI_loop getters ohm glyph_char n s'
                  STATE_CC_LOAD w' rest) as [s2 m2 w2 | s2 m2 w2 rest2 |].
      * destruct IH as (Hm2 & Hk2 & Hl2 & k & w1 & rest1 & Hlt & Hrun & Hc).
        split; [exact Hm2|]. split; [exact Hk2|]. split; [exact Hl2|].
        exists (S k), w1, rest1.
        split; [lia|]. split; [rewrite Hstep; exact Hrun | exact Hc].
      * exact IH.
      * destruct IH as (k & w1 & rest1 & Hlt & Hrun & Hl1 & Hc).
        exists (S k), w1, rest1.
        split; [lia|]. split; [rewrite Hstep; exact Hrun | auto].
    + split; [reflexivity|]. split; [exact Hs|]. split; [exact H|].
      exists 0%nat, w, ticks. split; [lia|]. split; [reflexivity|].
      exact Ecall.
    + destruct H as [-> Hc].
      exists 0%nat, w, ticks. split; [lia|]. auto.
Qed.
End RedrawFacts.



(** X18: the UI task, the CC-load screen making its redraw.  However long
    it runs and whatever events it gets, as long as it has not left defined
    behaviour the recorded main state is the CC-load descriptor (the only
    one in the program whose [is_main_state] is set) and the current state
    is one of the seven descriptors of the program text, so the handler
    called is never null; no menu reads outside its items and the readout
    dialog never writes outside the three slots of the display
    configuration, provided it starts with three.  When the task is
    blocked, it is in the handler it was about to run after fewer passes.
    It leaves defined behaviour only in the redraw of the CC-load screen:
    after fewer passes it was about to run that screen, which then left
    defined behaviour; every other screen of the program text does what it
    does without the redraw and stays within defined behaviour.  And it
    does leave it: with READOUT_NONE in one of the three slots, the task
    about to run the CC-load screen faults on the first pass of that screen
    that does not return. *)
Theorem ui_task_stays_on_known_screens
  (getters : world -> Drawing.readings) (ohm : string)
  (glyph_char : string -> ascii) (debug : bool) (n : nat) (w : world)
  (ticks : list tick) :
  List.length (cc_readouts w) = 3%nat ->
  match Redraw.vTaskUI getters ohm glyph_char debug n w ticks with
  | UI.Blocked s m w' =>
      m = STATE_CC_LOAD /\ Facts.known_state s /\ func s <> None
      /\ List.length (cc_readouts w') = 3%nat
      /\ exists k w1 rest1,
           (k < n)%nat
           /\ Redraw.vTaskUI getters ohm glyph_char debug k w ticks
              = UI.About_to_run s m w1 rest1
           /\ Redraw.call getters ohm glyph_char s w1 rest1 = Starved w'
  | UI.About_to_run s m w' _ =>
      m = STATE_CC_LOAD /\ Facts.known_state s /\ func s <> None
      /\ List.length (cc_readouts w') = 3%nat
  | UI.Faulted =>
      exists k w1 rest1,
        (k < n)%nat
        /\ Redraw.vTaskUI getters ohm glyph_char debug k w ticks
           = UI.About_to_run STATE_CC_LOAD STATE_CC_LOAD w1 rest1
        /\ List.length (cc_readouts w1) = 3%nat
        /\ Redraw.cc_load getters ohm glyph_char w1 rest1 = Undefined
  end
  /\ (forall s,
        Facts.known_state s -> s <> STATE_CC_LOAD ->
        Redraw.call getters ohm glyph_char s w ticks = UI.call s w ticks
        /\ UI.call s w ticks <> Undefined)
  /\ (Redraw.has_kind READOUT_NONE (cc_readouts w) ->
      forall t rest,
        match UI.cc_load_body t UI.fresh_event w with
        | Break _ _ => True
        | _ =>
            Redraw.vTaskUI_loop getters ohm glyph_char (S n) STATE_CC_LOAD
              STATE_CC_LOAD w (t :: rest) = UI.Faulted
        end).
Proof.
  intros Hlen. split; [|split].
  - unfold Redraw.vTaskUI.
    assert (Hs : Facts.known_state
                   (if debug then STATE_CC_LOAD else STATE_SPLASHSCREEN)).
    { unfold Facts.known_state. simpl.
      destruct debug; repeat first [left; reflexivity | right]. }
    pose proof (redraw_loop_invariant getters ohm glyph_char n _ w ticks
                  Hs Hlen) as H.
    destruct (Redraw.vTaskUI_loop getters ohm glyph_char n
                (if debug then STATE_CC_LOAD else STATE_SPLASHSCREEN)
                STATE_CC_LOAD w ticks) as [s m w' | s m w' rest |].
    + destruct H as (Hm & Hk & Hl & Hex).
      split; [exact Hm|]. split; [exact Hk|].
      split; [now apply known_state_has_handler|]. split; [exact Hl|].
      exact Hex.
    + destruct H as (Hm & Hk & Hl).
      split; [exact Hm|]. split; [exact Hk|].
      split; [now apply known_state_has_handler | exact Hl].
    + exact H.
  - intros s Hs Hnot.
    assert (Hf : func s <> Some cc_load_fn).
    { intros Hf. apply Hnot. now apply known_cc_load. }
    split; [now apply redraw_call_other|].
    pose proof (call_outcome s w ticks Hs Hlen) as Hout.
    intros Hundef. rewrite Hundef in Hout. exact Hout.
  - intros Hnone t rest.
    pose proof (redraw_first_pass getters ohm glyph_char w t rest) as Hfirst.
    destruct (UI.cc_load_body t UI.fresh_event w) as [e w1 | r w1 |];
      [| constructor |];
      cbn [Redraw.vTaskUI_loop]; unfold Redraw.call;
      cbn [func STATE_CC_LOAD];
      rewrite Hfirst; try reflexivity;
      intros w' Hsame; rewrite Hsame; now apply draw_status_none.
Qed.

(** From the CC-load screen of the bench: the button opens the main menu,
    "Readouts" is picked, then "Main display", then "None"; back on the
    CC-load screen the next pass, a periodic tick, faults in the redraw. *)
Lemma ui_task_stays_on_known_screens_witness :
  Redraw.vTaskUI Redraw.spec_getters "O" (fun _ => "O"%char) true 5
    (Samples.bench 5)
    [Samples.button 10 1; Samples.updown 20 1; Samples.button 30 1;
     Samples.button 40 1; Samples.updown 50 5; Samples.button 60 1;
     Samples.idle 70]
  = UI.Faulted
  /\ exists k w1 rest1,
       (k < 5)%nat
       /\ Redraw.vTaskUI Redraw.spec_getters "O" (fun _ => "O"%char) true k
            (Samples.bench 5)
            [Samples.button 10 1; Samples.updown 20 1; Samples.button 30 1;
             Samples.button 40 1; Samples.updown 50 5; Samples.button 60 1;
             Samples.idle 70]
          = UI.About_to_run STATE_CC_LOAD STATE_CC_LOAD w1 rest1
       /\ List.length (cc_readouts w1) = 3%nat
       /\ Redraw.cc_load Redraw.spec_getters "O" (fun _ => "O"%char) w1 rest1
          = Undefined.
Proof.
  assert (Hfault :
    Redraw.vTaskUI Redraw.spec_getters "O" (fun _ => "O"%char) true 5
      (Samples.bench 5)
      [Samples.button 10 1; Samples.updown 20 1; Samples.button 30 1;
       Samples.button 40 1; Samples.updown 50 5; Samples.button 60 1;
       Samples.idle 70]
    = UI.Faulted) by (vm_compute; reflexivity).
  split; [exact Hfault|].
  pose proof (ui_task_stays_on_known_screens Redraw.spec_getters "O"
                (fun _ => "O"%char) true 5 (Samples.bench 5)
                [Samples.button 10 1; Samples.updown 20 1;
                 Samples.button 30 1; Samples.button 40 1;
                 Samples.updown 50 5; Samples.button 60 1; Samples.idle 70]
                eq_refl) as [H _].
  rewrite Hfault in H. exact H.
Defined.
